(** * rabbit-clients: decorators over a RabbitMQ client

    A shallow embedding of [rabbit_clients/clients/base.py] and
    [rabbit_clients/clients/blocking.py].

    The file has these parts:
    - Python values, [str()], and the [json] codec the wrappers call
      ([json.dumps], [json.loads]) together with the UTF-8 step between
      text and message bodies;
    - the world the wrappers act on (broker, network, listening schedule,
      user state, trace of calls), the pika operations on it and the
      [retry] decorator;
    - the code of the two modules, function by function;
    - the vocabulary of the properties and the worlds of the examples;
    - the properties: the codec, the retry policy, the publisher, the
      consumer, the round trip, and the wrappers of [base];
    - further properties of the two modules: what the wrappers do when the
      broker stays out of reach, what they publish and how often, what
      they leave as it was, and the order in which a consumer handles its
      messages.

    Scope of the embedding.  Python [str] ranges over code points below 256
    (a Rocq [string]); an escape or a UTF-8 sequence that denotes a larger
    code point is rejected by the decoders here.  Python [float] is absent,
    so a JSON number with a fraction or an exponent is rejected as well.
    Keyword arguments of user functions are not modelled: a call passes a
    list of positional arguments. *)

From Stdlib Require Import ZArith List String Ascii Lia Bool.
From Stdlib Require Import Strings.Byte.
From Stdlib Require Import DecimalZ DecimalN DecimalPos DecimalFacts.
From stdpp Require Import gmap strings.

Import ListNotations.
Local Open Scope Z_scope.

Set Warnings "-register-all".

(* ================================================================== *)
(** * Part 1: Python values *)
(* ================================================================== *)

(** A Python value as the wrappers see it.  [PObj] is any object the
    [json] module cannot encode (a pika channel, a method frame, message
    properties); it is known by its [str()] only.  A dict is the ordered
    list of its items. *)
Inductive PyValue : Type :=
| PNone
| PBool (b : bool)
| PInt (z : Z)
| PStr (s : string)
| PList (l : list PyValue)
| PTuple (l : list PyValue)
| PDict (items : list (PyValue * PyValue))
| PObj (repr : string).

(** Induction over values that reaches inside lists, tuples and dicts. *)
Section PyValue_induction.
Variable P : PyValue -> Prop.
Hypothesis HNone : P PNone.
Hypothesis HBool : forall b, P (PBool b).
Hypothesis HInt : forall z, P (PInt z).
Hypothesis HStr : forall s, P (PStr s).
Hypothesis HList : forall l, Forall P l -> P (PList l).
Hypothesis HTuple : forall l, Forall P l -> P (PTuple l).
Hypothesis HDict :
  forall items, Forall (fun kv => P (fst kv) /\ P (snd kv)) items -> P (PDict items).
Hypothesis HObj : forall r, P (PObj r).

Fixpoint PyValue_nested_ind (v : PyValue) : P v :=
  match v with
  | PNone => HNone
  | PBool b => HBool b
  | PInt z => HInt z
  | PStr s => HStr s
  | PList l =>
      HList l ((fix go (l : list PyValue) : Forall P l :=
                  match l with
                  | [] => @List.Forall_nil _ P
                  | x :: l' => @List.Forall_cons _ P x l' (PyValue_nested_ind x) (go l')
                  end) l)
  | PTuple l =>
      HTuple l ((fix go (l : list PyValue) : Forall P l :=
                   match l with
                   | [] => @List.Forall_nil _ P
                   | x :: l' => @List.Forall_cons _ P x l' (PyValue_nested_ind x) (go l')
                   end) l)
  | PDict items =>
      HDict items
        ((fix go (l : list (PyValue * PyValue))
            : Forall (fun kv => P (fst kv) /\ P (snd kv)) l :=
            match l with
            | [] => @List.Forall_nil _ _
            | (k, x) :: l' =>
                @List.Forall_cons _ _ (k, x) l'
                  (conj (PyValue_nested_ind k) (PyValue_nested_ind x)) (go l')
            end) items)
  | PObj r => HObj r
  end.
End PyValue_induction.

(** Truth value of an object, as [if publish_queues:] and [if body:] test it. *)
Definition py_truthy (v : PyValue) : bool :=
  match v with
  | PNone => false
  | PBool b => b
  | PInt z => negb (z =? 0)
  | PStr s => negb (String.eqb s EmptyString)
  | PList l | PTuple l => match l with [] => false | _ => true end
  | PDict items => match items with [] => false | _ => true end
  | PObj _ => true
  end.

(* ------------------------------------------------------------------ *)
(** ** Decimal text of integers *)

Fixpoint uint_text (d : Decimal.uint) : list ascii :=
  match d with
  | Decimal.Nil => []
  | Decimal.D0 d' => "0"%char :: uint_text d'
  | Decimal.D1 d' => "1"%char :: uint_text d'
  | Decimal.D2 d' => "2"%char :: uint_text d'
  | Decimal.D3 d' => "3"%char :: uint_text d'
  | Decimal.D4 d' => "4"%char :: uint_text d'
  | Decimal.D5 d' => "5"%char :: uint_text d'
  | Decimal.D6 d' => "6"%char :: uint_text d'
  | Decimal.D7 d' => "7"%char :: uint_text d'
  | Decimal.D8 d' => "8"%char :: uint_text d'
  | Decimal.D9 d' => "9"%char :: uint_text d'
  end.

(** [str(z)] for an int: the decimal digits, with a minus sign when negative. *)
Definition int_text (z : Z) : list ascii :=
  match Z.to_int z with
  | Decimal.Pos d => uint_text d
  | Decimal.Neg d => "-"%char :: uint_text d
  end.

Definition digit_of_char (c : ascii) : option (Decimal.uint -> Decimal.uint) :=
  match c with
  | "0" => Some Decimal.D0 | "1" => Some Decimal.D1 | "2" => Some Decimal.D2
  | "3" => Some Decimal.D3 | "4" => Some Decimal.D4 | "5" => Some Decimal.D5
  | "6" => Some Decimal.D6 | "7" => Some Decimal.D7 | "8" => Some Decimal.D8
  | "9" => Some Decimal.D9 | _ => None
  end%char.

Definition is_digit (c : ascii) : bool :=
  match digit_of_char c with Some _ => true | None => false end.

(** The longest run of digits at the head of the text. *)
Fixpoint read_digits (s : list ascii) : Decimal.uint * list ascii :=
  match s with
  | [] => (Decimal.Nil, [])
  | c :: s' =>
      match digit_of_char c with
      | Some k => let (d, r) := read_digits s' in (k d, r)
      | None => (Decimal.Nil, s)
      end
  end.

(** What [int(text)] gives on ["-"? digits]: the inverse of [int_text]. *)
Definition int_of_digits (negative : bool) (d : Decimal.uint) : Z :=
  Z.of_int (if negative then Decimal.Neg d else Decimal.Pos d).

(* ------------------------------------------------------------------ *)
(** ** [json.dumps]

    The encoder with its defaults: [ensure_ascii=True], separators
    [", "] and [": "], [skipkeys=False]. *)

Definition quote_char : ascii := "034"%char.
Definition backslash : ascii := "092"%char.

Definition hex_char (n : N) : ascii :=
  nth (N.to_nat n)
      ["0"; "1"; "2"; "3"; "4"; "5"; "6"; "7"; "8"; "9"; "a"; "b"; "c"; "d"; "e"; "f"]%char
      "0"%char.

(** One character of a string literal.  Printable ASCII stands for itself;
    the quote, the backslash and the five short control escapes have two
    characters; anything else is written with four hexadecimal digits. *)
Definition escape_char (c : ascii) : list ascii :=
  match c with
  | "034" => [backslash; quote_char]
  | "092" => [backslash; backslash]
  | "010" => [backslash; "n"]
  | "013" => [backslash; "r"]
  | "009" => [backslash; "t"]
  | "008" => [backslash; "b"]
  | "012" => [backslash; "f"]
  | _ =>
      let n := N_of_ascii c in
      if ((32 <=? n) && (n <=? 126))%N then [c]
      else [backslash; "u"; "0"; "0"; hex_char (n / 16); hex_char (n mod 16)]
  end%char.

Fixpoint escape_chars (s : list ascii) : list ascii :=
  match s with
  | [] => []
  | c :: s' => escape_char c ++ escape_chars s'
  end.

Definition quoted (s : string) : list ascii :=
  quote_char :: escape_chars (list_ascii_of_string s) ++ [quote_char].

(** Items of an array or an object, separated by a comma and a space. *)
Fixpoint join_items (texts : list (list ascii)) : list ascii :=
  match texts with
  | [] => []
  | [t] => t
  | t :: ts => t ++ [","; " "]%char ++ join_items ts
  end.

(** A dict key as the encoder writes it: a [str] as it is, [True], [False],
    [None] and ints by their JSON text; any other key is a [TypeError]. *)
Definition key_str (k : PyValue) : option string :=
  match k with
  | PStr s => Some s
  | PBool true => Some "true"%string
  | PBool false => Some "false"%string
  | PNone => Some "null"%string
  | PInt z => Some (string_of_list_ascii (int_text z))
  | _ => None
  end.

(** The values [json.dumps] accepts. Tuples are written as arrays. *)
Fixpoint json_serializable (v : PyValue) : bool :=
  match v with
  | PNone | PBool _ | PInt _ | PStr _ => true
  | PList l | PTuple l => forallb json_serializable l
  | PDict items =>
      forallb (fun kv => match key_str (fst kv) with
                         | Some _ => json_serializable (snd kv)
                         | None => false
                         end) items
  | PObj _ => false
  end.

(** A member of an object: the key, a colon and a space, the value. *)
Definition member_text (k : PyValue) (value_text : list ascii) : list ascii :=
  quoted (match key_str k with Some s => s | None => EmptyString end)
    ++ [":"; " "]%char ++ value_text.

(** The text [json.dumps] produces for a serializable value. *)
Fixpoint json_text (v : PyValue) : list ascii :=
  match v with
  | PNone => ["n"; "u"; "l"; "l"]%char
  | PBool true => ["t"; "r"; "u"; "e"]%char
  | PBool false => ["f"; "a"; "l"; "s"; "e"]%char
  | PInt z => int_text z
  | PStr s => quoted s
  | PList l | PTuple l =>
      "["%char :: join_items (map json_text l) ++ ["]"%char]
  | PDict items =>
      "{"%char ::
        join_items (map (fun kv => member_text (fst kv) (json_text (snd kv))) items)
        ++ ["}"%char]
  | PObj _ => []
  end.

(** [json.dumps(v)]: the text, or nothing when the encoder raises
    [TypeError] (an object it cannot encode, or a key it cannot write). *)
Definition json_dumps (v : PyValue) : option string :=
  if json_serializable v then Some (string_of_list_ascii (json_text v)) else None.

(* ------------------------------------------------------------------ *)
(** ** [json.loads] *)

Definition is_ws (c : ascii) : bool :=
  match c with
  | " " | "009" | "010" | "013" => true
  | _ => false
  end%char.

Fixpoint skip_ws (s : list ascii) : list ascii :=
  match s with
  | c :: s' => if is_ws c then skip_ws s' else s
  | [] => []
  end.

Definition hex_val (c : ascii) : option N :=
  let n := N_of_ascii c in
  if ((48 <=? n) && (n <=? 57))%N then Some (n - 48)%N
  else if ((97 <=? n) && (n <=? 102))%N then Some (n - 87)%N
  else if ((65 <=? n) && (n <=? 70))%N then Some (n - 55)%N
  else None.

(** The code point of a [\uXXXX] escape, when it is below 256. *)
Definition hex4 (a b c d : ascii) : option ascii :=
  match hex_val a, hex_val b, hex_val c, hex_val d with
  | Some 0%N, Some 0%N, Some h, Some l => Some (ascii_of_N (16 * h + l))
  | _, _, _, _ => None
  end.

(** The characters of a string literal up to its closing quote (strict
    mode: a raw control character is an error), and the text after it. *)
Fixpoint scanstring (s : list ascii) : option (list ascii * list ascii) :=
  match s with
  | [] => None
  | "034"%char :: r => Some ([], r)
  | "092"%char :: e :: r =>
      let continue_with (c : ascii) (r' : list ascii) :=
        match scanstring r' with
        | Some (cs, rest) => Some (c :: cs, rest)
        | None => None
        end in
      match e with
      | "034" => continue_with quote_char r
      | "092" => continue_with backslash r
      | "/" => continue_with "/" r
      | "b" => continue_with "008" r
      | "f" => continue_with "012" r
      | "n" => continue_with "010" r
      | "r" => continue_with "013" r
      | "t" => continue_with "009" r
      | "u" =>
          match r with
          | a :: b :: c :: d :: r' =>
              match hex4 a b c d with
              | Some ch => continue_with ch r'
              | None => None
              end
          | _ => None
          end
      | _ => None
      end%char
  | "092"%char :: [] => None
  | c :: r =>
      if (N_of_ascii c <? 32)%N then None
      else match scanstring r with
           | Some (cs, rest) => Some (c :: cs, rest)
           | None => None
           end
  end.

(** A number: an optional minus sign, then [0] or a digit from 1 to 9
    followed by digits. *)
Definition scan_unsigned (s : list ascii) : option (Decimal.uint * list ascii) :=
  match s with
  | "0"%char :: r => Some (Decimal.D0 Decimal.Nil, r)
  | c :: _ => if is_digit c then Some (read_digits s) else None
  | [] => None
  end.

Definition scan_number (s : list ascii) : option (PyValue * list ascii) :=
  match s with
  | "-"%char :: r =>
      match scan_unsigned r with
      | Some (d, rest) => Some (PInt (int_of_digits true d), rest)
      | None => None
      end
  | _ =>
      match scan_unsigned s with
      | Some (d, rest) => Some (PInt (int_of_digits false d), rest)
      | None => None
      end
  end.

(** Storing a decoded member in the dict under construction: a key met
    again keeps its place and takes the new value. *)
Fixpoint dict_set (k : string) (x : PyValue) (items : list (PyValue * PyValue))
  : list (PyValue * PyValue) :=
  match items with
  | [] => [(PStr k, x)]
  | (k', x') :: rest =>
      match k' with
      | PStr s => if String.eqb s k then (k', x) :: rest
                  else (k', x') :: dict_set k x rest
      | _ => (k', x') :: dict_set k x rest
      end
  end.

Definition dict_of_pairs (pairs : list (string * PyValue)) : list (PyValue * PyValue) :=
  fold_left (fun items kv => dict_set (fst kv) (snd kv) items) pairs [].

(** The scanner.  [fuel] bounds the nesting and the number of items; the
    length of the text is always enough (see [json_loads]). *)
Fixpoint scan_once (fuel : nat) (s : list ascii) : option (PyValue * list ascii) :=
  match fuel with
  | O => None
  | S fuel' =>
      match s with
      | "034"%char :: r =>
          match scanstring r with
          | Some (cs, rest) => Some (PStr (string_of_list_ascii cs), rest)
          | None => None
          end
      | "{"%char :: r =>
          match skip_ws r with
          | "}"%char :: rest => Some (PDict [], rest)
          | r' =>
              match scan_members fuel' r' with
              | Some (pairs, rest) => Some (PDict (dict_of_pairs pairs), rest)
              | None => None
              end
          end
      | "["%char :: r =>
          match skip_ws r with
          | "]"%char :: rest => Some (PList [], rest)
          | r' =>
              match scan_elements fuel' r' with
              | Some (vs, rest) => Some (PList vs, rest)
              | None => None
              end
          end
      | "n"%char :: "u"%char :: "l"%char :: "l"%char :: rest => Some (PNone, rest)
      | "t"%char :: "r"%char :: "u"%char :: "e"%char :: rest => Some (PBool true, rest)
      | "f"%char :: "a"%char :: "l"%char :: "s"%char :: "e"%char :: rest =>
          Some (PBool false, rest)
      | _ => scan_number s
      end
  end
with scan_elements (fuel : nat) (s : list ascii) : option (list PyValue * list ascii) :=
  match fuel with
  | O => None
  | S fuel' =>
      match scan_once fuel' s with
      | Some (v, r) =>
          match skip_ws r with
          | ","%char :: r' =>
              match scan_elements fuel' (skip_ws r') with
              | Some (vs, rest) => Some (v :: vs, rest)
              | None => None
              end
          | "]"%char :: rest => Some ([v], rest)
          | _ => None
          end
      | None => None
      end
  end
with scan_members (fuel : nat) (s : list ascii)
  : option (list (string * PyValue) * list ascii) :=
  match fuel with
  | O => None
  | S fuel' =>
      match s with
      | "034"%char :: r =>
          match scanstring r with
          | Some (k, r1) =>
              match skip_ws r1 with
              | ":"%char :: r2 =>
                  match scan_once fuel' (skip_ws r2) with
                  | Some (v, r3) =>
                      match skip_ws r3 with
                      | ","%char :: r4 =>
                          match scan_members fuel' (skip_ws r4) with
                          | Some (ps, rest) =>
                              Some ((string_of_list_ascii k, v) :: ps, rest)
                          | None => None
                          end
                      | "}"%char :: rest => Some ([(string_of_list_ascii k, v)], rest)
                      | _ => None
                      end
                  | None => None
                  end
              | _ => None
              end
          | None => None
          end
      | _ => None
      end
  end.

(** [json.loads(text)]: leading space, one value, trailing space, nothing
    more.  It gives nothing when the decoder raises [JSONDecodeError], and
    also on a text that is outside this embedding: a number with a
    fraction or an exponent, [NaN], [Infinity], or an escape that denotes
    a code point from 256 on. *)
Definition json_loads (text : string) : option PyValue :=
  let s := list_ascii_of_string text in
  match scan_once (S (List.length s)) (skip_ws s) with
  | Some (v, rest) => match skip_ws rest with [] => Some v | _ => None end
  | None => None
  end.

(* ------------------------------------------------------------------ *)
(** ** [str()] and [repr()] *)

Definition apostrophe : ascii := "039"%char.

(** Printable code points below 256, as [str.isprintable] has them. *)
Definition is_printable (c : ascii) : bool :=
  let n := N_of_ascii c in
  (((32 <=? n) && (n <=? 126)) || ((161 <=? n) && negb (n =? 173)))%N.

Definition repr_char (q : ascii) (c : ascii) : list ascii :=
  if Ascii.eqb c q then [backslash; c]
  else match c with
       | "092" => [backslash; backslash]
       | "009" => [backslash; "t"]
       | "010" => [backslash; "n"]
       | "013" => [backslash; "r"]
       | _ =>
           if is_printable c then [c]
           else let n := N_of_ascii c in
                [backslash; "x"; hex_char (n / 16); hex_char (n mod 16)]
       end%char.

(** [repr] of a [str]: single quotes, unless the text has a single quote
    and no double quote. *)
Definition repr_str (s : string) : list ascii :=
  let cs := list_ascii_of_string s in
  let q := if existsb (Ascii.eqb apostrophe) cs && negb (existsb (Ascii.eqb quote_char) cs)
           then quote_char else apostrophe in
  q :: flat_map (repr_char q) cs ++ [q].

Fixpoint py_repr_text (v : PyValue) : list ascii :=
  match v with
  | PNone => ["N"; "o"; "n"; "e"]%char
  | PBool true => ["T"; "r"; "u"; "e"]%char
  | PBool false => ["F"; "a"; "l"; "s"; "e"]%char
  | PInt z => int_text z
  | PStr s => repr_str s
  | PList l => "["%char :: join_items (map py_repr_text l) ++ ["]"%char]
  | PTuple l =>
      match l with
      | [x] => "("%char :: py_repr_text x ++ [","; ")"]%char
      | _ => "("%char :: join_items (map py_repr_text l) ++ [")"%char]
      end
  | PDict items =>
      "{"%char ::
        join_items (map (fun kv => py_repr_text (fst kv) ++ [":"; " "]%char
                                     ++ py_repr_text (snd kv)) items)
        ++ ["}"%char]
  | PObj r => list_ascii_of_string r
  end.

(** [str(v)]: a [str] is itself, anything else its [repr]. *)
Definition py_str (v : PyValue) : string :=
  match v with
  | PStr s => s
  | _ => string_of_list_ascii (py_repr_text v)
  end.

(* ------------------------------------------------------------------ *)
(** ** UTF-8, between text and message bodies

    pika encodes a [str] body as UTF-8 before it sends it; the consumer
    calls [body.decode('utf-8')]. *)

Definition encode_char (c : ascii) : list byte :=
  let n := N_of_ascii c in
  if (n <? 128)%N then [byte_of_ascii c]
  else [byte_of_ascii (ascii_of_N (192 + n / 64));
        byte_of_ascii (ascii_of_N (128 + n mod 64))].

Definition encode_utf8 (s : string) : list byte :=
  flat_map encode_char (list_ascii_of_string s).

(** Strict decoding.  A sequence that is not UTF-8 raises
    [UnicodeDecodeError]; one that denotes a code point from 256 on is
    outside this embedding.  Both give no result here. *)
Fixpoint decode_chars (b : list byte) : option (list ascii) :=
  match b with
  | [] => Some []
  | x :: r =>
      let n := Byte.to_N x in
      if (n <? 128)%N then
        match decode_chars r with
        | Some cs => Some (ascii_of_byte x :: cs)
        | None => None
        end
      else if ((n =? 194) || (n =? 195))%N then
        match r with
        | y :: r' =>
            let m := Byte.to_N y in
            if ((128 <=? m) && (m <? 192))%N then
              match decode_chars r' with
              | Some cs => Some (ascii_of_N ((n - 192) * 64 + (m - 128)) :: cs)
              | None => None
              end
            else None
        | [] => None
        end
      else None
  end.

Definition decode_utf8 (b : list byte) : option string :=
  match decode_chars b with
  | Some cs => Some (string_of_list_ascii cs)
  | None => None
  end.

(* ================================================================== *)
(** * Part 2: exceptions, the world, and pika *)
(* ================================================================== *)

(** The exceptions that matter to the wrappers.  In pika,
    [ConnectionClosedByBroker] is a subclass of [AMQPConnectionError]. *)
Inductive exn : Type :=
| AMQPConnectionError
| ConnectionClosedByBroker
| KeyboardInterrupt
| TypeError
| JSONDecodeError
| UnicodeDecodeError
| UserError (name : string).

(** [isinstance(e, pika.exceptions.AMQPConnectionError)]: what
    [@retry(pika.exceptions.AMQPConnectionError, ...)] catches. *)
Definition is_AMQPConnectionError (e : exn) : bool :=
  match e with
  | AMQPConnectionError | ConnectionClosedByBroker => true
  | _ => false
  end.

(** How a call ends: it returns, it raises, or it never returns (a
    consumer that listens while nothing more happens). *)
Inductive outcome (A : Type) : Type :=
| Ret (a : A)
| Raise (e : exn)
| Block.
Arguments Ret {A} a.
Arguments Raise {A} e.
Arguments Block {A}.

(** What can happen while a consumer listens: the broker hands over the
    next message of the consumed queue, with the channel, method and
    properties objects of the delivery; the broker closes the connection;
    the operator interrupts the process. *)
Inductive listen_event : Type :=
| Deliver (channel method properties : PyValue)
| BrokerClose
| Interrupt.

(** The calls the code makes, in program order. *)
Inductive event : Type :=
| EvCall (fn : string) (args : list PyValue)
| EvConnect (reached : bool)
| EvSleep
| EvExchangeDeclare (exchange exchange_type : string)
| EvQueueDeclare (queue : string)
| EvQueueBind (exchange queue : string)
| EvDumps (v : PyValue)
| EvPublish (exchange routing_key : string) (body : list byte)
| EvConsume (queue : string)
| EvGet (queue : string)
| EvStopConsuming.

(** The world, over the state [U] that user functions act on. *)
Record World (U : Type) : Type := mkWorld {
  w_user : U;
  (** outcome of the coming connection attempts ([true]: the broker is
      reached); once the list is used up the broker is reached *)
  w_net : list bool;
  (** what happens while a consumer listens *)
  w_sched : list listen_event;
  (** the broker: declared exchanges with their type, bindings
      (exchange, queue), and the queues with their messages, oldest first *)
  w_exchanges : gmap string string;
  w_bindings : list (string * string);
  w_queues : gmap string (list (list byte));
  (** names the broker has generated for queues declared without one *)
  w_generated : nat;
  (** the module globals of [base]: [_CONNECTION] (absent, or a connection
      and whether it is open) with its [_CHANNEL] *)
  w_connection : option bool;
  w_trace : list event
}.
Arguments mkWorld {U}.
Arguments w_user {U}.
Arguments w_net {U}.
Arguments w_sched {U}.
Arguments w_exchanges {U}.
Arguments w_bindings {U}.
Arguments w_queues {U}.
Arguments w_generated {U}.
Arguments w_connection {U}.
Arguments w_trace {U}.

(** A Python function: its name and what a call does to the user state. *)
Record pyfun (U : Type) : Type := mkFun {
  fn_name : string;
  fn_call : list PyValue -> U -> outcome PyValue * U
}.
Arguments mkFun {U}.
Arguments fn_name {U}.
Arguments fn_call {U}.

(* ------------------------------------------------------------------ *)
(** ** Calls that act on a state *)

Definition M (St A : Type) : Type := St -> outcome A * St.

Definition ret {St A} (a : A) : M St A := fun s => (Ret a, s).
Definition raise {St A} (e : exn) : M St A := fun s => (Raise e, s).

Definition bind {St A B} (c : M St A) (k : A -> M St B) : M St B :=
  fun s =>
    match c s with
    | (Ret a, s') => k a s'
    | (Raise e, s') => (Raise e, s')
    | (Block, s') => (Block, s')
    end.

Notation "x <- c ;; k" := (bind c (fun x => k))
  (at level 100, c at next level, right associativity).
Notation "c ;;; k" := (bind c (fun _ => k))
  (at level 100, right associativity).

(** [try: c  except ...: h]: [handler e] is the body of the clause that
    catches [e], if one does. *)
Definition try_except {St A} (c : M St A) (handler : exn -> option (M St A)) : M St A :=
  fun s =>
    match c s with
    | (Raise e, s') =>
        match handler e with
        | Some h => h s'
        | None => (Raise e, s')
        end
    | r => r
    end.

(* ------------------------------------------------------------------ *)
(** ** The [retry] decorator

    [retry(exceptions, tries, delay, jitter)] of the [retry] package, for
    [exceptions = AMQPConnectionError]:
    [while tries: try: return f() except exceptions: tries -= 1; if not
    tries: raise; time.sleep(delay); delay += jitter].  The state passes
    through [pause] where the loop sleeps; the length of the delay is not
    modelled. *)
Section Retry.
Context {St : Type} (pause : St -> St).

Fixpoint retry_internal (tries : nat) (f : M St PyValue) : M St PyValue :=
  fun s =>
    match tries with
    | O => (Ret PNone, s)
    | S tries' =>
        match f s with
        | (Raise e, s') =>
            if is_AMQPConnectionError e then
              match tries' with
              | O => (Raise e, s')
              | S _ => retry_internal tries' f (pause s')
              end
            else (Raise e, s')
        | r => r
        end
    end.
(** [conn_fails op k s s']: from [s], [op] raises a connection error [k]
    times in a row, the loop sleeping after each, and [s'] is the state
    in which the next attempt starts. *)
Inductive conn_fails (op : M St PyValue) : nat -> St -> St -> Prop :=
| conn_fails_O s : conn_fails op 0 s s
| conn_fails_S k s e s1 s' :
    op s = (Raise e, s1) ->
    is_AMQPConnectionError e = true ->
    conn_fails op k (pause s1) s' ->
    conn_fails op (S k) s s'.
End Retry.

(** A call counter around an operation, as a test double would keep it. *)
Definition counted {St A} (op : M St A) : M (nat * St) A :=
  fun cs => let (r, s') := op (snd cs) in (r, (S (fst cs), s')).

Definition counted_pause {St} (pause : St -> St) : nat * St -> nat * St :=
  fun cs => (fst cs, pause (snd cs)).

(* ------------------------------------------------------------------ *)
(** ** pika and the broker *)

Section Pika.
Context {U : Type}.

Definition set_user (u : U) (w : World U) : World U :=
  mkWorld u (w_net w) (w_sched w) (w_exchanges w) (w_bindings w) (w_queues w)
          (w_generated w) (w_connection w) (w_trace w).
Definition set_net (net : list bool) (w : World U) : World U :=
  mkWorld (w_user w) net (w_sched w) (w_exchanges w) (w_bindings w) (w_queues w)
          (w_generated w) (w_connection w) (w_trace w).
Definition set_sched (sched : list listen_event) (w : World U) : World U :=
  mkWorld (w_user w) (w_net w) sched (w_exchanges w) (w_bindings w) (w_queues w)
          (w_generated w) (w_connection w) (w_trace w).
Definition set_exchanges (x : gmap string string) (w : World U) : World U :=
  mkWorld (w_user w) (w_net w) (w_sched w) x (w_bindings w) (w_queues w)
          (w_generated w) (w_connection w) (w_trace w).
Definition set_bindings (b : list (string * string)) (w : World U) : World U :=
  mkWorld (w_user w) (w_net w) (w_sched w) (w_exchanges w) b (w_queues w)
          (w_generated w) (w_connection w) (w_trace w).
Definition set_queues (q : gmap string (list (list byte))) (w : World U) : World U :=
  mkWorld (w_user w) (w_net w) (w_sched w) (w_exchanges w) (w_bindings w) q
          (w_generated w) (w_connection w) (w_trace w).
Definition set_generated (n : nat) (w : World U) : World U :=
  mkWorld (w_user w) (w_net w) (w_sched w) (w_exchanges w) (w_bindings w) (w_queues w)
          n (w_connection w) (w_trace w).
Definition set_connection (c : option bool) (w : World U) : World U :=
  mkWorld (w_user w) (w_net w) (w_sched w) (w_exchanges w) (w_bindings w) (w_queues w)
          (w_generated w) c (w_trace w).

(** Appends a call to the trace. *)
Definition log (e : event) (w : World U) : World U :=
  mkWorld (w_user w) (w_net w) (w_sched w) (w_exchanges w) (w_bindings w) (w_queues w)
          (w_generated w) (w_connection w) (w_trace w ++ [e]).

(** [time.sleep] between two attempts of [retry]. *)
Definition sleep (w : World U) : World U := log EvSleep w.

(** Calling a Python function. *)
Definition call (f : pyfun U) (args : list PyValue) : M (World U) PyValue :=
  fun w =>
    let w1 := log (EvCall (fn_name f) args) w in
    let (r, u) := fn_call f args (w_user w1) in
    (r, set_user u w1).

(** [json.dumps(v)] *)
Definition dumps (v : PyValue) : M (World U) string :=
  fun w =>
    let w1 := log (EvDumps v) w in
    match json_dumps v with
    | Some text => (Ret text, w1)
    | None => (Raise TypeError, w1)
    end.

(** [json.loads(body.decode('utf-8'))] *)
Definition loads_decoded (body : list byte) : M (World U) PyValue :=
  match decode_utf8 body with
  | None => raise UnicodeDecodeError
  | Some text =>
      match json_loads text with
      | Some v => ret v
      | None => raise JSONDecodeError
      end
  end.

(** [json.loads(body)] on bytes: a UTF-8 byte order mark is dropped.
    (UTF-16 and UTF-32 bodies, which [json] also detects, are outside
    this embedding.) *)
Definition loads_bytes (body : list byte) : M (World U) PyValue :=
  match body with
  | b0 :: b1 :: b2 :: body' =>
      if Byte.eqb b0 xef && Byte.eqb b1 xbb && Byte.eqb b2 xbf
      then loads_decoded body'
      else loads_decoded body
  | _ => loads_decoded body
  end.

(** [pika.BlockingConnection(...)] and [connection.channel()]. *)
Definition connect : M (World U) unit :=
  fun w =>
    match w_net w with
    | false :: net => (Raise AMQPConnectionError, log (EvConnect false) (set_net net w))
    | true :: net => (Ret tt, log (EvConnect true) (set_net net w))
    | [] => (Ret tt, log (EvConnect true) w)
    end.

(** [channel.exchange_declare(exchange, exchange_type)].  An exchange
    that exists keeps its type. *)
Definition exchange_declare (exchange exchange_type : string) : M (World U) unit :=
  fun w =>
    let w1 := log (EvExchangeDeclare exchange exchange_type) w in
    match w_exchanges w1 !! exchange with
    | Some _ => (Ret tt, w1)
    | None => (Ret tt, set_exchanges (<[exchange := exchange_type]> (w_exchanges w1)) w1)
    end.

(** The frame [queue_declare] returns.  Two things matter about it:
    [json] cannot encode it, and [result.method.queue] is the name of
    the queue. *)
Definition DeclareOk (name : string) : PyValue :=
  PObj ("<METHOD(<Queue.DeclareOk queue=" +:+ name +:+ ">)>").

Definition generated_name (n : nat) : string :=
  "amq.gen-" +:+ string_of_list_ascii (int_text (Z.of_nat n)).

(** [channel.queue_declare(queue)]: the queue exists afterwards, with the
    messages it had.  The broker names a queue declared with the empty
    name.  Gives [result.method.queue]. *)
Definition queue_declare (queue : string) : M (World U) string :=
  fun w =>
    let w1 := log (EvQueueDeclare queue) w in
    let (name, w2) :=
      if String.eqb queue EmptyString
      then (generated_name (w_generated w1), set_generated (S (w_generated w1)) w1)
      else (queue, w1) in
    match w_queues w2 !! name with
    | Some _ => (Ret name, w2)
    | None => (Ret name, set_queues (<[name := []]> (w_queues w2)) w2)
    end.

(** pika checks that the queue name is a [str]
    ([validators.require_string]). *)
Definition queue_declare_obj (queue : PyValue) : M (World U) string :=
  match queue with
  | PStr q => queue_declare q
  | _ => raise TypeError
  end.

Definition binding_eqb (a b : string * string) : bool :=
  String.eqb (fst a) (fst b) && String.eqb (snd a) (snd b).

(** [channel.queue_bind(exchange, queue)] *)
Definition queue_bind (exchange queue : string) : M (World U) unit :=
  fun w =>
    let w1 := log (EvQueueBind exchange queue) w in
    if existsb (binding_eqb (exchange, queue)) (w_bindings w1) then (Ret tt, w1)
    else (Ret tt, set_bindings (w_bindings w1 ++ [(exchange, queue)]) w1).

(** Where the broker puts a message.  The default exchange hands it to
    the queue named by the routing key; a named exchange to every queue
    bound to it (fan-out; the key matching of direct and topic exchanges
    is not modelled). *)
Definition route (w : World U) (exchange routing_key : string) : list string :=
  if String.eqb exchange EmptyString then [routing_key]
  else map snd (List.filter (fun b => String.eqb (fst b) exchange) (w_bindings w)).

Definition enqueue (body : list byte) (queues : gmap string (list (list byte)))
           (queue : string) : gmap string (list (list byte)) :=
  match queues !! queue with
  | Some msgs => <[queue := msgs ++ [body]]> queues
  | None => queues
  end.

(** [channel.basic_publish(exchange, routing_key, body)] with a [str]
    body, which pika encodes as UTF-8. *)
Definition basic_publish (exchange routing_key body : string) : M (World U) unit :=
  fun w =>
    let bytes := encode_utf8 body in
    let w1 := log (EvPublish exchange routing_key bytes) w in
    (Ret tt,
     set_queues (fold_left (enqueue bytes) (route w1 exchange routing_key) (w_queues w1)) w1).

(** Takes the oldest message of a queue, if it has one ([auto_ack]: the
    message is gone once handed over). *)
Definition take (queue : string) (w : World U) : option (list byte * World U) :=
  match w_queues w !! queue with
  | Some (body :: msgs) => Some (body, set_queues (<[queue := msgs]> (w_queues w)) w)
  | _ => None
  end.

(** [channel.basic_get(queue, auto_ack=True)]: the body of the oldest
    message, or [None] when there is none. *)
Definition basic_get (queue : string) : M (World U) (option (list byte)) :=
  fun w =>
    let w1 := log (EvGet queue) w in
    match take queue w1 with
    | Some (body, w2) => (Ret (Some body), w2)
    | None => (Ret None, w1)
    end.

(** [channel.basic_consume(queue, on_message_callback, auto_ack=True)] *)
Definition basic_consume (queue : string) : M (World U) unit :=
  fun w => (Ret tt, log (EvConsume queue) w).

(** [channel.stop_consuming()] *)
Definition stop_consuming : M (World U) PyValue :=
  fun w => (Ret PNone, log EvStopConsuming w).

Definition on_message : Type :=
  PyValue -> PyValue -> PyValue -> list byte -> M (World U) PyValue.

(** [channel.start_consuming()] for the consumer registered on [queue]
    with [callback].  It goes through what is scheduled: a delivery runs
    the callback on the oldest message (none waiting: nothing happens),
    and what the callback raises leaves the loop; a close by the broker
    raises [ConnectionClosedByBroker], [closed] being what it does to
    the connection object; an interrupt raises [KeyboardInterrupt].  With
    nothing left scheduled the call never returns. *)
Fixpoint consume_loop (closed : World U -> World U) (queue : string)
         (callback : on_message) (sched : list listen_event)
  : M (World U) PyValue :=
  fun w =>
    match sched with
    | [] => (Block, w)
    | ev :: rest =>
        let w0 := set_sched rest w in
        match ev with
        | Deliver channel method properties =>
            match take queue w0 with
            | Some (body, w1) =>
                match callback channel method properties body w1 with
                | (Ret _, w2) => consume_loop closed queue callback rest w2
                | r => r
                end
            | None => consume_loop closed queue callback rest w0
            end
        | BrokerClose => (Raise ConnectionClosedByBroker, closed w0)
        | Interrupt => (Raise KeyboardInterrupt, w0)
        end
    end.

Definition start_consuming (closed : World U -> World U) (queue : string)
           (callback : on_message) : M (World U) PyValue :=
  fun w => consume_loop closed queue callback (w_sched w) w.
End Pika.

(* ================================================================== *)
(** * Part 3: the code *)
(* ================================================================== *)

(** ** [rabbit_clients/clients/blocking.py] *)
Module blocking.
Section WithUser.
Context {U : Type}.

(** A connection of its own for every call; the configuration only says
    where the broker is. *)
Definition _create_connection_and_channel : M (World U) unit := connect.

(** [send_log(channel, method, properties, body)] *)
Definition send_log : pyfun U :=
  mkFun "send_log"
    (fun args u =>
       match args with
       | [channel; method; properties; body] =>
           (Ret (PDict [(PStr "channel", PStr (py_str channel));
                        (PStr "method", PStr (py_str method));
                        (PStr "properties", PStr (py_str properties));
                        (PStr "body", body)]), u)
       | _ => (Raise TypeError, u)
       end).

Record PublishMessage : Type := mkPublishMessage {
  pm_queue : string;
  pm_exchange : string;
  pm_exchange_type : string
}.

(** [PublishMessage(queue)] with the defaults [exchange=''] and
    [exchange_type='fanout']. *)
Definition PublishMessage_default (queue : string) : PublishMessage :=
  mkPublishMessage queue "" "fanout".

(** The body of [PublishMessage.__call__.wrapper]: one attempt.  With an
    exchange, [result] is bound a second time, to what [queue_declare]
    returns. *)
Definition PublishMessage_wrapper (self : PublishMessage) (func : pyfun U)
           (args : list PyValue) : M (World U) PyValue :=
  result <- call func args ;;
  _create_connection_and_channel ;;;
  result <- (if negb (String.eqb (pm_exchange self) "") then
               exchange_declare (pm_exchange self) (pm_exchange_type self) ;;;
               name <- queue_declare (pm_queue self) ;;
               queue_bind (pm_exchange self) name ;;;
               ret (DeclareOk name)
             else
               queue_declare (pm_queue self) ;;;
               ret result) ;;
  body <- dumps result ;;
  basic_publish (pm_exchange self) (pm_queue self) body ;;;
  ret PNone.

(** [PublishMessage.__call__(func)]: the wrapper under
    [@retry(AMQPConnectionError, tries=5, delay=5, jitter=(1, 3))]. *)
Definition PublishMessage_call (self : PublishMessage) (func : pyfun U)
           (args : list PyValue) : M (World U) PyValue :=
  retry_internal sleep 5 (PublishMessage_wrapper self func args).

Record ConsumeMessage : Type := mkConsumeMessage {
  cm_consume_queue : string;
  cm_exchange : string;
  cm_exchange_type : string;
  cm_logging : bool;
  cm_logging_queue : string
}.

(** [ConsumeMessage(queue)] with the defaults [exchange=''],
    [exchange_type=''], [logging=True], [logging_queue='logging']. *)
Definition ConsumeMessage_default (queue : string) : ConsumeMessage :=
  mkConsumeMessage queue "" "" true "logging".

(** [message_handler(channel, method, properties, body)] *)
Definition message_handler (self : ConsumeMessage) (log_publisher : PublishMessage)
           (func : pyfun U) : on_message :=
  fun channel method properties body =>
    decoded_body <- loads_decoded body ;;
    (if cm_logging self then
       PublishMessage_call log_publisher send_log
                           [channel; method; properties; decoded_body]
     else ret PNone) ;;;
    call func [decoded_body] ;;;
    ret PNone.

(** The body of [ConsumeMessage.__call__.prepare_channel]: one attempt.
    The arguments of the call are not used. *)
Definition ConsumeMessage_prepare_channel (self : ConsumeMessage) (func : pyfun U)
           (args : list PyValue) : M (World U) PyValue :=
  _create_connection_and_channel ;;;
  (if negb (String.eqb (cm_exchange self) "") then
     exchange_declare (cm_exchange self) (cm_exchange_type self) ;;;
     name <- queue_declare (cm_consume_queue self) ;;
     queue_bind (cm_exchange self) name
   else
     queue_declare (cm_consume_queue self) ;;; ret tt) ;;;
  let log_publisher := PublishMessage_default (cm_logging_queue self) in
  basic_consume (cm_consume_queue self) ;;;
  try_except
    (start_consuming (fun w => w) (cm_consume_queue self)
                     (message_handler self log_publisher func))
    (fun e =>
       match e with
       | ConnectionClosedByBroker => Some (ret PNone)
       | KeyboardInterrupt => Some stop_consuming
       | _ => None
       end).

(** [ConsumeMessage.__call__(func)]: [prepare_channel] under
    [@retry(AMQPConnectionError, tries=5, delay=5, jitter=(1, 3))]. *)
Definition ConsumeMessage_call (self : ConsumeMessage) (func : pyfun U)
           (args : list PyValue) : M (World U) PyValue :=
  retry_internal sleep 5 (ConsumeMessage_prepare_channel self func args).
End WithUser.
End blocking.

(** ** [rabbit_clients/clients/base.py] *)
Module base.
Section WithUser.
Context {U : Type}.

(** [_create_global_connection()]: sets the globals [_CONNECTION] and
    [_CHANNEL]; they stay as they were when the connection fails. *)
Definition _create_global_connection : M (World U) unit :=
  connect ;;;
  (fun w => (Ret tt, set_connection (Some true) w)).

(** [_check_connection()] *)
Definition _check_connection : M (World U) unit :=
  (fun w => match w_connection w with
            | None => _create_global_connection w
            | Some _ => (Ret tt, w)
            end) ;;;
  (fun w => match w_connection w with
            | Some false => _create_global_connection w
            | _ => (Ret tt, w)
            end).

(** [publish_message(queue, exchange)(func)(args)], that is
    [prepare_channel(args)].  [queue] is whatever object the caller
    passed. *)
Definition publish_message (queue : PyValue) (exchange : string) (func : pyfun U)
           (args : list PyValue) : M (World U) PyValue :=
  result <- call func args ;;
  _check_connection ;;;
  name <- queue_declare_obj queue ;;
  body <- dumps result ;;
  basic_publish exchange (match queue with PStr q => q | _ => name end) body ;;;
  ret PNone.

(** [message_handler(channel, method, properties, body)] of
    [consume_message].  The [send_log] it defines is never called. *)
Definition message_handler (publish_queues : PyValue) (exchange : string)
           (func : pyfun U) : on_message :=
  fun channel method properties body =>
    if py_truthy publish_queues then
      message <- loads_bytes body ;;
      publish_message publish_queues exchange func [message]
    else ret PNone.

(** [consume_message(consume_queue, publish_queues, exchange,
    production_ready)(func)(args)].  The inner [prepare_channel] takes
    no argument, so a call with one raises [TypeError]. *)
Definition consume_message (consume_queue : string) (publish_queues : PyValue)
           (exchange : string) (production_ready : bool) (func : pyfun U)
           (args : list PyValue) : M (World U) PyValue :=
  match args with
  | [] =>
      _check_connection ;;;
      queue_declare consume_queue ;;;
      if production_ready then
        basic_consume consume_queue ;;;
        try_except
          (start_consuming (set_connection (Some false)) consume_queue
                           (message_handler publish_queues exchange func))
          (fun e =>
             match e with
             | KeyboardInterrupt => Some stop_consuming
             | _ => None
             end)
      else
        body <- basic_get consume_queue ;;
        match body with
        | Some (b :: bs) =>
            message_handler publish_queues exchange func PNone PNone PNone (b :: bs) ;;;
            ret PNone
        | _ => ret PNone
        end
  | _ => raise TypeError
  end.

(** [message_pipeline(consume_queue, publish_queue, exchange,
    production_ready)(func)(args)], that is [wrapper(message_dict)]. *)
Definition message_pipeline (consume_queue publish_queue exchange : string)
           (production_ready : bool) (func : pyfun U) (args : list PyValue)
  : M (World U) PyValue :=
  match args with
  | [message_dict] =>
      consume_message consume_queue (PStr publish_queue) exchange production_ready
                      func [message_dict] ;;;
      ret PNone
  | _ => raise TypeError
  end.
End WithUser.
End base.

(* ================================================================== *)
(** * Vocabulary of the properties, and example worlds *)
(* ================================================================== *)

(** A world with nothing in it: no exchange, no queue, the broker within
    reach, nothing scheduled; the user state counts calls. *)
Definition empty_world : World nat :=
  mkWorld 0%nat [] [] ∅ [] ∅ 0%nat None [].

(** A user function that returns [result] and counts its calls. *)
Definition counting (name : string) (result : PyValue) : pyfun nat :=
  mkFun name (fun _ n => (Ret result, S n)).

(** A user function that raises. *)
Definition failing (name : string) (e : exn) : pyfun nat :=
  mkFun name (fun _ n => (Raise e, S n)).

(** The text after a number must not go on with a digit. *)
Definition no_digit_head (rest : list ascii) : Prop :=
  match rest with
  | [] => True
  | c :: _ => is_digit c = false
  end.

(** Strings without repetition. *)
Fixpoint distinct (ks : list string) : bool :=
  match ks with
  | [] => true
  | k :: ks' => negb (existsb (String.eqb k) ks') && distinct ks'
  end.

Definition item_key (kv : PyValue * PyValue) : string :=
  match fst kv with PStr s => s | _ => EmptyString end.

(** The values [json.loads] can give back: [None], booleans, ints, strings,
    lists, and dicts whose keys are strings, each key once. *)
Fixpoint json_native (v : PyValue) : bool :=
  match v with
  | PNone | PBool _ | PInt _ | PStr _ => true
  | PList l => forallb json_native l
  | PDict items =>
      forallb (fun kv => match fst kv with
                         | PStr _ => json_native (snd kv)
                         | _ => false
                         end) items
      && distinct (map item_key items)
  | PTuple _ | PObj _ => false
  end.

(** Escaped text is ASCII. *)
Definition is_ascii (c : ascii) : bool := (N_of_ascii c <? 128)%N.

(** Where a number can start. *)
Definition number_head (c : ascii) : bool := is_digit c || Ascii.eqb c "-"%char.

(** [scans_back v]: the scanner reads [v] back from its text, whatever
    follows, as long as a number is not followed by a digit. *)
Definition scans_back (v : PyValue) : Prop :=
  forall fuel rest,
    (List.length (json_text v) <= fuel)%nat ->
    no_digit_head rest ->
    scan_once fuel (json_text v ++ rest) = Some (v, rest).

(** The first character of a text tells the scanner what follows: it is
    no white space and it does not close an array. *)
Definition value_head (c : ascii) : bool :=
  negb (is_ws c) && negb (Ascii.eqb c "]"%char).

(** The characters at which the scanner does not try a number. *)
Definition dispatch (c : ascii) : bool :=
  Ascii.eqb c quote_char || Ascii.eqb c "{"%char || Ascii.eqb c "["%char
  || Ascii.eqb c "n"%char || Ascii.eqb c "t"%char || Ascii.eqb c "f"%char.

(** Items whose keys are strings and whose values [json.dumps] accepts. *)
Definition plain_items (items : list (PyValue * PyValue)) : bool :=
  forallb (fun kv => match fst kv with
                     | PStr _ => json_serializable (snd kv)
                     | _ => false
                     end) items.

(** The next connection attempt reaches the broker. *)
Definition reaches (net : list bool) : bool :=
  match net with
  | false :: _ => false
  | _ => true
  end.

(** The broker is out of reach [k] times, then reached. *)
Fixpoint outages (k : nat) (net : list bool) : bool :=
  match k with
  | O => reaches net
  | S k' =>
      match net with
      | false :: net' => outages k' net'
      | _ => false
      end
  end.

(** The user state after [k] calls of [f] that all return, if they do. *)
Fixpoint returns_n {U} (f : pyfun U) (args : list PyValue) (k : nat) (u : U) : option U :=
  match k with
  | O => Some u
  | S k' =>
      match fn_call f args u with
      | (Ret _, u') => returns_n f args k' u'
      | _ => None
      end
  end.

(** The world after an attempt of a publisher that called [func] and then
    found the broker out of reach, and after the sleep that follows. *)
Definition failed_attempt {U} (func : pyfun U) (args : list PyValue) (w : World U)
  : World U :=
  sleep (log (EvConnect false)
             (set_net (tl (w_net w))
                      (set_user (snd (fn_call func args (w_user w)))
                                (log (EvCall (fn_name func) args) w)))).

Fixpoint failed_attempts {U} (k : nat) (func : pyfun U) (args : list PyValue)
         (w : World U) : World U :=
  match k with
  | O => w
  | S k' => failed_attempts k' func args (failed_attempt func args w)
  end.

(** The trace of one failed attempt. *)
Definition failed_trace (fn : string) (args : list PyValue) : list event :=
  [EvCall fn args; EvConnect false; EvSleep].

(** How often a function was called, and how often [json.dumps] was. *)
Definition count_calls (fn : string) (trace : list event) : nat :=
  List.length (List.filter (fun e => match e with
                                     | EvCall g _ => String.eqb g fn
                                     | _ => false
                                     end) trace).

Definition count_dumps (trace : list event) : nat :=
  List.length (List.filter (fun e => match e with EvDumps _ => true | _ => false end) trace).

Definition count_publishes (trace : list event) : nat :=
  List.length (List.filter (fun e => match e with EvPublish _ _ _ => true | _ => false end)
                           trace).

(** The messages waiting in a queue (none when the queue does not exist). *)
Definition messages {U} (w : World U) (queue : string) : list (list byte) :=
  match w_queues w !! queue with
  | Some msgs => msgs
  | None => []
  end.

(** The name of the queue that [queue_declare(queue)] declares. *)
Definition declared_name {U} (queue : string) (w : World U) : string :=
  if String.eqb queue EmptyString then generated_name (w_generated w) else queue.

(** The world after an attempt of a publisher without exchange that
    called [func], got [v] (with the user state [u]), reached the broker
    and published [text]. *)
Definition publish_world {U} (queue : string) (func : pyfun U) (args : list PyValue)
           (v : PyValue) (u : U) (text : string) (w : World U) : World U :=
  let w1 := set_user u (log (EvCall (fn_name func) args) w) in
  let w2 := log (EvConnect true) (set_net (tl (w_net w1)) w1) in
  let w3 := snd (queue_declare queue w2) in
  let w4 := log (EvDumps v) w3 in
  snd (basic_publish "" queue text w4).

(** The trace of the attempt that publishes. *)
Definition publish_trace (queue fn : string) (args : list PyValue) (v : PyValue)
           (text : string) : list event :=
  [EvCall fn args; EvConnect true; EvQueueDeclare queue; EvDumps v;
   EvPublish "" queue (encode_utf8 text)].

(** The world after an attempt of a publisher with an exchange that called
    [func], got the user state [u] and reached the broker: the topology is
    declared, and [json.dumps] was given the frame of [queue_declare]. *)
Definition exchange_world {U} (self : blocking.PublishMessage) (func : pyfun U)
           (args : list PyValue) (u : U) (w : World U) : World U :=
  let w1 := set_user u (log (EvCall (fn_name func) args) w) in
  let w2 := log (EvConnect true) (set_net (tl (w_net w1)) w1) in
  let w3 := snd (exchange_declare (blocking.pm_exchange self)
                                  (blocking.pm_exchange_type self) w2) in
  let w4 := snd (queue_declare (blocking.pm_queue self) w3) in
  let w5 := snd (queue_bind (blocking.pm_exchange self)
                            (declared_name (blocking.pm_queue self) w3) w4) in
  log (EvDumps (DeclareOk (declared_name (blocking.pm_queue self) w3))) w5.

Definition exchange_trace (self : blocking.PublishMessage) (fn : string)
           (args : list PyValue) (name : string) : list event :=
  [EvCall fn args; EvConnect true;
   EvExchangeDeclare (blocking.pm_exchange self) (blocking.pm_exchange_type self);
   EvQueueDeclare (blocking.pm_queue self);
   EvQueueBind (blocking.pm_exchange self) name;
   EvDumps (DeclareOk name)].

(** The log envelope of a delivery. *)
Definition log_envelope (channel method properties decoded_body : PyValue) : PyValue :=
  PDict [(PStr "channel", PStr (py_str channel));
         (PStr "method", PStr (py_str method));
         (PStr "properties", PStr (py_str properties));
         (PStr "body", decoded_body)].

(** How a handler ends, given how the wrapped function ended: its result
    is dropped. *)
Definition handler_outcome (r : outcome PyValue) : outcome PyValue :=
  match r with
  | Ret _ => Ret PNone
  | Raise e => Raise e
  | Block => Block
  end.

(** The arguments of the calls of a function, in order. *)
Definition calls_of (fn : string) (trace : list event) : list (list PyValue) :=
  flat_map (fun e => match e with
                     | EvCall g args => if String.eqb g fn then [args] else []
                     | _ => []
                     end) trace.

(** Python's [==] on values: a bool equals the int it stands for, a list
    never equals a tuple, dicts are compared item by item whatever the
    order, an opaque object equals itself. *)
Fixpoint py_eq (a b : PyValue) : bool :=
  match a, b with
  | PNone, PNone => true
  | PBool x, PBool y => Bool.eqb x y
  | PBool x, PInt z => z =? (if x then 1 else 0)
  | PInt z, PBool x => z =? (if x then 1 else 0)
  | PInt x, PInt y => x =? y
  | PStr x, PStr y => String.eqb x y
  | PList l1, PList l2 | PTuple l1, PTuple l2 =>
      (fix all2 (l1 l2 : list PyValue) : bool :=
         match l1, l2 with
         | [], [] => true
         | x :: l1', y :: l2' => py_eq x y && all2 l1' l2'
         | _, _ => false
         end) l1 l2
  | PDict items1, PDict items2 =>
      Nat.eqb (List.length items1) (List.length items2)
      && forallb (fun kv => existsb (fun kv' => py_eq (fst kv) (fst kv')
                                                && py_eq (snd kv) (snd kv')) items2) items1
  | PObj r1, PObj r2 => String.eqb r1 r2
  | _, _ => false
  end.

(** The JSON text of a value, as a message body. *)
Definition json_body (v : PyValue) : list byte :=
  encode_utf8 (string_of_list_ascii (json_text v)).

(** The objects pika hands to the callback, for the examples. *)
Definition a_channel : PyValue := PObj "<BlockingChannel>".
Definition a_method : PyValue := PObj "<Basic.Deliver>".
Definition some_properties : PyValue := PObj "<BasicProperties>".


(** What [prepare_channel] of the consumer does before it listens: the
    connection, the topology, the registration of the callback. *)
Definition consumer_setup {U} (self : blocking.ConsumeMessage) : M (World U) unit :=
  blocking._create_connection_and_channel ;;;
  (if negb (String.eqb (blocking.cm_exchange self) "") then
     exchange_declare (blocking.cm_exchange self) (blocking.cm_exchange_type self) ;;;
     name <- queue_declare (blocking.cm_consume_queue self) ;;
     queue_bind (blocking.cm_exchange self) name
   else
     queue_declare (blocking.cm_consume_queue self) ;;; ret tt) ;;;
  basic_consume (blocking.cm_consume_queue self).

(** The callback the consumer registers. *)
Definition consumer_callback {U} (self : blocking.ConsumeMessage) (func : pyfun U)
  : on_message :=
  blocking.message_handler
    self (blocking.PublishMessage_default (blocking.cm_logging_queue self)) func.

(** The listening of the consumer, from [start_consuming] on. *)
Definition consumer_listening {U} (self : blocking.ConsumeMessage) (func : pyfun U)
  : M (World U) PyValue :=
  try_except
    (start_consuming (fun w => w) (blocking.cm_consume_queue self)
                     (consumer_callback self func))
    (fun e =>
       match e with
       | ConnectionClosedByBroker => Some (ret PNone)
       | KeyboardInterrupt => Some stop_consuming
       | _ => None
       end).

(** The world in which the one-shot consumer of [base] handles what it
    fetched: the connection checked, the queue declared, the fetch done. *)
Definition fetch_world {U} (consume_queue : string) (w : World U) : World U :=
  snd (basic_get consume_queue
                 (snd (queue_declare consume_queue (snd (base._check_connection w))))).

(** [grows_by ok w w']: the trace of [w'] is the trace of [w] followed by
    events that all pass [ok]. *)
Definition grows_by {U} (ok : event -> bool) (w w' : World U) : Prop :=
  exists tail, w_trace w' = w_trace w ++ tail /\ forallb ok tail = true.

(** An operation that only makes calls that pass [ok]. *)
Definition keeps {U A} (ok : event -> bool) (c : M (World U) A) : Prop :=
  forall w, grows_by ok w (snd (c w)).

(** Every call but a fetch. *)
Definition not_a_fetch (e : event) : bool :=
  match e with
  | EvGet _ => false
  | _ => true
  end.

(** A world where [q1] holds one message, published by the publisher of
    [blocking] from a function that returns [{"x": 1}]; the connection of
    [base] is open. *)
Definition world_with_message : World nat :=
  set_connection (Some true)
    (snd (blocking.PublishMessage_call (blocking.PublishMessage_default "q1")
            (counting "f" (PDict [(PStr "x", PInt 1)])) [] empty_world)).

(** A world where [q1] holds one message with an empty body. *)
Definition world_with_empty_body : World nat :=
  set_connection (Some true)
    (snd (basic_publish "" "q1" "" (snd (queue_declare "q1" empty_world)))).

(* ------------------------------------------------------------------ *)
(** ** Vocabulary of the further properties *)

(** The first [k] connection attempts find the broker out of reach. *)
Fixpoint down (k : nat) (net : list bool) : bool :=
  match k with
  | O => true
  | S k' =>
      match net with
      | false :: net' => down k' net'
      | _ => false
      end
  end.

(** Whether a call returned. *)
Definition returned {A} (r : outcome A) : bool :=
  match r with
  | Ret _ => true
  | _ => false
  end.

(** The trace of the attempt that gives up: the function is called, the
    broker is out of reach, and no sleep follows. *)
Definition last_failed_trace (fn : string) (args : list PyValue) : list event :=
  [EvCall fn args; EvConnect false].

(** How often a connection was attempted. *)
Definition count_connects (trace : list event) : nat :=
  List.length (List.filter (fun e => match e with EvConnect _ => true | _ => false end) trace).

(** An operation that publishes once when it returns and not at all when
    it does not. *)
Definition publishes_on_return {U A} (c : M (World U) A) : Prop :=
  forall w,
    count_publishes (w_trace (snd (c w)))
    = (count_publishes (w_trace w) + if returned (fst (c w)) then 1 else 0)%nat.

(** [evolves ok keep w w']: from [w] to [w'] only calls that pass [ok]
    were made, and every queue that passes [keep] still holds the messages
    it held, in their order, with what was published since behind them. *)
Definition evolves {U} (ok : event -> bool) (keep : string -> bool) (w w' : World U)
  : Prop :=
  grows_by ok w w'
  /\ forall q, keep q = true -> exists more, messages w' q = messages w q ++ more.

(** An operation under which the world only evolves in this way. *)
Definition respects {U A} (ok : event -> bool) (keep : string -> bool)
           (c : M (World U) A) : Prop :=
  forall w, evolves ok keep w (snd (c w)).

(** The calls that neither run a function nor encode or publish. *)
Definition quiet (e : event) : bool :=
  match e with
  | EvCall _ _ | EvDumps _ | EvPublish _ _ _ => false
  | _ => true
  end.

(** Every queue. *)
Definition any_queue (q : string) : bool := true.

(** Every queue but one. *)
Definition other_than (queue : string) (q : string) : bool := negb (String.eqb q queue).

(** Every event. *)
Definition any_event (e : event) : bool := true.

(** No queue. *)
Definition no_queue (q : string) : bool := false.

(** Bytes below 128, and the calls whose body, if they publish one, is
    made of such bytes. *)
Definition is_ascii_byte (b : byte) : bool := (Byte.to_N b <? 128)%N.

Definition ascii_body (e : event) : bool :=
  match e with
  | EvPublish _ _ body => forallb is_ascii_byte body
  | _ => true
  end.

(** The calls of a consumer of [blocking] that publishes, if at all, to
    its logging queue through the default exchange, with logging on. *)
Definition logs_only (self : blocking.ConsumeMessage) (e : event) : bool :=
  match e with
  | EvPublish exchange routing_key _ =>
      blocking.cm_logging self && String.eqb exchange ""
      && String.eqb routing_key (blocking.cm_logging_queue self)
  | _ => true
  end.

(** The calls of a consumer of [base] that publishes, if at all, to its
    publish queue through its exchange. *)
Definition forwards_only (publish_queues : PyValue) (exchange : string) (e : event) : bool :=
  match e with
  | EvPublish x routing_key _ =>
      String.eqb x exchange
      && match publish_queues with
         | PStr q => negb (String.eqb q "") && String.eqb routing_key q
         | _ => false
         end
  | _ => true
  end.


(** The user state after calls of [f] on each of [vs] in turn. *)
Fixpoint run_calls {U} (f : pyfun U) (vs : list PyValue) (u : U) : U :=
  match vs with
  | [] => u
  | v :: vs' => run_calls f vs' (snd (fn_call f [v] u))
  end.

(** A world where [q1] holds the messages [1] and [2], in this order, and
    two deliveries and an interrupt are scheduled. *)
Definition world_with_two_messages : World nat :=
  set_sched [Deliver a_channel a_method some_properties;
             Deliver a_channel a_method some_properties; Interrupt]
    (snd (blocking.PublishMessage_call (blocking.PublishMessage_default "q1")
            (counting "f" (PInt 2)) []
            (snd (blocking.PublishMessage_call (blocking.PublishMessage_default "q1")
                    (counting "f" (PInt 1)) [] empty_world)))).

(** Items whose keys are strings and whose values [json.loads] can give
    back. *)
Definition native_items (items : list (PyValue * PyValue)) : bool :=
  forallb (fun kv => match fst kv with
                     | PStr _ => json_native (snd kv)
                     | _ => false
                     end) items.

(** The world after [k] attempts that found the broker out of reach
    before anything else was done, each followed by the sleep of the
    retry loop. *)
Fixpoint unreached_attempts {U} (k : nat) (w : World U) : World U :=
  match k with
  | O => w
  | S k' =>
      unreached_attempts k' (sleep (log (EvConnect false) (set_net (tl (w_net w)) w)))
  end.

(** The trace of one such attempt. *)
Definition unreached_trace : list event := [EvConnect false; EvSleep].

(** The text of a dict key as the encoder writes it. *)
Definition key_text (k : PyValue) : string :=
  match key_str k with
  | Some s => s
  | None => EmptyString
  end.

(** A value as it comes back from its JSON text: a tuple as a list, a
    dict with its keys as the encoder wrote them, a key met again keeping
    its place and taking the later value. *)
Fixpoint json_normal (v : PyValue) : PyValue :=
  match v with
  | PList l | PTuple l => PList (map json_normal l)
  | PDict items =>
      PDict (dict_of_pairs (map (fun kv => (key_text (fst kv), json_normal (snd kv))) items))
  | _ => v
  end.

(** [scans_to v v']: from the text of [v] the scanner reads [v'],
    whatever follows, as long as a number is not followed by a digit. *)
Definition scans_to (v v' : PyValue) : Prop :=
  forall fuel rest,
    (List.length (json_text v) <= fuel)%nat ->
    no_digit_head rest ->
    scan_once fuel (json_text v ++ rest) = Some (v', rest).

(* ================================================================== *)
(** * Part 4: properties *)
(* ================================================================== *)

(** ** The retry policy *)
Section RetryFacts.
Context {St : Type} (pause : St -> St).
Implicit Types (op : M St PyValue) (s : St).

Lemma retry_internal_S tries op s :
  retry_internal pause (S tries) op s =
    match op s with
    | (Raise e, s') =>
        if is_AMQPConnectionError e then
          match tries with
          | O => (Raise e, s')
          | S _ => retry_internal pause tries op (pause s')
          end
        else (Raise e, s')
    | r => r
    end.
Proof. reflexivity. Qed.

(** After [k] failed attempts the loop is where it would be with [k]
    tries less, as long as one try is left. *)
Lemma retry_skips_failures op k :
  forall tries s s',
    conn_fails pause op k s s' ->
    retry_internal pause (k + S tries) op s = retry_internal pause (S tries) op s'.
Proof.
  induction k as [|k IH]; intros tries s s' Hf.
  - inversion Hf; subst. reflexivity.
  - inversion Hf as [|k' s0 e s1 s2 Hop He Hrest]; subst.
    change (S k + S tries)%nat with (S (k + S tries)).
    rewrite retry_internal_S, Hop, He.
    replace (k + S tries)%nat with (S (k + tries)) by lia.
    replace (S (k + tries)) with (k + S tries)%nat by lia.
    now apply IH.
Qed.

Lemma retry_returns op tries s a s' :
  op s = (Ret a, s') -> retry_internal pause (S tries) op s = (Ret a, s').
Proof. intros H. now rewrite retry_internal_S, H. Qed.

Lemma retry_blocks op tries s s' :
  op s = (Block, s') -> retry_internal pause (S tries) op s = (Block, s').
Proof. intros H. now rewrite retry_internal_S, H. Qed.

Lemma retry_other_error op tries s e s' :
  op s = (Raise e, s') -> is_AMQPConnectionError e = false ->
  retry_internal pause (S tries) op s = (Raise e, s').
Proof. intros H He. now rewrite retry_internal_S, H, He. Qed.

Lemma retry_last_failure op s e s' :
  op s = (Raise e, s') -> is_AMQPConnectionError e = true ->
  retry_internal pause 1 op s = (Raise e, s').
Proof. intros H He. now rewrite retry_internal_S, H, He. Qed.


End RetryFacts.

(** With a call counter around the operation, the failures are the same
    and the counter advances by their number. *)
Lemma conn_fails_counted {St} (pause : St -> St) (op : M St PyValue) k :
  forall s s' c,
    conn_fails pause op k s s' ->
    conn_fails (counted_pause pause) (counted op) k (c, s) ((k + c)%nat, s').
Proof.
  induction k as [|k IH]; intros s s' c Hf.
  - inversion Hf; subst. constructor.
  - inversion Hf as [|k' s0 e s1 s2 Hop He Hrest]; subst.
    eapply conn_fails_S with (e := e) (s1 := (S c, s1)).
    + unfold counted; simpl. now rewrite Hop.
    + exact He.
    + replace (S k + c)%nat with (k + S c)%nat by lia.
      apply (IH _ _ (S c)). exact Hrest.
Qed.


(** Evaluation at a concrete world: the left side of an equation is
    computed, one failed attempt of a retried operation is run. *)
Ltac eval_call :=
  lazymatch goal with
  | |- ?l = _ =>
      let r := eval vm_compute in l in
      transitivity r; [vm_compute; reflexivity | reflexivity]
  end.

Ltac fail_step :=
  lazymatch goal with
  | |- conn_fails ?pz ?op (S _) ?s _ =>
      let r := eval vm_compute in (op s) in
      lazymatch r with
      | (Raise ?e, ?s1) =>
          eapply (conn_fails_S pz op _ s e s1);
          [vm_compute; reflexivity | reflexivity | ]
      end
  | |- conn_fails _ _ 0 _ _ => apply conn_fails_O
  end.

(** C3.  An operation under the retry decorator, with its five tries.
    When it raises a connection error on its first [k] attempts, [k < 5],
    and returns on the next, the call returns that result and the
    operation has run [k + 1] times: five times when only the fifth
    attempt succeeds.  When it raises a connection error on all five
    attempts, the call raises the error of the fifth and the operation has
    run five times. *)
Theorem retry_five_attempts {St} (pause : St -> St) (op : M St PyValue) :
  (forall k s sk a s',
      (k < 5)%nat ->
      conn_fails pause op k s sk ->
      op sk = (Ret a, s') ->
      retry_internal pause 5 op s = (Ret a, s') /\
      retry_internal (counted_pause pause) 5 (counted op) (0%nat, s)
        = (Ret a, (S k, s'))) /\
  (forall s s4 e s',
      conn_fails pause op 4 s s4 ->
      op s4 = (Raise e, s') ->
      is_AMQPConnectionError e = true ->
      retry_internal pause 5 op s = (Raise e, s') /\
      retry_internal (counted_pause pause) 5 (counted op) (0%nat, s)
        = (Raise e, (5%nat, s'))).
Proof.
  split.
  - intros k s sk a s' Hk Hf Hop.
    assert (Hgen : forall St' (pz : St' -> St') (o : M St' PyValue) t t' r,
               conn_fails pz o k t t' -> o t' = (Ret a, r) ->
               retry_internal pz 5 o t = (Ret a, r)).
    { intros St' pz o t t' r Hf' Ho'.
      replace 5%nat with (k + S (4 - k))%nat by lia.
      rewrite (retry_skips_failures pz o k _ _ _ Hf').
      now apply retry_returns. }
    split.
    + eapply Hgen; eauto.
    + eapply Hgen.
      * apply (conn_fails_counted pause op k s sk 0%nat Hf).
      * unfold counted; simpl. rewrite Hop. now rewrite Nat.add_0_r.
  - intros s s4 e s' Hf Hop He.
    assert (Hgen : forall St' (pz : St' -> St') (o : M St' PyValue) t t' r,
               conn_fails pz o 4 t t' -> o t' = (Raise e, r) ->
               retry_internal pz 5 o t = (Raise e, r)).
    { intros St' pz o t t' r Hf' Ho'.
      change 5%nat with (4 + 1)%nat.
      rewrite (retry_skips_failures pz o 4 _ _ _ Hf').
      now apply retry_last_failure. }
    split.
    + eapply Hgen; eauto.
    + eapply Hgen.
      * apply (conn_fails_counted pause op 4 s s4 0%nat Hf).
      * unfold counted; simpl. now rewrite Hop.
Qed.

(** The publisher of [q1] in a world where the broker is out of reach four
    times: the fifth attempt publishes. *)
Lemma retry_five_attempts_witness :
  exists w,
    retry_internal (counted_pause sleep) 5
      (counted (blocking.PublishMessage_wrapper (blocking.PublishMessage_default "q1")
                  (counting "f" (PInt 1)) []))
      (0%nat, set_net [false; false; false; false] empty_world)
    = (Ret PNone, (5%nat, w)).
Proof.
  eexists.
  eapply (proj1 (retry_five_attempts sleep _) 4%nat).
  - lia.
  - repeat fail_step.
  - eval_call.
Defined.

(** C4.  An operation under the retry decorator that raises an error
    which is not a connection error: the error reaches the caller at once,
    after a single run of the operation. *)
Theorem retry_other_errors_propagate {St} (pause : St -> St) (op : M St PyValue)
        (s : St) (e : exn) (s' : St) :
  op s = (Raise e, s') ->
  is_AMQPConnectionError e = false ->
  retry_internal pause 5 op s = (Raise e, s') /\
  retry_internal (counted_pause pause) 5 (counted op) (0%nat, s) = (Raise e, (1%nat, s')).
Proof.
  intros Hop He. split.
  - now apply retry_other_error.
  - apply retry_other_error; [|exact He].
    unfold counted; simpl. now rewrite Hop.
Qed.

(** A publisher whose function returns an object [json] cannot encode:
    [TypeError] after one run. *)
Lemma retry_other_errors_propagate_witness :
  exists w,
    retry_internal (counted_pause sleep) 5
      (counted (blocking.PublishMessage_wrapper (blocking.PublishMessage_default "q1")
                  (counting "f" (PObj "<object>")) []))
      (0%nat, empty_world)
    = (Raise TypeError, (1%nat, w)).
Proof.
  eexists.
  eapply (fun H1 H2 =>
            proj2 (retry_other_errors_propagate sleep _ empty_world TypeError _ H1 H2)).
  - eval_call.
  - reflexivity.
Defined.

(** ** The [json] codec *)

Lemma read_digits_text d rest :
  no_digit_head rest -> read_digits (uint_text d ++ rest) = (d, rest).
Proof.
  intros Hrest.
  induction d; simpl; try (rewrite IHd; reflexivity).
  destruct rest as [|c rest']; [reflexivity|].
  simpl in *. unfold is_digit in Hrest.
  destruct (digit_of_char c); [discriminate | reflexivity].
Qed.

(** The decimal digits of a positive number start with a digit from 1 to 9. *)
Lemma pos_to_uint_head p :
  Pos.to_uint p <> Decimal.Nil /\ forall d, Pos.to_uint p <> Decimal.D0 d.
Proof.
  split; [apply DecimalPos.Unsigned.to_uint_nonnil|].
  intros d Hd.
  pose proof (DecimalN.Unsigned.to_of (Pos.to_uint p)) as H.
  change (N.of_uint (Pos.to_uint p)) with (Pos.of_uint (Pos.to_uint p)) in H.
  rewrite DecimalPos.Unsigned.of_to in H. simpl in H.
  unfold Decimal.unorm in H.
  destruct (Decimal.nzhead (Pos.to_uint p)) eqn:Hnz; try congruence.
  - exact (DecimalPos.Unsigned.to_uint_nonzero p H).
  - now apply DecimalFacts.nzhead_nonzero in Hnz.
Qed.

Lemma scan_unsigned_text d rest :
  d = Decimal.D0 Decimal.Nil \/ (d <> Decimal.Nil /\ forall d', d <> Decimal.D0 d') ->
  no_digit_head rest ->
  scan_unsigned (uint_text d ++ rest) = Some (d, rest).
Proof.
  intros [->|[Hnil Hzero]] Hrest; [reflexivity|].
  pose proof (read_digits_text d rest Hrest) as Hread.
  destruct d; try congruence; try (now elim (Hzero d));
    simpl in *; unfold scan_unsigned; simpl; now rewrite Hread.
Qed.

Lemma scan_number_text z rest :
  no_digit_head rest -> scan_number (int_text z ++ rest) = Some (PInt z, rest).
Proof.
  intros Hrest.
  unfold int_text.
  destruct z as [|p|p]; simpl.
  - reflexivity.
  - pose proof (pos_to_uint_head p) as Hh.
    pose proof (scan_unsigned_text (Pos.to_uint p) rest (or_intror Hh) Hrest) as Hs.
    pose proof (DecimalZ.of_to (Z.pos p)) as Hof.
    change (Z.to_int (Z.pos p)) with (Decimal.Pos (Pos.to_uint p)) in Hof.
    destruct Hh as [Hnil Hzero].
    unfold scan_number.
    destruct (Pos.to_uint p) eqn:Hp; try congruence; try (now elim (Hzero u));
      cbn [uint_text app] in *; rewrite Hs; unfold int_of_digits; now rewrite Hof.
  - pose proof (pos_to_uint_head p) as Hh.
    pose proof (scan_unsigned_text (Pos.to_uint p) rest (or_intror Hh) Hrest) as Hs.
    pose proof (DecimalZ.of_to (Z.neg p)) as Hof.
    change (Z.to_int (Z.neg p)) with (Decimal.Neg (Pos.to_uint p)) in Hof.
    unfold scan_number. rewrite Hs. unfold int_of_digits. now rewrite Hof.
Qed.

Lemma scanstring_escape_char c tail :
  scanstring (escape_char c ++ tail) =
    match scanstring tail with
    | Some (cs, rest) => Some (c :: cs, rest)
    | None => None
    end.
Proof. destruct c as [[] [] [] [] [] [] [] []]; reflexivity. Qed.

Lemma scanstring_text cs rest :
  scanstring (escape_chars cs ++ quote_char :: rest) = Some (cs, rest).
Proof.
  induction cs as [|c cs IH]; [reflexivity|].
  cbn [escape_chars]. rewrite <- app_assoc, scanstring_escape_char.
  now rewrite IH.
Qed.

Lemma escape_char_ascii c : forallb is_ascii (escape_char c) = true.
Proof. destruct c as [[] [] [] [] [] [] [] []]; reflexivity. Qed.

Lemma escape_chars_ascii cs : forallb is_ascii (escape_chars cs) = true.
Proof.
  induction cs as [|c cs IH]; [reflexivity|].
  cbn [escape_chars]. rewrite forallb_app, escape_char_ascii. exact IH.
Qed.

Lemma scan_once_number fuel c s :
  number_head c = true -> scan_once (S fuel) (c :: s) = scan_number (c :: s).
Proof.
  destruct c as [[] [] [] [] [] [] [] []]; intros H; try discriminate H; reflexivity.
Qed.

Lemma int_text_head z :
  exists c t, int_text z = c :: t /\ number_head c = true.
Proof.
  unfold int_text.
  destruct z as [|p|p]; simpl.
  - do 2 eexists; split; reflexivity.
  - destruct (pos_to_uint_head p) as [Hnil Hzero].
    destruct (Pos.to_uint p); try congruence; do 2 eexists; split; reflexivity.
  - do 2 eexists; split; reflexivity.
Qed.

Lemma number_head_value c : number_head c = true -> value_head c = true.
Proof.
  destruct c as [[] [] [] [] [] [] [] []]; intros H; try discriminate H; reflexivity.
Qed.

Lemma json_text_head v :
  json_native v = true ->
  exists c t, json_text v = c :: t /\ value_head c = true.
Proof.
  destruct v as [|[]|z|s|l|l|items|r]; simpl; intros H; try discriminate H;
    try (do 2 eexists; split; reflexivity).
  destruct (int_text_head z) as (c & t & -> & Hc).
  exists c, t. split; [reflexivity | now apply number_head_value].
Qed.

Lemma skip_ws_value_head c s : value_head c = true -> skip_ws (c :: s) = c :: s.
Proof.
  unfold value_head. intros H. simpl.
  destruct (is_ws c); [discriminate | reflexivity].
Qed.

Lemma join_items_head x l :
  json_native x = true ->
  exists c t, join_items (map json_text (x :: l)) = c :: t /\ value_head c = true.
Proof.
  intros Hx. destruct (json_text_head x Hx) as (c & t & Hc & Hv).
  simpl. rewrite Hc. destruct (map json_text l); simpl; eauto.
Qed.

Lemma join_items_cons {A} (f : A -> list ascii) a b l :
  join_items (map f (a :: b :: l)) = f a ++ [","; " "]%char ++ join_items (map f (b :: l)).
Proof. reflexivity. Qed.

Lemma scan_elements_text l :
  l <> [] ->
  Forall (fun x => json_native x = true /\ scans_back x) l ->
  forall fuel rest,
    (List.length (join_items (map json_text l)) < fuel)%nat ->
    scan_elements fuel (join_items (map json_text l) ++ "]"%char :: rest) = Some (l, rest).
Proof.
  induction l as [|x l IH]; [congruence|].
  intros _ Hall fuel rest Hfuel.
  inversion Hall as [|x' l' [Hx Hback] Hall']; subst.
  destruct fuel as [|fuel]; [lia|].
  destruct l as [|y l].
  - simpl in *. rewrite Hback; [reflexivity | lia | reflexivity].
  - rewrite join_items_cons in Hfuel |- *.
    rewrite !length_app in Hfuel. cbn [List.length] in Hfuel.
    rewrite <- !app_assoc. cbn [app scan_elements].
    rewrite Hback; [| lia | reflexivity].
    cbn [skip_ws is_ws].
    inversion Hall' as [|y' l'' [Hy _] _]; subst.
    destruct (join_items_head y l Hy) as (c & t & Hc & Hv).
    assert (Hskip : skip_ws (join_items (map json_text (y :: l)) ++ "]"%char :: rest)
                    = join_items (map json_text (y :: l)) ++ "]"%char :: rest).
    { rewrite Hc. simpl app. now apply skip_ws_value_head. }
    rewrite Hskip, IH; [reflexivity | congruence | exact Hall' | lia].
Qed.

Lemma join_members_head (f : PyValue * PyValue -> list ascii) kv l :
  (exists t, f kv = quote_char :: t) ->
  exists t, join_items (map f (kv :: l)) = quote_char :: t.
Proof.
  intros [t Ht]. simpl. rewrite Ht. destruct (map f l); simpl; eauto.
Qed.

Lemma member_text_head k t : exists t', member_text k t = quote_char :: t'.
Proof. unfold member_text, quoted. simpl. eauto. Qed.

Lemma member_text_str s t :
  member_text (PStr s) t
  = quote_char :: escape_chars (list_ascii_of_string s)
      ++ quote_char :: ":"%char :: " "%char :: t.
Proof. unfold member_text, quoted. cbn [key_str app]. now rewrite <- app_assoc. Qed.

Lemma scan_members_text items :
  items <> [] ->
  Forall (fun kv => (exists s, fst kv = PStr s)
                    /\ json_native (snd kv) = true /\ scans_back (snd kv)) items ->
  forall fuel rest,
    (List.length (join_items (map (fun kv => member_text (fst kv) (json_text (snd kv)))
                                  items)) < fuel)%nat ->
    scan_members fuel
      (join_items (map (fun kv => member_text (fst kv) (json_text (snd kv))) items)
         ++ "}"%char :: rest)
    = Some (map (fun kv => (item_key kv, snd kv)) items, rest).
Proof.
  induction items as [|[k v] items IH]; [congruence|].
  intros _ Hall fuel rest Hfuel.
  inversion Hall as [|kv' l' [[s Hs] [Hv Hback]] Hall']; subst.
  simpl in Hs; subst k.
  destruct fuel as [|fuel]; [lia|].
  destruct (json_text_head v Hv) as (c & t & Hc & Hhead).
  assert (Hskipv : forall tail, skip_ws (json_text v ++ tail) = json_text v ++ tail).
  { intros tail. rewrite Hc. simpl app. now apply skip_ws_value_head. }
  destruct items as [|kv2 items].
  - cbn [map join_items fst snd] in *.
    rewrite member_text_str in Hfuel |- *.
    cbn [List.length] in Hfuel. rewrite !length_app in Hfuel. cbn [List.length] in Hfuel.
    cbn [app scan_members].
    rewrite <- ?app_assoc. cbn [app].
    rewrite scanstring_text. cbn [skip_ws is_ws].
    rewrite Hskipv, Hback; [| lia | reflexivity].
    cbn [skip_ws is_ws]. unfold item_key. cbn [fst snd].
    now rewrite string_of_list_ascii_of_string.
  - rewrite join_items_cons in Hfuel |- *. cbn [fst snd] in *.
    rewrite member_text_str in Hfuel |- *.
    rewrite !length_app in Hfuel.
    cbn [List.length] in Hfuel. rewrite !length_app in Hfuel. cbn [List.length] in Hfuel.
    cbn [app scan_members].
    rewrite <- ?app_assoc. cbn [app].
    rewrite scanstring_text. cbn [skip_ws is_ws].
    rewrite <- ?app_assoc. cbn [app].
    rewrite Hskipv, Hback; [| lia | reflexivity].
    cbn [skip_ws is_ws].
    destruct (join_members_head
                (fun kv => member_text (fst kv) (json_text (snd kv))) kv2 items
                (member_text_head _ _)) as [t' Ht'].
    assert (Hskip : forall tail,
               skip_ws (join_items (map (fun kv => member_text (fst kv) (json_text (snd kv)))
                                        (kv2 :: items)) ++ tail)
               = join_items (map (fun kv => member_text (fst kv) (json_text (snd kv)))
                                 (kv2 :: items)) ++ tail).
    { intros tail. rewrite Ht'. reflexivity. }
    rewrite Hskip, IH; [| congruence | exact Hall' | lia].
    unfold item_key at 1. cbn [fst snd map].
    now rewrite string_of_list_ascii_of_string.
Qed.

Lemma scan_once_array fuel c t :
  value_head c = true ->
  scan_once (S fuel) ("["%char :: c :: t) =
    match scan_elements fuel (c :: t) with
    | Some (vs, rest) => Some (PList vs, rest)
    | None => None
    end.
Proof.
  destruct c as [[] [] [] [] [] [] [] []]; intros H; try discriminate H; reflexivity.
Qed.

Lemma scan_once_object fuel t :
  scan_once (S fuel) ("{"%char :: quote_char :: t) =
    match scan_members fuel (quote_char :: t) with
    | Some (pairs, rest) => Some (PDict (dict_of_pairs pairs), rest)
    | None => None
    end.
Proof. reflexivity. Qed.

Lemma distinct_app_fresh a k b :
  distinct (a ++ k :: b) = true -> existsb (String.eqb k) a = false.
Proof.
  induction a as [|x a IH]; [reflexivity|].
  cbn [app distinct existsb]. rewrite andb_true_iff, negb_true_iff, existsb_app.
  cbn [existsb]. intros [Hx Ha].
  apply orb_false_iff in Hx as [_ Hx]. apply orb_false_iff in Hx as [Hx _].
  rewrite String.eqb_sym, Hx. now apply IH.
Qed.

Lemma dict_set_fresh k x acc :
  Forall (fun kv => exists s, fst kv = PStr s) acc ->
  existsb (String.eqb k) (map item_key acc) = false ->
  dict_set k x acc = acc ++ [(PStr k, x)].
Proof.
  induction acc as [|[k' x'] acc IH]; [reflexivity|].
  intros Hall Hfresh.
  inversion Hall as [|kv l [s Hs] Hall']; subst. simpl in Hs; subst k'.
  cbn [map existsb item_key fst] in Hfresh.
  apply orb_false_iff in Hfresh as [Hk Hfresh].
  cbn [dict_set app]. rewrite String.eqb_sym, Hk.
  now rewrite IH.
Qed.

Lemma dict_of_pairs_distinct items :
  forall acc,
    Forall (fun kv => exists s, fst kv = PStr s) items ->
    Forall (fun kv => exists s, fst kv = PStr s) acc ->
    distinct (map item_key acc ++ map item_key items) = true ->
    fold_left (fun d kv => dict_set (fst kv) (snd kv) d)
              (map (fun kv => (item_key kv, snd kv)) items) acc
    = acc ++ items.
Proof.
  induction items as [|[k x] items IH]; intros acc Hitems Hacc Hd.
  - simpl. now rewrite app_nil_r.
  - inversion Hitems as [|kv l [s Hs] Hitems']; subst. simpl in Hs; subst k.
    cbn [map fold_left fst snd item_key] in *.
    rewrite dict_set_fresh; [| exact Hacc | now apply distinct_app_fresh in Hd].
    rewrite IH.
    + now rewrite <- app_assoc.
    + exact Hitems'.
    + apply Forall_app. split; [exact Hacc|]. constructor; [|constructor]. now exists s.
    + rewrite map_app, <- app_assoc. exact Hd.
Qed.

(** The scanner reads back what the encoder wrote, on every value
    [json.loads] can produce. *)
Theorem scan_once_json_text v : json_native v = true -> scans_back v.
Proof.
  induction v as [| b | z | s | l IH | l IH | items IH | r] using PyValue_nested_ind;
    intros Hnat; try discriminate Hnat; intros fuel rest Hfuel Hrest.
  - destruct fuel; [cbn in Hfuel; lia | reflexivity].
  - destruct fuel; [destruct b; cbn in Hfuel; lia | destruct b; reflexivity].
  - destruct (int_text_head z) as (c & t & Hc & Hhead).
    destruct fuel; [cbn in Hfuel; rewrite Hc in Hfuel; cbn in Hfuel; lia|].
    cbn [json_text]. rewrite Hc. cbn [app].
    rewrite scan_once_number by exact Hhead.
    change (c :: t ++ rest) with ((c :: t) ++ rest). rewrite <- Hc.
    now apply scan_number_text.
  - destruct fuel; [cbn in Hfuel; lia|].
    cbn [json_text]. unfold quoted. cbn [app]. rewrite <- app_assoc. cbn [app scan_once].
    rewrite scanstring_text. now rewrite string_of_list_ascii_of_string.
  - cbn [json_native] in Hnat.
    assert (Hall : Forall (fun x => json_native x = true /\ scans_back x) l).
    { rewrite forallb_forall in Hnat. rewrite List.Forall_forall in IH |- *.
      intros x Hx. split; [now apply Hnat | apply IH; [exact Hx | now apply Hnat]]. }
    destruct fuel; [cbn in Hfuel; lia|].
    cbn [json_text] in *. cbn [app]. rewrite <- app_assoc. cbn [app].
    destruct l as [|x l]; [reflexivity|].
    inversion Hall as [|x' l' [Hx _] _]; subst.
    destruct (join_items_head x l Hx) as (c & t & Hc & Hhead).
    rewrite Hc. cbn [app]. rewrite scan_once_array by exact Hhead.
    change (c :: t ++ "]"%char :: rest) with ((c :: t) ++ "]"%char :: rest).
    rewrite <- Hc, scan_elements_text; [reflexivity | congruence | exact Hall |].
    cbn [List.length] in Hfuel. rewrite length_app in Hfuel.
    cbn [List.length] in Hfuel. lia.
  - cbn [json_native] in Hnat. apply andb_true_iff in Hnat as [Hnat Hdist].
    assert (Hkeys : Forall (fun kv => exists s, fst kv = PStr s) items).
    { rewrite forallb_forall in Hnat. rewrite List.Forall_forall.
      intros kv Hkv. specialize (Hnat kv Hkv).
      destruct (fst kv); try discriminate Hnat. eauto. }
    assert (Hall : Forall (fun kv => (exists s, fst kv = PStr s)
                                     /\ json_native (snd kv) = true
                                     /\ scans_back (snd kv)) items).
    { rewrite forallb_forall in Hnat. rewrite List.Forall_forall in IH, Hkeys |- *.
      intros kv Hkv. specialize (Hnat kv Hkv). destruct (Hkeys kv Hkv) as [s Hs].
      rewrite Hs in Hnat. split; [eauto|]. split; [exact Hnat|].
      now apply (IH kv Hkv). }
    destruct fuel; [cbn in Hfuel; lia|].
    cbn [json_text] in *. cbn [app]. rewrite <- app_assoc. cbn [app].
    destruct items as [|kv items]; [reflexivity|].
    destruct (join_members_head
                (fun kv => member_text (fst kv) (json_text (snd kv))) kv items
                (member_text_head _ _)) as [t Ht].
    rewrite Ht. cbn [app]. rewrite scan_once_object.
    change (quote_char :: t ++ "}"%char :: rest)
      with ((quote_char :: t) ++ "}"%char :: rest).
    rewrite <- Ht, scan_members_text; [| congruence | exact Hall |].
    + unfold dict_of_pairs.
      rewrite (dict_of_pairs_distinct (kv :: items) []); [reflexivity | exact Hkeys | constructor | exact Hdist].
    + cbn [List.length] in Hfuel. rewrite length_app in Hfuel.
      cbn [List.length] in Hfuel. lia.
Qed.

Lemma json_native_serializable v : json_native v = true -> json_serializable v = true.
Proof.
  induction v as [| b | z | s | l IH | l IH | items IH | r] using PyValue_nested_ind;
    intros Hnat; try discriminate Hnat; try reflexivity.
  - cbn [json_native json_serializable] in *.
    rewrite forallb_forall in Hnat |- *. rewrite List.Forall_forall in IH.
    intros x Hx. apply IH; [exact Hx | now apply Hnat].
  - cbn [json_native json_serializable] in *.
    apply andb_true_iff in Hnat as [Hnat _].
    rewrite forallb_forall in Hnat |- *. rewrite List.Forall_forall in IH.
    intros kv Hkv. specialize (Hnat kv Hkv).
    destruct (fst kv) eqn:Hk; try discriminate Hnat.
    cbn [key_str]. now apply (IH kv Hkv).
Qed.

(** [json.loads(json.dumps(v))] is [v] on every value [json.loads] can
    produce. *)
Theorem json_loads_dumps v text :
  json_native v = true -> json_dumps v = Some text -> json_loads text = Some v.
Proof.
  intros Hnat Hdumps. unfold json_dumps in Hdumps.
  rewrite (json_native_serializable v Hnat) in Hdumps.
  injection Hdumps as <-.
  unfold json_loads. rewrite list_ascii_of_string_of_list_ascii.
  destruct (json_text_head v Hnat) as (c & t & Hc & Hhead).
  assert (Hskip : skip_ws (json_text v) = json_text v).
  { rewrite Hc. now apply skip_ws_value_head. }
  rewrite Hskip.
  pose proof (scan_once_json_text v Hnat (S (List.length (json_text v))) []) as Hscan.
  rewrite app_nil_r in Hscan. rewrite Hscan; [reflexivity | lia | exact I].
Qed.

Lemma json_dumps_native v :
  json_native v = true -> json_dumps v = Some (string_of_list_ascii (json_text v)).
Proof.
  intros Hnat. unfold json_dumps. now rewrite (json_native_serializable v Hnat).
Qed.

(** *** What the scanner returns can be encoded again *)

Lemma scan_once_other fuel c s :
  dispatch c = false -> scan_once (S fuel) (c :: s) = scan_number (c :: s).
Proof.
  destruct c as [[] [] [] [] [] [] [] []]; intros H; try discriminate H; reflexivity.
Qed.

Lemma dispatch_cases c :
  dispatch c = true ->
  c = quote_char \/ c = "{"%char \/ c = "["%char
  \/ c = "n"%char \/ c = "t"%char \/ c = "f"%char.
Proof.
  unfold dispatch. rewrite !orb_true_iff, !Ascii.eqb_eq. tauto.
Qed.

Lemma scan_number_int s v r : scan_number s = Some (v, r) -> exists z, v = PInt z.
Proof.
  unfold scan_number. intros H.
  destruct s as [|c s]; [discriminate H|].
  destruct (Ascii.eqb c "-"%char) eqn:Hc.
  - apply Ascii.eqb_eq in Hc; subst c.
    destruct (scan_unsigned s) as [[d rest]|]; [|discriminate H].
    injection H as <- _. eauto.
  - assert (Hs : match scan_unsigned (c :: s) with
                 | Some (d, rest) => Some (PInt (int_of_digits false d), rest)
                 | None => None
                 end = Some (v, r)).
    { revert H Hc. destruct c as [[] [] [] [] [] [] [] []]; intros H Hc;
        try discriminate Hc; exact H. }
    destruct (scan_unsigned (c :: s)) as [[d rest]|]; [|discriminate Hs].
    injection Hs as <- _. eauto.
Qed.

Lemma dict_set_plain k x items :
  plain_items items = true -> json_serializable x = true ->
  plain_items (dict_set k x items) = true.
Proof.
  intros Hitems Hx. induction items as [|[k' x'] items IH]; simpl.
  - now rewrite Hx.
  - unfold plain_items in Hitems. cbn [forallb fst snd] in Hitems.
    apply andb_true_iff in Hitems as [Hhead Htail].
    destruct k'; try discriminate Hhead.
    destruct (String.eqb s k); unfold plain_items; cbn [forallb fst snd].
    + now rewrite Hx.
    + rewrite Hhead. now apply IH.
Qed.

Lemma dict_of_pairs_plain pairs :
  forallb (fun kv => json_serializable (snd kv)) pairs = true ->
  plain_items (dict_of_pairs pairs) = true.
Proof.
  unfold dict_of_pairs.
  assert (H : forall acc,
             plain_items acc = true ->
             forallb (fun kv : string * PyValue => json_serializable (snd kv)) pairs = true ->
             plain_items (fold_left (fun items kv => dict_set (fst kv) (snd kv) items)
                                    pairs acc) = true).
  { induction pairs as [|[k x] pairs IH]; intros acc Hacc Hall; [exact Hacc|].
    cbn [forallb snd] in Hall. apply andb_true_iff in Hall as [Hx Hall].
    cbn [fold_left fst snd]. apply IH; [now apply dict_set_plain | exact Hall]. }
  now apply H.
Qed.

Lemma plain_items_serializable items :
  plain_items items = true -> json_serializable (PDict items) = true.
Proof.
  unfold plain_items. cbn [json_serializable]. rewrite !forallb_forall.
  intros H kv Hkv. specialize (H kv Hkv).
  destruct (fst kv); try discriminate H. exact H.
Qed.

Lemma scan_serializable fuel :
  (forall s v r, scan_once fuel s = Some (v, r) -> json_serializable v = true)
  /\ (forall s vs r, scan_elements fuel s = Some (vs, r) ->
                     forallb json_serializable vs = true)
  /\ (forall s ps r, scan_members fuel s = Some (ps, r) ->
                     forallb (fun kv : string * PyValue => json_serializable (snd kv)) ps
                     = true).
Proof.
  induction fuel as [|fuel (IHv & IHe & IHm)];
    [repeat split; intros; discriminate|].
  split; [|split].
  - intros s v r H.
    destruct s as [|c s]; [discriminate H|].
    destruct (dispatch c) eqn:Hd.
    + apply dispatch_cases in Hd.
      destruct Hd as [-> | [-> | [-> | [-> | [-> | ->]]]]]; cbn [scan_once] in H.
      * unfold quote_char in H.
        destruct (scanstring s) as [[cs rest]|]; [|discriminate H].
        injection H as <- _. reflexivity.
      * destruct (skip_ws s) as [|c' s'] eqn:Hs.
        -- destruct (scan_members fuel []) as [[ps rest]|] eqn:Hm; [|discriminate H].
           injection H as <- _.
           apply plain_items_serializable, dict_of_pairs_plain. eauto.
        -- destruct (Ascii.eqb c' "}"%char) eqn:Hc.
           ++ apply Ascii.eqb_eq in Hc; subst c'. injection H as <- _. reflexivity.
           ++ assert (H' : match scan_members fuel (c' :: s') with
                           | Some (pairs, rest) => Some (PDict (dict_of_pairs pairs), rest)
                           | None => None
                           end = Some (v, r)).
              { revert H Hc. destruct c' as [[] [] [] [] [] [] [] []]; intros H Hc;
                  try discriminate Hc; exact H. }
              destruct (scan_members fuel (c' :: s')) as [[ps rest]|] eqn:Hm;
                [|discriminate H'].
              injection H' as <- _.
              apply plain_items_serializable, dict_of_pairs_plain. eauto.
      * destruct (skip_ws s) as [|c' s'] eqn:Hs.
        -- destruct (scan_elements fuel []) as [[vs rest]|] eqn:He; [|discriminate H].
           injection H as <- _. cbn [json_serializable]. eauto.
        -- destruct (Ascii.eqb c' "]"%char) eqn:Hc.
           ++ apply Ascii.eqb_eq in Hc; subst c'. injection H as <- _. reflexivity.
           ++ assert (H' : match scan_elements fuel (c' :: s') with
                           | Some (vs, rest) => Some (PList vs, rest)
                           | None => None
                           end = Some (v, r)).
              { revert H Hc. destruct c' as [[] [] [] [] [] [] [] []]; intros H Hc;
                  try discriminate Hc; exact H. }
              destruct (scan_elements fuel (c' :: s')) as [[vs rest]|] eqn:He;
                [|discriminate H'].
              injection H' as <- _. cbn [json_serializable]. eauto.
      * do 3 (destruct s as [|[[] [] [] [] [] [] [] []] s]; try discriminate H).
        injection H as <- _. reflexivity.
      * do 3 (destruct s as [|[[] [] [] [] [] [] [] []] s]; try discriminate H).
        injection H as <- _. reflexivity.
      * do 4 (destruct s as [|[[] [] [] [] [] [] [] []] s]; try discriminate H).
        injection H as <- _. reflexivity.
    + rewrite scan_once_other in H by exact Hd.
      apply scan_number_int in H as [z ->]. reflexivity.
  - intros s vs r H. cbn [scan_elements] in H.
    destruct (scan_once fuel s) as [[v r1]|] eqn:Hv; [|discriminate H].
    apply IHv in Hv.
    destruct (skip_ws r1) as [|c r2]; [discriminate H|].
    destruct (Ascii.eqb c ","%char) eqn:Hcomma.
    + apply Ascii.eqb_eq in Hcomma; subst c.
      destruct (scan_elements fuel (skip_ws r2)) as [[vs' rest]|] eqn:He; [|discriminate H].
      injection H as <- _. cbn [forallb]. rewrite Hv. eauto.
    + destruct (Ascii.eqb c "]"%char) eqn:Hclose.
      * apply Ascii.eqb_eq in Hclose; subst c.
        injection H as <- _. cbn [forallb]. now rewrite Hv.
      * exfalso. revert H Hcomma Hclose.
        destruct c as [[] [] [] [] [] [] [] []]; intros H Hcomma Hclose;
          discriminate.
  - intros s ps r H. cbn [scan_members] in H.
    destruct s as [|c s]; [discriminate H|].
    destruct (Ascii.eqb c quote_char) eqn:Hq.
    2:{ exfalso. revert H Hq.
        destruct c as [[] [] [] [] [] [] [] []]; intros H Hq; discriminate. }
    apply Ascii.eqb_eq in Hq; subst c. unfold quote_char in H.
    destruct (scanstring s) as [[k r1]|]; [|discriminate H].
    destruct (skip_ws r1) as [|c r2]; [discriminate H|].
    destruct (Ascii.eqb c ":"%char) eqn:Hcolon.
    2:{ exfalso. revert H Hcolon.
        destruct c as [[] [] [] [] [] [] [] []]; intros H Hcolon; discriminate. }
    apply Ascii.eqb_eq in Hcolon; subst c.
    destruct (scan_once fuel (skip_ws r2)) as [[v r3]|] eqn:Hv; [|discriminate H].
    apply IHv in Hv.
    destruct (skip_ws r3) as [|c r4]; [discriminate H|].
    destruct (Ascii.eqb c ","%char) eqn:Hcomma.
    + apply Ascii.eqb_eq in Hcomma; subst c.
      destruct (scan_members fuel (skip_ws r4)) as [[ps' rest]|] eqn:Hm; [|discriminate H].
      injection H as <- _. cbn [forallb snd]. rewrite Hv. eauto.
    + destruct (Ascii.eqb c "}"%char) eqn:Hclose.
      * apply Ascii.eqb_eq in Hclose; subst c.
        injection H as <- _. cbn [forallb snd]. now rewrite Hv.
      * exfalso. revert H Hcomma Hclose.
        destruct c as [[] [] [] [] [] [] [] []]; intros H Hcomma Hclose;
          discriminate.
Qed.

(** What [json.loads] returns, [json.dumps] accepts. *)
Lemma json_loads_serializable text v :
  json_loads text = Some v -> json_serializable v = true.
Proof.
  unfold json_loads. intros H.
  destruct (scan_once _ _) as [[v' rest]|] eqn:Hscan; [|discriminate H].
  destruct (skip_ws rest); [|discriminate H].
  injection H as <-.
  eapply (proj1 (scan_serializable _)); eauto.
Qed.

(** ** UTF-8 *)

Lemma decode_encode_char c tail :
  decode_chars (encode_char c ++ tail) =
    match decode_chars tail with
    | Some cs => Some (c :: cs)
    | None => None
    end.
Proof. destruct c as [[] [] [] [] [] [] [] []]; reflexivity. Qed.

Lemma decode_chars_encode cs :
  decode_chars (flat_map encode_char cs) = Some cs.
Proof.
  induction cs as [|c cs IH]; [reflexivity|].
  cbn [flat_map]. now rewrite decode_encode_char, IH.
Qed.

(** Decoding what was encoded gives the text back. *)
Lemma decode_utf8_encode text : decode_utf8 (encode_utf8 text) = Some text.
Proof.
  unfold decode_utf8, encode_utf8.
  now rewrite decode_chars_encode, string_of_list_ascii_of_string.
Qed.

(** ** The publisher of [blocking] *)
Section PublisherFacts.
Context {U : Type}.
Implicit Types (w : World U) (func : pyfun U) (self : blocking.PublishMessage).

Lemma connect_reached w :
  reaches (w_net w) = true ->
  connect w = (Ret tt, log (EvConnect true) (set_net (tl (w_net w)) w)).
Proof.
  unfold connect, log, set_net. destruct w as [u net sched ex bd qs g c tr]; simpl.
  destruct net as [|[] net]; simpl; intros H; try discriminate H; reflexivity.
Qed.

Lemma connect_unreached w :
  reaches (w_net w) = false ->
  connect w = (Raise AMQPConnectionError,
               log (EvConnect false) (set_net (tl (w_net w)) w)).
Proof.
  unfold connect. destruct (w_net w) as [|[] net]; simpl; intros H;
    try discriminate H; reflexivity.
Qed.

(** An attempt that finds the broker out of reach has called the function
    and raises the connection error. *)
Lemma wrapper_unreached self func args w v u :
  fn_call func args (w_user w) = (Ret v, u) ->
  reaches (w_net w) = false ->
  blocking.PublishMessage_wrapper self func args w
  = (Raise AMQPConnectionError,
     log (EvConnect false)
         (set_net (tl (w_net w))
                  (set_user u (log (EvCall (fn_name func) args) w)))).
Proof.
  intros Hcall Hnet.
  unfold blocking.PublishMessage_wrapper, bind, call, blocking._create_connection_and_channel.
  cbn [log w_user]. rewrite Hcall.
  rewrite connect_unreached by exact Hnet. reflexivity.
Qed.

Lemma outages_S k net :
  outages (S k) net = true -> reaches net = false /\ outages k (tl net) = true.
Proof. simpl. destruct net as [|[] net]; intros H; try discriminate H. now split. Qed.

Lemma conn_fails_outages self func args k :
  forall w u,
    outages k (w_net w) = true ->
    returns_n func args k (w_user w) = Some u ->
    conn_fails sleep (blocking.PublishMessage_wrapper self func args) k w
               (failed_attempts k func args w)
    /\ w_user (failed_attempts k func args w) = u
    /\ reaches (w_net (failed_attempts k func args w)) = true.
Proof.
  induction k as [|k IH]; intros w u Hnet Hret.
  - simpl in *. injection Hret as <-. repeat split; [constructor | exact Hnet].
  - apply outages_S in Hnet as [Hdown Hnet].
    cbn [returns_n] in Hret.
    destruct (fn_call func args (w_user w)) as [[v| |] u1] eqn:Hcall; try discriminate Hret.
    assert (Hw : failed_attempt func args w
                 = sleep (log (EvConnect false)
                              (set_net (tl (w_net w))
                                       (set_user u1 (log (EvCall (fn_name func) args) w))))).
    { unfold failed_attempt. now rewrite Hcall. }
    destruct (IH (failed_attempt func args w) u) as (Hf & Hu & Hr).
    + rewrite Hw. exact Hnet.
    + rewrite Hw. exact Hret.
    + cbn [failed_attempts]. repeat split; [| exact Hu | exact Hr].
      eapply conn_fails_S.
      * now apply (wrapper_unreached self func args w v u1).
      * reflexivity.
      * rewrite <- Hw. exact Hf.
Qed.

(** What [k] failed attempts leave: the trace of each, and the broker as
    it was. *)
Lemma failed_attempts_trace k func args :
  forall w,
    w_trace (failed_attempts k func args w)
    = w_trace w ++ concat (repeat (failed_trace (fn_name func) args) k).
Proof.
  induction k as [|k IH]; intros w; simpl.
  - now rewrite app_nil_r.
  - rewrite IH. unfold failed_attempt, failed_trace. simpl.
    now rewrite <- !app_assoc.
Qed.

Lemma failed_attempts_broker k func args :
  forall w,
    w_queues (failed_attempts k func args w) = w_queues w
    /\ w_exchanges (failed_attempts k func args w) = w_exchanges w
    /\ w_bindings (failed_attempts k func args w) = w_bindings w
    /\ w_generated (failed_attempts k func args w) = w_generated w
    /\ w_sched (failed_attempts k func args w) = w_sched w
    /\ w_connection (failed_attempts k func args w) = w_connection w.
Proof.
  induction k as [|k IH]; intros w; [now repeat split|].
  cbn [failed_attempts]. destruct (IH (failed_attempt func args w)) as (-> & -> & -> & -> & -> & ->).
  now repeat split.
Qed.

(** The call is the attempt made once the outages are over. *)
Lemma PublishMessage_call_after_outages self func args k w u :
  (k < 5)%nat ->
  outages k (w_net w) = true ->
  returns_n func args k (w_user w) = Some u ->
  blocking.PublishMessage_call self func args w
  = match blocking.PublishMessage_wrapper self func args (failed_attempts k func args w) with
    | (Raise e, w') =>
        if is_AMQPConnectionError e then
          match (4 - k)%nat with
          | O => (Raise e, w')
          | S _ => retry_internal sleep (4 - k)
                                  (blocking.PublishMessage_wrapper self func args) (sleep w')
          end
        else (Raise e, w')
    | r => r
    end.
Proof.
  intros Hk Hnet Hret.
  destruct (conn_fails_outages self func args k w u Hnet Hret) as (Hf & _ & _).
  unfold blocking.PublishMessage_call.
  replace 5%nat with (k + S (4 - k))%nat by lia.
  rewrite (retry_skips_failures sleep _ k _ _ _ Hf).
  apply retry_internal_S.
Qed.
End PublisherFacts.

(** ** The broker *)
Section BrokerFacts.
Context {U : Type}.
Implicit Types (w : World U).

Lemma queue_declare_result queue w :
  fst (queue_declare queue w) = Ret (declared_name queue w).
Proof.
  unfold queue_declare, declared_name. cbn [log w_generated].
  destruct (String.eqb queue EmptyString); cbn;
    match goal with |- context [ ?m !! ?k ] => destruct (m !! k) end; reflexivity.
Qed.

Lemma queue_declare_world queue w :
  let w' := snd (queue_declare queue w) in
  w_trace w' = w_trace w ++ [EvQueueDeclare queue]
  /\ w_user w' = w_user w /\ w_net w' = w_net w /\ w_sched w' = w_sched w
  /\ w_connection w' = w_connection w
  /\ w_exchanges w' = w_exchanges w /\ w_bindings w' = w_bindings w.
Proof.
  unfold queue_declare. cbn [log w_generated].
  destruct (String.eqb queue EmptyString); cbn;
    match goal with |- context [ ?m !! ?k ] => destruct (m !! k) end;
    cbn; repeat split; reflexivity.
Qed.

(** Declaring a queue leaves every queue's messages as they were, and the
    declared queue exists. *)
Lemma queue_declare_messages queue w q :
  messages (snd (queue_declare queue w)) q = messages w q.
Proof.
  unfold queue_declare, messages. cbn [log w_generated].
  destruct (String.eqb queue EmptyString); cbn;
    match goal with |- context [ w_queues w !! ?k ] => destruct (w_queues w !! k) eqn:Hk end;
    cbn; try reflexivity.
  - destruct (decide (generated_name (w_generated w) = q)) as [<-|Hne].
    + now rewrite lookup_insert_eq, Hk.
    + now rewrite lookup_insert_ne.
  - destruct (decide (queue = q)) as [<-|Hne].
    + now rewrite lookup_insert_eq, Hk.
    + now rewrite lookup_insert_ne.
Qed.

Lemma queue_declare_exists queue w :
  is_Some (w_queues (snd (queue_declare queue w)) !! declared_name queue w).
Proof.
  unfold queue_declare, declared_name. cbn [log w_generated].
  destruct (String.eqb queue EmptyString); cbn;
    match goal with |- context [ w_queues w !! ?k ] => destruct (w_queues w !! k) eqn:Hk end;
    cbn; rewrite ?Hk, ?lookup_insert_eq; eauto.
Qed.

Lemma basic_publish_result exchange routing_key text w :
  fst (basic_publish exchange routing_key text w) = Ret tt.
Proof. reflexivity. Qed.

Lemma basic_publish_world exchange routing_key text w :
  let w' := snd (basic_publish exchange routing_key text w) in
  w_trace w' = w_trace w ++ [EvPublish exchange routing_key (encode_utf8 text)]
  /\ w_user w' = w_user w /\ w_net w' = w_net w /\ w_sched w' = w_sched w
  /\ w_connection w' = w_connection w
  /\ w_exchanges w' = w_exchanges w /\ w_bindings w' = w_bindings w.
Proof. cbn. repeat split; reflexivity. Qed.

(** Through the default exchange the message goes to the queue named by
    the routing key, behind the messages that wait there. *)
Lemma basic_publish_default_messages routing_key text w q :
  is_Some (w_queues w !! routing_key) ->
  messages (snd (basic_publish "" routing_key text w)) q
  = if String.eqb q routing_key then messages w q ++ [encode_utf8 text] else messages w q.
Proof.
  intros [msgs Hq]. unfold basic_publish, messages, route. cbn.
  unfold enqueue. rewrite Hq.
  destruct (String.eqb_spec q routing_key) as [->|Hne].
  - now rewrite lookup_insert_eq, Hq.
  - rewrite lookup_insert_ne by congruence. reflexivity.
Qed.
End BrokerFacts.

Section PublishFacts.
Context {U : Type}.
Implicit Types (w : World U) (func : pyfun U) (self : blocking.PublishMessage).

Lemma wrapper_default_exchange self func args w v u text :
  blocking.pm_exchange self = EmptyString ->
  fn_call func args (w_user w) = (Ret v, u) ->
  reaches (w_net w) = true ->
  json_dumps v = Some text ->
  blocking.PublishMessage_wrapper self func args w
  = (Ret PNone, publish_world (blocking.pm_queue self) func args v u text w).
Proof.
  intros Hex Hcall Hnet Hdumps.
  unfold blocking.PublishMessage_wrapper, bind, call, blocking._create_connection_and_channel.
  cbn [log w_user]. rewrite Hcall.
  rewrite connect_reached by exact Hnet.
  rewrite Hex. cbn [String.eqb negb].
  match goal with
  | |- context [queue_declare ?q ?w0] =>
      rewrite (surjective_pairing (queue_declare q w0)), queue_declare_result
  end.
  unfold ret, dumps. rewrite Hdumps.
  reflexivity.
Qed.

Lemma publish_world_facts queue func args v u text w :
  let w' := publish_world queue func args v u text w in
  w_trace w' = w_trace w ++ publish_trace queue (fn_name func) args v text
  /\ w_user w' = u
  /\ w_net w' = tl (w_net w)
  /\ w_sched w' = w_sched w
  /\ w_connection w' = w_connection w
  /\ w_exchanges w' = w_exchanges w
  /\ w_bindings w' = w_bindings w.
Proof.
  unfold publish_world, publish_trace.
  match goal with
  | |- context [queue_declare ?q ?w0] =>
      destruct (queue_declare_world q w0) as (Ht & Hu & Hn & Hs & Hc & Hx & Hb)
  end.
  cbn in *. rewrite Ht, Hu, Hn, Hs, Hc, Hx, Hb.
  rewrite <- !app_assoc. now repeat split.
Qed.

(** The message is the last of its queue; the other queues keep their
    messages. *)
Lemma publish_world_messages queue func args v u text w q :
  queue <> EmptyString ->
  messages (publish_world queue func args v u text w) q
  = if String.eqb q queue then messages w q ++ [encode_utf8 text] else messages w q.
Proof.
  intros Hq. unfold publish_world.
  match goal with
  | |- context [queue_declare ?q0 ?w0] =>
      pose proof (queue_declare_exists q0 w0) as Hex;
      pose proof (queue_declare_messages q0 w0 q) as Hm
  end.
  unfold declared_name in Hex.
  destruct (String.eqb_spec queue EmptyString) as [?|_]; [contradiction|].
  rewrite basic_publish_default_messages by exact Hex.
  unfold messages in *. cbn in *. now rewrite Hm.
Qed.
End PublishFacts.

Section ExchangeFacts.
Context {U : Type}.
Implicit Types (w : World U) (func : pyfun U) (self : blocking.PublishMessage).

Lemma exchange_declare_world exchange exchange_type w :
  let w' := snd (exchange_declare exchange exchange_type w) in
  fst (exchange_declare exchange exchange_type w) = Ret tt
  /\ w_trace w' = w_trace w ++ [EvExchangeDeclare exchange exchange_type]
  /\ w_user w' = w_user w /\ w_net w' = w_net w /\ w_sched w' = w_sched w
  /\ w_connection w' = w_connection w
  /\ w_queues w' = w_queues w /\ w_generated w' = w_generated w.
Proof.
  unfold exchange_declare. cbn [log w_exchanges].
  destruct (w_exchanges w !! exchange); cbn; repeat split; reflexivity.
Qed.

Lemma queue_bind_world exchange queue w :
  let w' := snd (queue_bind exchange queue w) in
  fst (queue_bind exchange queue w) = Ret tt
  /\ w_trace w' = w_trace w ++ [EvQueueBind exchange queue]
  /\ w_user w' = w_user w /\ w_net w' = w_net w /\ w_sched w' = w_sched w
  /\ w_connection w' = w_connection w
  /\ w_queues w' = w_queues w.
Proof.
  unfold queue_bind. cbn [log w_bindings].
  destruct (existsb _ _); cbn; repeat split; reflexivity.
Qed.

Lemma wrapper_with_exchange self func args w v u :
  blocking.pm_exchange self <> EmptyString ->
  fn_call func args (w_user w) = (Ret v, u) ->
  reaches (w_net w) = true ->
  blocking.PublishMessage_wrapper self func args w
  = (Raise TypeError, exchange_world self func args u w).
Proof.
  intros Hex Hcall Hnet.
  unfold blocking.PublishMessage_wrapper, bind, call, blocking._create_connection_and_channel.
  cbn [log w_user]. rewrite Hcall.
  rewrite connect_reached by exact Hnet.
  destruct (String.eqb_spec (blocking.pm_exchange self) EmptyString) as [?|_];
    [contradiction|].
  cbn [negb].
  match goal with
  | |- context [exchange_declare ?x ?t ?w0] =>
      rewrite (surjective_pairing (exchange_declare x t w0)),
        (proj1 (exchange_declare_world x t w0))
  end.
  match goal with
  | |- context [queue_declare ?q ?w0] =>
      rewrite (surjective_pairing (queue_declare q w0)), queue_declare_result
  end.
  match goal with
  | |- context [queue_bind ?x ?q ?w0] =>
      rewrite (surjective_pairing (queue_bind x q w0)),
        (proj1 (queue_bind_world x q w0))
  end.
  reflexivity.
Qed.

Lemma exchange_world_facts self func args u w :
  let w' := exchange_world self func args u w in
  exists name,
    w_trace w' = w_trace w ++ exchange_trace self (fn_name func) args name
    /\ w_user w' = u
    /\ w_sched w' = w_sched w
    /\ w_connection w' = w_connection w
    /\ forall q, messages w' q = messages w q.
Proof.
  unfold exchange_world, exchange_trace.
  set (w1 := set_user u (log (EvCall (fn_name func) args) w)).
  set (w2 := log (EvConnect true) (set_net (tl (w_net w1)) w1)).
  set (w3 := snd (exchange_declare _ _ w2)).
  set (w4 := snd (queue_declare _ w3)).
  set (w5 := snd (queue_bind _ _ w4)).
  destruct (exchange_declare_world (blocking.pm_exchange self)
              (blocking.pm_exchange_type self) w2) as (_ & Ht3 & Hu3 & _ & Hs3 & Hc3 & Hq3 & _).
  destruct (queue_declare_world (blocking.pm_queue self) w3)
    as (Ht4 & Hu4 & _ & Hs4 & Hc4 & _ & _).
  destruct (queue_bind_world (blocking.pm_exchange self)
              (declared_name (blocking.pm_queue self) w3) w4)
    as (_ & Ht5 & Hu5 & _ & Hs5 & Hc5 & Hq5).
  fold w3 in Ht3, Hu3, Hs3, Hc3, Hq3. fold w4 in Ht4, Hu4, Hs4, Hc4.
  fold w5 in Ht5, Hu5, Hs5, Hc5, Hq5.
  exists (declared_name (blocking.pm_queue self) w3).
  cbn [log w_trace w_user w_sched w_connection].
  rewrite Ht5, Ht4, Ht3, Hu5, Hu4, Hu3, Hs5, Hs4, Hs3, Hc5, Hc4, Hc3.
  repeat split; try reflexivity.
  - unfold w2, w1. cbn. now rewrite <- !app_assoc.
  - intros q. unfold messages at 1. cbn [log w_queues]. rewrite Hq5.
    change (match w_queues w4 !! q with Some msgs => msgs | None => [] end)
      with (messages w4 q).
    unfold w4. rewrite queue_declare_messages.
    unfold messages. now rewrite Hq3.
Qed.
End ExchangeFacts.

Section PublisherResults.
Context {U : Type}.
Implicit Types (w : World U) (func : pyfun U) (self : blocking.PublishMessage).

(** Without an exchange: after [k < 5] outages the call publishes the
    text of what [func] returned on its last call. *)
Lemma PublishMessage_call_publishes self func args k w u v u' text :
  blocking.pm_exchange self = EmptyString ->
  (k < 5)%nat ->
  outages k (w_net w) = true ->
  returns_n func args k (w_user w) = Some u ->
  fn_call func args u = (Ret v, u') ->
  json_dumps v = Some text ->
  blocking.PublishMessage_call self func args w
  = (Ret PNone,
     publish_world (blocking.pm_queue self) func args v u' text
                   (failed_attempts k func args w)).
Proof.
  intros Hex Hk Hnet Hret Hcall Hdumps.
  destruct (conn_fails_outages self func args k w u Hnet Hret) as (_ & Hu & Hr).
  rewrite (PublishMessage_call_after_outages self func args k w u Hk Hnet Hret).
  rewrite (wrapper_default_exchange self func args _ v u' text Hex); auto.
  now rewrite Hu.
Qed.

(** With an exchange: after [k < 5] outages the call raises [TypeError]. *)
Lemma PublishMessage_call_exchange self func args k w u v u' :
  blocking.pm_exchange self <> EmptyString ->
  (k < 5)%nat ->
  outages k (w_net w) = true ->
  returns_n func args k (w_user w) = Some u ->
  fn_call func args u = (Ret v, u') ->
  blocking.PublishMessage_call self func args w
  = (Raise TypeError, exchange_world self func args u' (failed_attempts k func args w)).
Proof.
  intros Hex Hk Hnet Hret Hcall.
  destruct (conn_fails_outages self func args k w u Hnet Hret) as (_ & Hu & Hr).
  rewrite (PublishMessage_call_after_outages self func args k w u Hk Hnet Hret).
  rewrite (wrapper_with_exchange self func args _ v u' Hex); auto.
  now rewrite Hu.
Qed.

Lemma count_calls_app fn a b :
  count_calls fn (a ++ b) = (count_calls fn a + count_calls fn b)%nat.
Proof. unfold count_calls. now rewrite List.filter_app, length_app. Qed.

Lemma count_dumps_app a b :
  count_dumps (a ++ b) = (count_dumps a + count_dumps b)%nat.
Proof. unfold count_dumps. now rewrite List.filter_app, length_app. Qed.

Lemma count_publishes_app a b :
  count_publishes (a ++ b) = (count_publishes a + count_publishes b)%nat.
Proof. unfold count_publishes. now rewrite List.filter_app, length_app. Qed.

Lemma count_failed_traces fn args k :
  count_calls fn (concat (repeat (failed_trace fn args) k)) = k
  /\ count_dumps (concat (repeat (failed_trace fn args) k)) = 0%nat
  /\ count_publishes (concat (repeat (failed_trace fn args) k)) = 0%nat.
Proof.
  induction k as [|k (IH1 & IH2 & IH3)]; [now repeat split|].
  cbn [repeat concat].
  rewrite count_calls_app, count_dumps_app, count_publishes_app, IH1, IH2, IH3.
  unfold count_calls, count_dumps, count_publishes, failed_trace. cbn.
  rewrite String.eqb_refl. now repeat split.
Qed.
End PublisherResults.

(** Without an exchange, an attempt that reaches the broker gives what
    [func] returned to [json.dumps], once, whether it can be encoded or
    not. *)
Lemma wrapper_default_exchange_trace {U} (self : blocking.PublishMessage)
      (func : pyfun U) args (w : World U) v u :
  blocking.pm_exchange self = EmptyString ->
  fn_call func args (w_user w) = (Ret v, u) ->
  reaches (w_net w) = true ->
  let w' := snd (blocking.PublishMessage_wrapper self func args w) in
  (fst (blocking.PublishMessage_wrapper self func args w) = Ret PNone
   \/ fst (blocking.PublishMessage_wrapper self func args w) = Raise TypeError)
  /\ w_user w' = u
  /\ exists tail,
      w_trace w' = w_trace w ++ [EvCall (fn_name func) args; EvConnect true;
                                 EvQueueDeclare (blocking.pm_queue self); EvDumps v] ++ tail
      /\ count_calls (fn_name func) tail = 0%nat /\ count_dumps tail = 0%nat.
Proof.
  intros Hex Hcall Hnet.
  destruct (json_dumps v) as [text|] eqn:Hdumps.
  - rewrite (wrapper_default_exchange self func args w v u text Hex Hcall Hnet Hdumps).
    cbn [fst snd].
    destruct (publish_world_facts (blocking.pm_queue self) func args v u text w)
      as (Ht & Hu & _).
    split; [now left|]. split; [exact Hu|].
    exists [EvPublish "" (blocking.pm_queue self) (encode_utf8 text)].
    rewrite Ht. unfold publish_trace. repeat split.
  - unfold blocking.PublishMessage_wrapper, bind, call,
      blocking._create_connection_and_channel.
    cbn [log w_user]. rewrite Hcall.
    rewrite connect_reached by exact Hnet.
    rewrite Hex. cbn [String.eqb negb].
    match goal with
    | |- context [queue_declare ?q ?w0] =>
        rewrite (surjective_pairing (queue_declare q w0)), queue_declare_result;
        destruct (queue_declare_world q w0) as (Ht & Hu & _)
    end.
    unfold ret, dumps. rewrite Hdumps. cbn in *.
    split; [now right|]. split; [exact Hu|].
    exists []. rewrite Ht, <- !app_assoc. repeat split.
Qed.

(** C10, as amended.  The publisher calls the wrapped function inside the
    retried region: when the broker is out of reach [k] times, [k < 5], and
    then reached, one call of the wrapper runs the function [k + 1] times,
    its effects on the user state included.  [json.dumps] comes after the
    connection, so it runs once, on the attempt that reached the broker. *)
Theorem publisher_reruns_function {U} (self : blocking.PublishMessage)
        (func : pyfun U) (args : list PyValue) (k : nat) (w : World U) (u : U)
        (v : PyValue) (u' : U) :
  (k < 5)%nat ->
  outages k (w_net w) = true ->
  returns_n func args k (w_user w) = Some u ->
  fn_call func args u = (Ret v, u') ->
  let w' := snd (blocking.PublishMessage_call self func args w) in
  count_calls (fn_name func) (w_trace w')
    = (count_calls (fn_name func) (w_trace w) + S k)%nat
  /\ count_dumps (w_trace w') = (count_dumps (w_trace w) + 1)%nat
  /\ w_user w' = u'.
Proof.
  intros Hk Hnet Hret Hcall.
  destruct (conn_fails_outages self func args k w u Hnet Hret) as (_ & Hu & Hr).
  pose proof (failed_attempts_trace k func args w) as Htr.
  destruct (count_failed_traces (fn_name func) args k) as (Hc1 & Hc2 & _).
  destruct (string_dec (blocking.pm_exchange self) EmptyString) as [Hex|Hex].
  - rewrite <- Hu in Hcall.
    destruct (wrapper_default_exchange_trace self func args _ v u' Hex Hcall Hr)
      as (Hout & Hu' & tail & Ht & Ht1 & Ht2).
    cbv zeta.
    rewrite (PublishMessage_call_after_outages self func args k w u Hk Hnet Hret).
    destruct (blocking.PublishMessage_wrapper self func args (failed_attempts k func args w))
      as [r wf] eqn:Hw.
    cbn [fst snd] in *.
    destruct Hout as [-> | ->]; cbn [snd is_AMQPConnectionError];
      rewrite Ht, Htr, !count_calls_app, !count_dumps_app, Hc1, Hc2, Ht1, Ht2;
      unfold count_calls, count_dumps; cbn; rewrite String.eqb_refl; cbn;
      (split; [lia | split; [lia | exact Hu']]).
  - cbv zeta.
    rewrite (PublishMessage_call_exchange self func args k w u v u' Hex Hk Hnet Hret Hcall).
    cbn [snd].
    destruct (exchange_world_facts self func args u' (failed_attempts k func args w))
      as (name & Ht & Hu' & _).
    rewrite Ht, Htr, !count_calls_app, !count_dumps_app, Hc1, Hc2.
    unfold count_calls, count_dumps, exchange_trace. cbn. rewrite String.eqb_refl. cbn.
    split; [lia | split; [lia | exact Hu']].
Qed.

(** One outage: two calls of the function, the second state of the
    counter, one serialization. *)
Lemma publisher_reruns_function_witness :
  let w' := snd (blocking.PublishMessage_call (blocking.PublishMessage_default "q1")
                   (counting "f" (PInt 1)) [] (set_net [false] empty_world)) in
  count_calls "f" (w_trace w') = (0 + 2)%nat
  /\ count_dumps (w_trace w') = (0 + 1)%nat
  /\ w_user w' = 2%nat.
Proof.
  apply (publisher_reruns_function (blocking.PublishMessage_default "q1")
           (counting "f" (PInt 1)) [] 1 (set_net [false] empty_world) 1%nat (PInt 1) 2%nat).
  - lia.
  - reflexivity.
  - reflexivity.
  - reflexivity.
Defined.

(** C10 as stated fails: with one outage the function runs twice, yet the
    value is serialized once, not once per attempt. *)
Lemma publisher_serializes_once :
  count_calls "f"
    (w_trace (snd (blocking.PublishMessage_call (blocking.PublishMessage_default "q1")
                     (counting "f" (PInt 1)) [] (set_net [false] empty_world)))) = 2%nat
  /\ count_dumps
       (w_trace (snd (blocking.PublishMessage_call (blocking.PublishMessage_default "q1")
                        (counting "f" (PInt 1)) [] (set_net [false] empty_world)))) = 1%nat.
Proof. split; vm_compute; reflexivity. Qed.

(** C1, where the code departs from it.  A publisher with an exchange, a
    function that returns, the broker within reach: the call raises
    [TypeError] and publishes nothing.  What reaches [json.dumps] is the
    frame of [queue_declare], to which [result] was bound again, not what
    the function returned. *)
Theorem publisher_with_exchange_raises {U} (self : blocking.PublishMessage)
        (func : pyfun U) (args : list PyValue) (w : World U) (v : PyValue) (u : U) :
  blocking.pm_exchange self <> EmptyString ->
  fn_call func args (w_user w) = (Ret v, u) ->
  reaches (w_net w) = true ->
  exists w' name,
    blocking.PublishMessage_call self func args w = (Raise TypeError, w')
    /\ w_trace w' = w_trace w ++ exchange_trace self (fn_name func) args name
    /\ count_publishes (w_trace w') = count_publishes (w_trace w)
    /\ forall q, messages w' q = messages w q.
Proof.
  intros Hex Hcall Hnet.
  pose proof (PublishMessage_call_exchange self func args 0 w (w_user w) v u Hex) as Hrun.
  cbn [failed_attempts] in Hrun.
  destruct (exchange_world_facts self func args u w) as (name & Ht & _ & _ & _ & Hm).
  exists (exchange_world self func args u w), name.
  split; [apply Hrun; auto; lia|].
  split; [exact Ht|]. split; [|exact Hm].
  rewrite Ht, count_publishes_app. unfold count_publishes, exchange_trace. cbn. lia.
Qed.

(** The publisher of exchange [ex1] and queue [q3], with a function that
    returns [{"x": 1}]. *)
Lemma publisher_with_exchange_raises_witness :
  exists w' name,
    blocking.PublishMessage_call (blocking.mkPublishMessage "q3" "ex1" "fanout")
      (counting "f" (PDict [(PStr "x", PInt 1)])) [] empty_world
    = (Raise TypeError, w')
    /\ w_trace w'
       = w_trace empty_world
           ++ exchange_trace (blocking.mkPublishMessage "q3" "ex1" "fanout") "f" [] name
    /\ count_publishes (w_trace w') = count_publishes (w_trace empty_world)
    /\ forall q, messages w' q = messages empty_world q.
Proof.
  apply (publisher_with_exchange_raises (blocking.mkPublishMessage "q3" "ex1" "fanout")
           (counting "f" (PDict [(PStr "x", PInt 1)])) [] empty_world
           (PDict [(PStr "x", PInt 1)]) 1%nat).
  - discriminate.
  - reflexivity.
  - reflexivity.
Defined.

(** ** The consumer of [blocking] *)
Section ConsumerFacts.
Context {U : Type}.
Implicit Types (w : World U) (func : pyfun U) (self : blocking.ConsumeMessage).

Lemma send_log_returns_n args k (u : U) :
  returns_n blocking.send_log args k u
  = match args with
    | [_; _; _; _] => Some u
    | _ => match k with O => Some u | S _ => None end
    end.
Proof.
  induction k as [|k IH]; cbn [returns_n].
  - now destruct args as [|? [|? [|? [|? [|? ?]]]]].
  - destruct args as [|a [|b [|c [|d [|e l]]]]]; try reflexivity.
    cbn. exact IH.
Qed.

Lemma log_envelope_dumps channel method properties v :
  json_serializable v = true ->
  json_dumps (log_envelope channel method properties v)
  = Some (string_of_list_ascii (json_text (log_envelope channel method properties v))).
Proof.
  intros Hv. unfold json_dumps, log_envelope. cbn [json_serializable forallb fst snd key_str].
  now rewrite Hv.
Qed.

Lemma loads_decoded_ok body text v w :
  decode_utf8 body = Some text -> json_loads text = Some v ->
  loads_decoded body w = (Ret v, w).
Proof. intros Hd Hl. unfold loads_decoded. now rewrite Hd, Hl. Qed.

Lemma call_then_return func args w :
  (call func args ;;; ret PNone) w
  = (handler_outcome (fst (fn_call func args (w_user w))),
     set_user (snd (fn_call func args (w_user w))) (log (EvCall (fn_name func) args) w)).
Proof.
  unfold bind, call, ret. cbn [log w_user].
  now destruct (fn_call func args (w_user w)) as [[a|e|] u].
Qed.
End ConsumerFacts.

(** C2, as amended.  The handler of the consumer, on a delivery whose body
    is the UTF-8 text of a JSON value [v].  With logging off it calls the
    wrapped function once, with [v].  With logging on, and a broker that
    the log publisher reaches after [k < 5] outages, it first publishes the
    envelope [{channel: str, method: str, properties: str, body: v}] to the
    logging queue, through the default exchange, and then calls the wrapped
    function once, with [v].  The handler ends as the function ends. *)
Theorem handler_logs_then_calls {U} (self : blocking.ConsumeMessage) (func : pyfun U)
        (channel method properties : PyValue) (body : list byte)
        (text : string) (v : PyValue) (k : nat) (w : World U) :
  decode_utf8 body = Some text ->
  json_loads text = Some v ->
  (blocking.cm_logging self = true -> (k < 5)%nat /\ outages k (w_net w) = true) ->
  let lq := blocking.cm_logging_queue self in
  let args := [channel; method; properties; v] in
  let envelope := log_envelope channel method properties v in
  exists envelope_text w1,
    json_dumps envelope = Some envelope_text
    /\ blocking.message_handler self (blocking.PublishMessage_default lq) func
         channel method properties body w
       = (handler_outcome (fst (fn_call func [v] (w_user w))),
          set_user (snd (fn_call func [v] (w_user w)))
                   (log (EvCall (fn_name func) [v]) w1))
    /\ (blocking.cm_logging self = false -> w1 = w)
    /\ (blocking.cm_logging self = true ->
        w_trace w1 = w_trace w
                       ++ concat (repeat (failed_trace "send_log" args) k)
                       ++ publish_trace lq "send_log" args envelope envelope_text
        /\ (lq <> EmptyString ->
            messages w1 lq = messages w lq ++ [encode_utf8 envelope_text])).
Proof.
  intros Hdec Hloads Hlog lq args envelope.
  pose proof (json_loads_serializable text v Hloads) as Hser.
  pose proof (log_envelope_dumps channel method properties v Hser) as Hdumps.
  fold envelope in Hdumps.
  exists (string_of_list_ascii (json_text envelope)).
  unfold blocking.message_handler.
  unfold bind at 1. rewrite (loads_decoded_ok body text v w Hdec Hloads).
  destruct (blocking.cm_logging self) eqn:Hl.
  - destruct (Hlog eq_refl) as [Hk Hnet].
    set (wk := failed_attempts k blocking.send_log args w).
    exists (publish_world lq blocking.send_log args envelope (w_user w)
                          (string_of_list_ascii (json_text envelope)) wk).
    pose proof (PublishMessage_call_publishes
                  (blocking.PublishMessage_default lq) blocking.send_log args k w
                  (w_user w) envelope (w_user w)
                  (string_of_list_ascii (json_text envelope))
                  eq_refl Hk Hnet (send_log_returns_n args k (w_user w)) eq_refl Hdumps)
      as Hpub.
    cbn [blocking.pm_queue blocking.PublishMessage_default] in Hpub. fold wk in Hpub.
    destruct (publish_world_facts lq blocking.send_log args envelope (w_user w)
                (string_of_list_ascii (json_text envelope)) wk) as (Ht & Hu & _).
    split; [exact Hdumps|]. split; [|split; [discriminate|]].
    + unfold bind at 1. fold args. rewrite Hpub.
      rewrite call_then_return. now rewrite Hu.
    + intros _. split.
      * rewrite Ht. unfold wk. rewrite failed_attempts_trace.
        now rewrite <- app_assoc.
      * intros Hq. rewrite publish_world_messages by exact Hq.
        rewrite String.eqb_refl. unfold wk, messages.
        now rewrite (proj1 (failed_attempts_broker k blocking.send_log args w)).
  - exists w. split; [exact Hdumps|]. split; [|split; [reflexivity | discriminate]].
    unfold bind at 1, ret at 1. apply call_then_return.
Qed.

(** The default consumer of [q1], one outage before the log is published,
    a body [{"x": 1}]. *)
Lemma handler_logs_then_calls_witness :
  let self := blocking.ConsumeMessage_default "q1" in
  let func := counting "g" PNone in
  let v := PDict [(PStr "x", PInt 1)] in
  let w := set_net [false] empty_world in
  let lq := blocking.cm_logging_queue self in
  let args := [a_channel; a_method; some_properties; v] in
  let envelope := log_envelope a_channel a_method some_properties v in
  exists envelope_text w1,
    json_dumps envelope = Some envelope_text
    /\ blocking.message_handler self (blocking.PublishMessage_default lq) func
         a_channel a_method some_properties (json_body v) w
       = (handler_outcome (fst (fn_call func [v] (w_user w))),
          set_user (snd (fn_call func [v] (w_user w)))
                   (log (EvCall (fn_name func) [v]) w1))
    /\ (blocking.cm_logging self = false -> w1 = w)
    /\ (blocking.cm_logging self = true ->
        w_trace w1 = w_trace w
                       ++ concat (repeat (failed_trace "send_log" args) 1)
                       ++ publish_trace lq "send_log" args envelope envelope_text
        /\ (lq <> EmptyString ->
            messages w1 lq = messages w lq ++ [encode_utf8 envelope_text])).
Proof.
  apply (handler_logs_then_calls (blocking.ConsumeMessage_default "q1")
           (counting "g" PNone) a_channel a_method some_properties
           (json_body (PDict [(PStr "x", PInt 1)]))
           (string_of_list_ascii (json_text (PDict [(PStr "x", PInt 1)])))
           (PDict [(PStr "x", PInt 1)]) 1 (set_net [false] empty_world)).
  - vm_compute; reflexivity.
  - vm_compute; reflexivity.
  - intros _. split; [lia | reflexivity].
Defined.

(** C2 as stated fails: not every delivered message reaches the wrapped
    function.  A body that is not JSON makes the handler raise before it
    logs or calls anything; and with logging on and the broker out of
    reach for the five attempts of the log publisher, the handler raises
    the connection error, nothing is in the logging queue and the wrapped
    function has not been called. *)
Lemma handler_skips_function_on_some_deliveries :
  let self := blocking.ConsumeMessage_default "q1" in
  let log_publisher := blocking.PublishMessage_default (blocking.cm_logging_queue self) in
  let g := counting "g" PNone in
  let v := PDict [(PStr "x", PInt 1)] in
  let unreachable := set_net [false; false; false; false; false] empty_world in
  let bad := blocking.message_handler self log_publisher g
               a_channel a_method some_properties (encode_utf8 "hello") empty_world in
  let unlogged := blocking.message_handler self log_publisher g
                    a_channel a_method some_properties (json_body v) unreachable in
  bad = (Raise JSONDecodeError, empty_world)
  /\ calls_of "g" (w_trace (snd bad)) = []
  /\ fst unlogged = Raise AMQPConnectionError
  /\ calls_of "g" (w_trace (snd unlogged)) = []
  /\ w_user (snd unlogged) = 0%nat
  /\ messages (snd unlogged) "logging" = [].
Proof. vm_compute. repeat split; reflexivity. Qed.

(** ** Round trip *)

Lemma py_eq_refl v : py_eq v v = true.
Proof.
  induction v as [| b | z | s | l IH | l IH | items IH | r] using PyValue_nested_ind;
    cbn [py_eq].
  - reflexivity.
  - now destruct b.
  - apply Z.eqb_refl.
  - apply String.eqb_refl.
  - induction IH as [|x l Hx _ IHl]; [reflexivity|]. now rewrite Hx, IHl.
  - induction IH as [|x l Hx _ IHl]; [reflexivity|]. now rewrite Hx, IHl.
  - rewrite Nat.eqb_refl. cbn [andb].
    rewrite forallb_forall. intros kv Hkv. rewrite existsb_exists.
    exists kv. split; [exact Hkv|].
    rewrite List.Forall_forall in IH. destruct (IH kv Hkv) as [Hk Hx].
    now rewrite Hk, Hx.
  - apply String.eqb_refl.
Qed.

Lemma json_body_decodes {U} v (w : World U) :
  json_native v = true -> loads_decoded (json_body v) w = (Ret v, w).
Proof.
  intros Hnat. unfold json_body.
  apply (loads_decoded_ok _ (string_of_list_ascii (json_text v))).
  - apply decode_utf8_encode.
  - apply json_loads_dumps; [exact Hnat | now apply json_dumps_native].
Qed.

Lemma take_only_message {U} (w : World U) queue body :
  messages w queue = [body] ->
  take queue w = Some (body, set_queues (<[queue := []]> (w_queues w)) w).
Proof.
  unfold messages, take. destruct (w_queues w !! queue) as [msgs|]; [|discriminate].
  now intros ->.
Qed.

(** C6, as amended.  A value made of [None], booleans, ints, strings,
    lists and dicts with distinct string keys, returned by a function under
    a publisher without exchange on a named queue: once the broker is
    reached (after [k < 5] outages) its JSON text is the last message of
    the queue, the first one if the queue was empty, and a consumer that
    takes this message decodes it to the very same value and passes that
    to its function. *)
Theorem roundtrip_native {U} (func g : pyfun U) (args : list PyValue) (k : nat)
        (w : World U) (u : U) (v : PyValue) (u' : U) (queue : string)
        (consumer : blocking.ConsumeMessage) (channel method properties : PyValue) :
  json_native v = true ->
  queue <> EmptyString ->
  (k < 5)%nat ->
  outages k (w_net w) = true ->
  returns_n func args k (w_user w) = Some u ->
  fn_call func args u = (Ret v, u') ->
  exists w1,
    blocking.PublishMessage_call (blocking.PublishMessage_default queue) func args w
    = (Ret PNone, w1)
    /\ messages w1 queue = messages w queue ++ [json_body v]
    /\ (messages w queue = [] -> exists w1', take queue w1 = Some (json_body v, w1'))
    /\ forall w2,
        loads_decoded (json_body v) w2 = (Ret v, w2)
        /\ (blocking.cm_logging consumer = false ->
            blocking.message_handler consumer
              (blocking.PublishMessage_default (blocking.cm_logging_queue consumer)) g
              channel method properties (json_body v) w2
            = (handler_outcome (fst (fn_call g [v] (w_user w2))),
               set_user (snd (fn_call g [v] (w_user w2)))
                        (log (EvCall (fn_name g) [v]) w2))).
Proof.
  intros Hnat Hq Hk Hnet Hret Hcall.
  pose proof (json_dumps_native v Hnat) as Hdumps.
  set (text := string_of_list_ascii (json_text v)) in *.
  set (wk := failed_attempts k func args w).
  exists (publish_world queue func args v u' text wk).
  assert (Hmsg : messages (publish_world queue func args v u' text wk) queue
                 = messages w queue ++ [json_body v]).
  { rewrite publish_world_messages by exact Hq. rewrite String.eqb_refl.
    unfold wk, messages. now rewrite (proj1 (failed_attempts_broker k func args w)). }
  split; [|split; [exact Hmsg | split]].
  - apply (PublishMessage_call_publishes (blocking.PublishMessage_default queue)
             func args k w u v u' text eq_refl Hk Hnet Hret Hcall Hdumps).
  - intros Hempty. rewrite Hempty in Hmsg. cbn [app] in Hmsg.
    eexists. now apply take_only_message.
  - intros w2. split; [now apply json_body_decodes|].
    intros Hlog. unfold blocking.message_handler.
    unfold bind at 1. rewrite (json_body_decodes v w2 Hnat). rewrite Hlog.
    unfold bind at 1, ret at 1. apply call_then_return.
Qed.

(** Publishing [{"x": [1, null]}] to [q1] after two outages. *)
Lemma roundtrip_native_witness :
  let v := PDict [(PStr "x", PList [PInt 1; PNone])] in
  let w := set_net [false; false] empty_world in
  let consumer := blocking.mkConsumeMessage "q1" "" "" false "logging" in
  exists w1,
    blocking.PublishMessage_call (blocking.PublishMessage_default "q1")
      (counting "f" v) [] w
    = (Ret PNone, w1)
    /\ messages w1 "q1" = messages w "q1" ++ [json_body v]
    /\ (messages w "q1" = [] -> exists w1', take "q1" w1 = Some (json_body v, w1'))
    /\ forall w2,
        loads_decoded (json_body v) w2 = (Ret v, w2)
        /\ (blocking.cm_logging consumer = false ->
            blocking.message_handler consumer
              (blocking.PublishMessage_default (blocking.cm_logging_queue consumer))
              (counting "g" PNone)
              a_channel a_method some_properties (json_body v) w2
            = (handler_outcome (fst (fn_call (counting "g" PNone) [v] (w_user w2))),
               set_user (snd (fn_call (counting "g" PNone) [v] (w_user w2)))
                        (log (EvCall (fn_name (counting "g" PNone)) [v]) w2))).
Proof.
  apply (roundtrip_native (counting "f" (PDict [(PStr "x", PList [PInt 1; PNone])]))
           (counting "g" PNone) [] 2 (set_net [false; false] empty_world) 2%nat
           (PDict [(PStr "x", PList [PInt 1; PNone])]) 3%nat "q1").
  - reflexivity.
  - discriminate.
  - lia.
  - reflexivity.
  - reflexivity.
  - reflexivity.
Defined.

(** C6 as stated fails.  A tuple and a dict with an int key are
    serializable; published to [q1] and consumed from it, they reach the
    consumer's function as a list and as a dict with a string key, which
    Python does not hold equal to what was published. *)
Lemma roundtrip_changes_tuples_and_keys :
  let consumer := blocking.mkConsumeMessage "q1" "" "" false "logging" in
  let deliver := Deliver a_channel a_method some_properties in
  let received v :=
    calls_of "g"
      (w_trace
         (snd (blocking.ConsumeMessage_call consumer (counting "g" PNone) []
                 (set_sched [deliver; Interrupt]
                    (snd (blocking.PublishMessage_call (blocking.PublishMessage_default "q1")
                            (counting "f" v) [] empty_world)))))) in
  json_serializable (PTuple [PInt 1; PInt 2]) = true
  /\ received (PTuple [PInt 1; PInt 2]) = [[PList [PInt 1; PInt 2]]]
  /\ py_eq (PList [PInt 1; PInt 2]) (PTuple [PInt 1; PInt 2]) = false
  /\ json_serializable (PDict [(PInt 1, PStr "a")]) = true
  /\ received (PDict [(PInt 1, PStr "a")]) = [[PDict [(PStr "1", PStr "a")]]]
  /\ py_eq (PDict [(PStr "1", PStr "a")]) (PDict [(PInt 1, PStr "a")]) = false.
Proof. cbv zeta. repeat split; vm_compute; reflexivity. Qed.

(** ** What a consume registration surfaces *)
Section SurfacedErrors.
Context {U : Type}.
Implicit Types (w : World U) (func : pyfun U) (self : blocking.ConsumeMessage).

Lemma prepare_channel_split self func args w :
  blocking.ConsumeMessage_prepare_channel self func args w
  = (consumer_setup self ;;; consumer_listening self func) w.
Proof.
  unfold blocking.ConsumeMessage_prepare_channel, consumer_setup, consumer_listening,
    consumer_callback, bind.
  destruct (blocking._create_connection_and_channel w) as [[[]|e|] w1]; try reflexivity.
  destruct (negb (String.eqb (blocking.cm_exchange self) "")).
  - destruct (exchange_declare _ _ w1) as [[[]|e|] w2]; try reflexivity.
    destruct (queue_declare _ w2) as [[name|e|] w3]; try reflexivity.
    destruct (queue_bind _ name w3) as [[[]|e|] w4]; reflexivity.
  - destruct (queue_declare _ w1) as [[name|e|] w2]; reflexivity.
Qed.



(** A delivery with a message waiting runs the callback once on it, and
    the loop goes on when the callback returns. *)
Lemma delivery_runs_callback closed queue (callback : @on_message U)
      channel method properties rest w body w1 :
  take queue (set_sched rest w) = Some (body, w1) ->
  consume_loop closed queue callback (Deliver channel method properties :: rest) w
  = match callback channel method properties body w1 with
    | (Ret _, w2) => consume_loop closed queue callback rest w2
    | r => r
    end.
Proof. intros Htake. cbn [consume_loop]. now rewrite Htake. Qed.


(** A connection error leaves the loop only when the tries are used up. *)
Lemma retry_counted_exhausted {St} (pause : St -> St) (op : M St PyValue) tries :
  forall c s e n s',
    retry_internal (counted_pause pause) tries (counted op) (c, s) = (Raise e, (n, s')) ->
    is_AMQPConnectionError e = true ->
    n = (c + tries)%nat.
Proof.
  induction tries as [|tries IH]; intros c s e n s' H He; [discriminate H|].
  rewrite retry_internal_S in H. unfold counted at 1 in H. cbn [fst snd] in H.
  destruct (op s) as [[a|e0|] s1] eqn:Hop; try discriminate H.
  destruct (is_AMQPConnectionError e0) eqn:He0.
  - destruct tries as [|tries'].
    + inversion H; subst. lia.
    + unfold counted_pause in H. cbn [fst snd] in H.
      apply IH in H; [lia | exact He].
  - inversion H; subst. congruence.
Qed.

(** The counter changes nothing else. *)
Lemma retry_counted_result {St} (pause : St -> St) (op : M St PyValue) tries :
  forall c s,
    exists n,
      retry_internal (counted_pause pause) tries (counted op) (c, s)
      = (fst (retry_internal pause tries op s),
         (n, snd (retry_internal pause tries op s))).
Proof.
  induction tries as [|tries IH]; intros c s; [eexists; reflexivity|].
  rewrite !retry_internal_S. unfold counted at 1. cbn [fst snd].
  destruct (op s) as [[a|e|] s1]; try (eexists; reflexivity).
  destruct (is_AMQPConnectionError e); [|eexists; reflexivity].
  destruct tries as [|tries']; [eexists; reflexivity|].
  apply (IH (S c) (pause s1)).
Qed.
End SurfacedErrors.




(** ** The wrappers of [base] *)
Section BaseFacts.
Context {U : Type}.
Implicit Types (w : World U) (func : pyfun U).

Lemma check_connection_open w :
  w_connection w = Some true -> base._check_connection w = (Ret tt, w).
Proof.
  intros H. unfold base._check_connection, bind. rewrite H. cbn. now rewrite H.
Qed.

(** The check either leaves a usable connection or raises the connection
    error; it calls no function and publishes nothing. *)
Lemma check_connection_outcome w :
  (fst (base._check_connection w) = Ret tt
   \/ fst (base._check_connection w) = Raise AMQPConnectionError)
  /\ w_user (snd (base._check_connection w)) = w_user w
  /\ w_queues (snd (base._check_connection w)) = w_queues w
  /\ w_sched (snd (base._check_connection w)) = w_sched w
  /\ (exists tail, w_trace (snd (base._check_connection w)) = w_trace w ++ tail
                   /\ forall fn, calls_of fn tail = []).
Proof.
  unfold base._check_connection, base._create_global_connection, bind.
  destruct (w_connection w) as [[]|] eqn:Hc.
  - cbn. rewrite Hc. cbn. repeat split; auto.
    exists []. split; [now rewrite app_nil_r | reflexivity].
  - cbn. rewrite Hc.
    destruct (reaches (w_net w)) eqn:Hn.
    + rewrite connect_reached by exact Hn. cbn. repeat split; auto.
      exists [EvConnect true]. split; reflexivity.
    + rewrite connect_unreached by exact Hn. cbn. repeat split; auto.
      exists [EvConnect false]. split; reflexivity.
  - destruct (reaches (w_net w)) eqn:Hn.
    + rewrite connect_reached by exact Hn. cbn. repeat split; auto.
      exists [EvConnect true]. split; reflexivity.
    + rewrite connect_unreached by exact Hn. cbn. repeat split; auto.
      exists [EvConnect false]. split; reflexivity.
Qed.

Lemma take_messages queue w :
  take queue w
  = match messages w queue with
    | body :: msgs => Some (body, set_queues (<[queue := msgs]> (w_queues w)) w)
    | [] => None
    end.
Proof.
  unfold take, messages. now destruct (w_queues w !! queue) as [[|body msgs]|].
Qed.

Lemma fetch_world_facts consume_queue w :
  w_trace (fetch_world consume_queue w)
  = w_trace (snd (base._check_connection w)) ++ [EvQueueDeclare consume_queue;
                                                  EvGet consume_queue]
  /\ w_user (fetch_world consume_queue w) = w_user w
  /\ messages (fetch_world consume_queue w) consume_queue = tl (messages w consume_queue).
Proof.
  unfold fetch_world.
  destruct (check_connection_outcome w) as (_ & Hu & Hq & _).
  set (w1 := snd (base._check_connection w)) in *.
  destruct (queue_declare_world consume_queue w1) as (Ht & Hu2 & _).
  pose proof (queue_declare_messages consume_queue w1 consume_queue) as Hm.
  set (w2 := snd (queue_declare consume_queue w1)) in *.
  assert (Hm1 : messages w1 consume_queue = messages w consume_queue).
  { unfold messages. now rewrite Hq. }
  unfold basic_get. rewrite take_messages. cbn [log].
  change (messages (log (EvGet consume_queue) w2) consume_queue)
    with (messages w2 consume_queue).
  rewrite Hm, Hm1.
  destruct (messages w consume_queue) as [|body msgs]; cbn.
  - rewrite Ht, Hu2, Hu, <- app_assoc. repeat split.
    change (messages w2 consume_queue = []). now rewrite Hm, Hm1.
  - rewrite Ht, Hu2, Hu, <- app_assoc. repeat split.
    unfold messages. cbn. now rewrite lookup_insert_eq.
Qed.
End BaseFacts.

Section Keeps.
Context {U : Type} (ok : event -> bool).
Implicit Types (w : World U).

Lemma grows_by_refl w : grows_by ok w w.
Proof. exists []. split; [now rewrite app_nil_r | reflexivity]. Qed.

Lemma grows_by_trans w1 w2 w3 :
  grows_by ok w1 w2 -> grows_by ok w2 w3 -> grows_by ok w1 w3.
Proof.
  intros (t1 & H1 & Hok1) (t2 & H2 & Hok2). exists (t1 ++ t2).
  split; [now rewrite H2, H1, <- app_assoc | now rewrite forallb_app, Hok1, Hok2].
Qed.

Lemma grows_by_log e w : ok e = true -> grows_by ok w (log e w).
Proof. intros He. exists [e]. split; [reflexivity | cbn; now rewrite He]. Qed.

Lemma keeps_ret {A} (a : A) : keeps (U := U) ok (ret a).
Proof. intros w. apply grows_by_refl. Qed.

Lemma keeps_raise {A} e : keeps (U := U) (A := A) ok (raise e).
Proof. intros w. apply grows_by_refl. Qed.

Lemma keeps_bind {A B} (c : M (World U) A) (k : A -> M (World U) B) :
  keeps ok c -> (forall a, keeps ok (k a)) -> keeps ok (bind c k).
Proof.
  intros Hc Hk w. unfold bind. specialize (Hc w).
  destruct (c w) as [[a|e|] w1]; cbn [snd] in *; try exact Hc.
  eapply grows_by_trans; [exact Hc | apply Hk].
Qed.

Lemma keeps_call (f : pyfun U) args :
  ok (EvCall (fn_name f) args) = true -> keeps ok (call f args).
Proof.
  intros He w. unfold call. cbn [log w_user].
  destruct (fn_call f args (w_user w)) as [r u]. cbn [snd].
  exists [EvCall (fn_name f) args]. split; [reflexivity | cbn; now rewrite He].
Qed.

Lemma keeps_dumps v : ok (EvDumps v) = true -> keeps (U := U) ok (dumps v).
Proof.
  intros He w. unfold dumps.
  destruct (json_dumps v); cbn [snd]; now apply grows_by_log.
Qed.

Lemma keeps_loads_bytes body : keeps (U := U) ok (loads_bytes body).
Proof.
  assert (H : forall b, keeps (U := U) ok (loads_decoded b)).
  { intros b w. unfold loads_decoded.
    destruct (decode_utf8 b) as [text|]; [|apply grows_by_refl].
    destruct (json_loads text); apply grows_by_refl. }
  unfold loads_bytes.
  destruct body as [|b0 [|b1 [|b2 body]]]; try apply H.
  destruct (Byte.eqb b0 xef && Byte.eqb b1 xbb && Byte.eqb b2 xbf); apply H.
Qed.

Lemma keeps_connect :
  (forall b, ok (EvConnect b) = true) -> keeps (U := U) ok connect.
Proof.
  intros He w.
  destruct (reaches (w_net w)) eqn:Hn;
    [rewrite connect_reached by exact Hn | rewrite connect_unreached by exact Hn];
    cbn [snd].
  - exists [EvConnect true]. split; [reflexivity | cbn; now rewrite He].
  - exists [EvConnect false]. split; [reflexivity | cbn; now rewrite He].
Qed.

Lemma keeps_create_global_connection :
  (forall b, ok (EvConnect b) = true) ->
  keeps (U := U) ok base._create_global_connection.
Proof.
  intros He. unfold base._create_global_connection.
  apply keeps_bind; [now apply keeps_connect|].
  intros _ w. cbn [snd]. exists []. split; [cbn; now rewrite app_nil_r | reflexivity].
Qed.

Lemma keeps_check_connection :
  (forall b, ok (EvConnect b) = true) -> keeps (U := U) ok base._check_connection.
Proof.
  intros He. unfold base._check_connection.
  apply keeps_bind.
  - intros w. destruct (w_connection w);
      [apply grows_by_refl | now apply keeps_create_global_connection].
  - intros _ w. destruct (w_connection w) as [[]|];
      try apply grows_by_refl. now apply keeps_create_global_connection.
Qed.

Lemma keeps_queue_declare queue :
  ok (EvQueueDeclare queue) = true -> keeps (U := U) ok (queue_declare queue).
Proof.
  intros He w. destruct (queue_declare_world queue w) as (Ht & _).
  exists [EvQueueDeclare queue]. split; [exact Ht | cbn; now rewrite He].
Qed.

Lemma keeps_queue_declare_obj queue :
  (forall q, ok (EvQueueDeclare q) = true) -> keeps (U := U) ok (queue_declare_obj queue).
Proof.
  intros He. destruct queue; try apply keeps_raise. now apply keeps_queue_declare.
Qed.

Lemma keeps_basic_publish exchange routing_key text :
  ok (EvPublish exchange routing_key (encode_utf8 text)) = true ->
  keeps (U := U) ok (basic_publish exchange routing_key text).
Proof.
  intros He w. exists [EvPublish exchange routing_key (encode_utf8 text)].
  split; [reflexivity | cbn; now rewrite He].
Qed.
End Keeps.

(** The handler of the one-shot consumer fetches nothing. *)
Lemma base_handler_fetches_nothing {U} publish_queues exchange (func : pyfun U)
      channel method properties body :
  keeps not_a_fetch
        (base.message_handler publish_queues exchange func channel method properties body).
Proof.
  unfold base.message_handler.
  destruct (py_truthy publish_queues); [|apply keeps_ret].
  apply keeps_bind; [apply keeps_loads_bytes|]. intros message.
  unfold base.publish_message.
  apply keeps_bind; [now apply keeps_call|]. intros result.
  apply keeps_bind; [now apply keeps_check_connection|]. intros _.
  apply keeps_bind; [now apply keeps_queue_declare_obj|]. intros name.
  apply keeps_bind; [now apply keeps_dumps|]. intros text.
  apply keeps_bind; [now apply keeps_basic_publish|]. intros _.
  apply keeps_ret.
Qed.

Lemma calls_of_app fn a b : calls_of fn (a ++ b) = calls_of fn a ++ calls_of fn b.
Proof. unfold calls_of. apply flat_map_app. Qed.

(** The one-shot consumer, once the connection check has passed: what it
    does is decided by the oldest message of the queue. *)
Lemma one_shot_run {U} consume_queue publish_queues exchange (func : pyfun U)
      (w : World U) :
  fst (base._check_connection w) = Ret tt ->
  base.consume_message consume_queue publish_queues exchange false func [] w
  = match messages w consume_queue with
    | (b :: bs) :: _ =>
        (base.message_handler publish_queues exchange func PNone PNone PNone (b :: bs) ;;;
         ret PNone) (fetch_world consume_queue w)
    | _ => (Ret PNone, fetch_world consume_queue w)
    end.
Proof.
  intros Hcheck.
  destruct (check_connection_outcome w) as (_ & _ & Hq & _).
  pose proof (queue_declare_messages consume_queue (snd (base._check_connection w))
                consume_queue) as Hm.
  assert (Hm2 : messages (log (EvGet consume_queue)
                            (snd (queue_declare consume_queue
                                    (snd (base._check_connection w))))) consume_queue
                = messages w consume_queue).
  { unfold messages in *. cbn [log w_queues]. rewrite Hm. now rewrite Hq. }
  assert (Hget : basic_get consume_queue
                   (snd (queue_declare consume_queue (snd (base._check_connection w))))
                 = (Ret (match messages w consume_queue with
                         | body :: _ => Some body
                         | [] => None
                         end), fetch_world consume_queue w)).
  { unfold fetch_world, basic_get. rewrite take_messages, Hm2.
    now destruct (messages w consume_queue). }
  unfold base.consume_message.
  unfold bind at 1.
  destruct (base._check_connection w) as [r1 w1]. cbn [fst snd] in *. subst r1.
  unfold bind at 1.
  rewrite (surjective_pairing (queue_declare consume_queue w1)), queue_declare_result.
  unfold bind at 1. rewrite Hget.
  destruct (messages w consume_queue) as [|[|b bs] msgs]; reflexivity.
Qed.

(** It fetches once. *)
Lemma one_shot_fetches_once {U} consume_queue publish_queues exchange (func : pyfun U)
      (w : World U) :
  fst (base._check_connection w) = Ret tt ->
  exists before after,
    w_trace (snd (base.consume_message consume_queue publish_queues exchange false
                    func [] w))
    = w_trace w ++ before ++ [EvGet consume_queue] ++ after
    /\ forallb not_a_fetch before = true /\ forallb not_a_fetch after = true.
Proof.
  intros Hcheck.
  destruct (fetch_world_facts consume_queue w) as (Htrace & _ & _).
  destruct (keeps_check_connection not_a_fetch (fun _ => eq_refl) w) as (t0 & Ht0 & Hok0).
  exists (t0 ++ [EvQueueDeclare consume_queue]).
  assert (Hgrow : grows_by not_a_fetch (fetch_world consume_queue w)
                    (snd (base.consume_message consume_queue publish_queues exchange
                            false func [] w))).
  { rewrite one_shot_run by exact Hcheck.
    destruct (messages w consume_queue) as [|[|b bs] msgs]; try apply grows_by_refl.
    apply (keeps_bind not_a_fetch); [apply base_handler_fetches_nothing|].
    intros a. apply keeps_ret. }
  destruct Hgrow as (after & Hafter & Hok).
  exists after. rewrite Hafter, Htrace, Ht0, <- !app_assoc. cbn [app].
  repeat split; [|exact Hok].
  rewrite forallb_app, Hok0. reflexivity.
Qed.

(** C7, as amended.  A consume registration of [base] with
    [production_ready] false, once the connection check has passed, makes
    exactly one fetch.  When the queue holds a message whose body is not
    empty, the message is taken, the handler runs once on its body and the
    call ends as the handler ends.  When the queue is empty, or the
    message taken has an empty body, the call returns and the wrapped
    function is never called. *)
Theorem one_shot_fetch {U} (consume_queue : string) (publish_queues : PyValue)
        (exchange : string) (func : pyfun U) (w : World U) :
  fst (base._check_connection w) = Ret tt ->
  let run := base.consume_message consume_queue publish_queues exchange false func [] w in
  run = match messages w consume_queue with
        | (b :: bs) :: _ =>
            (base.message_handler publish_queues exchange func PNone PNone PNone (b :: bs) ;;;
             ret PNone) (fetch_world consume_queue w)
        | _ => (Ret PNone, fetch_world consume_queue w)
        end
  /\ messages (fetch_world consume_queue w) consume_queue = tl (messages w consume_queue)
  /\ (exists before after,
         w_trace (snd run) = w_trace w ++ before ++ [EvGet consume_queue] ++ after
         /\ forallb not_a_fetch before = true /\ forallb not_a_fetch after = true)
  /\ (match messages w consume_queue with
      | (b :: bs) :: _ => True
      | _ => fst run = Ret PNone
             /\ forall fn, calls_of fn (w_trace (snd run)) = calls_of fn (w_trace w)
      end).
Proof.
  intros Hcheck run.
  destruct (fetch_world_facts consume_queue w) as (Htrace & Huser & Hmsgs).
  pose proof (one_shot_run consume_queue publish_queues exchange func w Hcheck) as Hrun.
  fold run in Hrun.
  split; [exact Hrun|]. split; [exact Hmsgs|].
  split; [now apply one_shot_fetches_once|].
  destruct (check_connection_outcome w) as (_ & _ & _ & _ & tail & Htail & Hcalls).
  assert (Hquiet : forall fn, calls_of fn (w_trace (fetch_world consume_queue w))
                              = calls_of fn (w_trace w)).
  { intros fn. rewrite Htrace, Htail, !calls_of_app, Hcalls. cbn.
    now rewrite !app_nil_r. }
  destruct (messages w consume_queue) as [|[|b bs] msgs]; try exact I;
    rewrite Hrun; split; auto.
Qed.

(** A message [{"x": 1}] waits in [q1]; the consumer forwards what its
    function returns to [q2]. *)
Lemma one_shot_fetch_witness :
  let run := base.consume_message "q1" (PStr "q2") "" false
               (counting "g" (PDict [(PStr "y", PInt 2)])) [] world_with_message in
  fst run = Ret PNone
  /\ calls_of "g" (w_trace (snd run)) = [[PDict [(PStr "x", PInt 1)]]]
  /\ messages (snd run) "q1" = []
  /\ messages (snd run) "q2" = [json_body (PDict [(PStr "y", PInt 2)])].
Proof.
  assert (Hcheck : fst (base._check_connection world_with_message) = Ret tt)
    by (vm_compute; reflexivity).
  destruct (one_shot_fetch "q1" (PStr "q2") ""
              (counting "g" (PDict [(PStr "y", PInt 2)])) world_with_message Hcheck)
    as (Hrun & _).
  cbv zeta. rewrite Hrun. repeat split; vm_compute; reflexivity.
Defined.

(** C7 as stated fails: a message with an empty body is available in
    [q1], the call takes it and returns, and the handler has not run (it
    would have raised on this body); the wrapped function is not called. *)
Lemma one_shot_fetch_skips_empty_body :
  let g := counting "g" (PDict [(PStr "y", PInt 2)]) in
  let run := base.consume_message "q1" (PStr "q2") "" false g [] world_with_empty_body in
  messages world_with_empty_body "q1" = [[]]
  /\ fst run = Ret PNone
  /\ messages (snd run) "q1" = []
  /\ calls_of "g" (w_trace (snd run)) = []
  /\ fst (base.message_handler (PStr "q2") "" g PNone PNone PNone []
            (fetch_world "q1" world_with_empty_body))
     = Raise JSONDecodeError.
Proof. cbv zeta. repeat split; vm_compute; reflexivity. Qed.

(** The publisher of [base], on a queue with a name and an open
    connection: the body published is the JSON text of what the function
    returned, with the queue as routing key, through the given exchange. *)
Lemma base_publish_message_publishes {U} queue exchange (func : pyfun U) args
      v u text (w : World U) :
  fn_call func args (w_user w) = (Ret v, u) ->
  w_connection w = Some true ->
  json_dumps v = Some text ->
  exists w',
    base.publish_message (PStr queue) exchange func args w = (Ret PNone, w')
    /\ w_trace w' = w_trace w ++ [EvCall (fn_name func) args; EvQueueDeclare queue;
                                  EvDumps v; EvPublish exchange queue (encode_utf8 text)]
    /\ w_user w' = u.
Proof.
  intros Hcall Hconn Hdumps.
  unfold base.publish_message.
  unfold bind at 1, call. cbn [log w_user]. rewrite Hcall.
  unfold bind at 1. rewrite check_connection_open by exact Hconn.
  unfold bind at 1, queue_declare_obj.
  match goal with
  | |- context [queue_declare ?q ?w0] =>
      rewrite (surjective_pairing (queue_declare q w0)), queue_declare_result;
      destruct (queue_declare_world q w0) as (Ht & Hu & _)
  end.
  unfold bind at 1, dumps. rewrite Hdumps.
  unfold bind at 1, basic_publish, ret.
  eexists. split; [reflexivity|].
  cbn in *. rewrite Ht, Hu, <- !app_assoc. now split.
Qed.

(** With one queue name the handler forwards what the function returns:
    its JSON text goes to that queue through the given exchange. *)
Lemma forward_to_one_queue {U} queue exchange (func : pyfun U)
      channel method properties body v r u text (w : World U) :
  queue <> EmptyString ->
  loads_bytes body w = (Ret v, w) ->
  fn_call func [v] (w_user w) = (Ret r, u) ->
  w_connection w = Some true ->
  json_dumps r = Some text ->
  exists w',
    base.message_handler (PStr queue) exchange func channel method properties body w
    = (Ret PNone, w')
    /\ w_trace w' = w_trace w ++ [EvCall (fn_name func) [v]; EvQueueDeclare queue;
                                  EvDumps r; EvPublish exchange queue (encode_utf8 text)]
    /\ w_user w' = u.
Proof.
  intros Hq Hloads Hcall Hconn Hdumps.
  unfold base.message_handler. cbn [py_truthy].
  destruct (String.eqb_spec queue EmptyString) as [?|_]; [contradiction|]. cbn [negb].
  unfold bind at 1. rewrite Hloads.
  now apply base_publish_message_publishes.
Qed.

(** C5, where the code departs from it.  With a list of queue names the
    handler passes the list itself as the name of the queue: the function
    is called, then [queue_declare] refuses the name with [TypeError], and
    nothing is declared or published. *)
Theorem forward_to_list_raises {U} (names : list PyValue) (exchange : string)
        (func : pyfun U) (channel method properties : PyValue) (body : list byte)
        (v r : PyValue) (u : U) (w : World U) :
  names <> [] ->
  loads_bytes body w = (Ret v, w) ->
  fn_call func [v] (w_user w) = (Ret r, u) ->
  w_connection w = Some true ->
  base.message_handler (PList names) exchange func channel method properties body w
  = (Raise TypeError, set_user u (log (EvCall (fn_name func) [v]) w)).
Proof.
  intros Hnames Hloads Hcall Hconn.
  unfold base.message_handler. cbn [py_truthy].
  destruct names as [|name names]; [congruence|].
  unfold bind at 1. rewrite Hloads.
  unfold base.publish_message.
  unfold bind at 1, call. cbn [log w_user]. rewrite Hcall.
  unfold bind at 1. rewrite check_connection_open by exact Hconn.
  reflexivity.
Qed.

(** A consumer that is to forward to [q2] and [q3]. *)
Lemma forward_to_list_raises_witness :
  base.message_handler (PList [PStr "q2"; PStr "q3"]) ""
    (counting "g" (PDict [(PStr "y", PInt 2)])) PNone PNone PNone
    (json_body (PDict [(PStr "x", PInt 1)])) (fetch_world "q1" world_with_message)
  = (Raise TypeError,
     set_user 2%nat
       (log (EvCall "g" [PDict [(PStr "x", PInt 1)]]) (fetch_world "q1" world_with_message))).
Proof.
  apply (forward_to_list_raises [PStr "q2"; PStr "q3"] ""
           (counting "g" (PDict [(PStr "y", PInt 2)])) PNone PNone PNone
           (json_body (PDict [(PStr "x", PInt 1)]))
           (PDict [(PStr "x", PInt 1)]) (PDict [(PStr "y", PInt 2)]) 2%nat
           (fetch_world "q1" world_with_message)).
  - discriminate.
  - eval_call.
  - eval_call.
  - vm_compute; reflexivity.
Defined.

(** The whole registration on that input: [TypeError], and [q2] and [q3]
    do not even exist afterwards. *)
Lemma forward_to_list_example :
  let run := base.consume_message "q1" (PList [PStr "q2"; PStr "q3"]) "" false
               (counting "g" (PDict [(PStr "y", PInt 2)])) [] world_with_message in
  fst run = Raise TypeError
  /\ calls_of "g" (w_trace (snd run)) = [[PDict [(PStr "x", PInt 1)]]]
  /\ w_queues (snd run) !! "q2" = None
  /\ w_queues (snd run) !! "q3" = None
  /\ count_publishes (w_trace (snd run)) = count_publishes (w_trace world_with_message).
Proof. cbv zeta. repeat split; vm_compute; reflexivity. Qed.

(** C9, where the code departs from it.  The wrapper of the pipeline
    calls the listener of the consumer with the message, and that listener
    takes no argument: every call raises [TypeError] and leaves the world
    as it was.  The consumer itself, called as it is meant to be (without
    argument, here in its one-shot mode with the connection check passed),
    fetches from the queue. *)
Theorem pipeline_call_raises {U} (consume_queue publish_queue exchange : string)
        (func : pyfun U) (message_dict : PyValue) (w : World U) :
  (forall production_ready,
      base.message_pipeline consume_queue publish_queue exchange production_ready func
                            [message_dict] w
      = (Raise TypeError, w))
  /\ (fst (base._check_connection w) = Ret tt ->
      exists before after,
        w_trace (snd (base.consume_message consume_queue (PStr publish_queue) exchange
                        false func [] w))
        = w_trace w ++ before ++ [EvGet consume_queue] ++ after).
Proof.
  split.
  - intros production_ready. reflexivity.
  - intros Hcheck.
    destruct (one_shot_fetches_once consume_queue (PStr publish_queue) exchange func w
                Hcheck) as (before & after & Htrace & _).
    now exists before, after.
Qed.

(** A message waits in [q1]: the consumer called directly fetches it. *)
Lemma pipeline_call_raises_witness :
  exists before after,
    w_trace (snd (base.consume_message "q1" (PStr "q2") "" false
                    (counting "g" (PDict [(PStr "y", PInt 2)])) [] world_with_message))
    = w_trace world_with_message ++ before ++ [EvGet "q1"] ++ after.
Proof.
  apply (proj2 (pipeline_call_raises "q1" "q2" ""
                  (counting "g" (PDict [(PStr "y", PInt 2)]))
                  (PDict [(PStr "x", PInt 1)]) world_with_message)).
  vm_compute; reflexivity.
Defined.

(** The consumer used directly, on a world where the pipeline raises:
    it takes the message of [q1] and forwards to [q2]. *)
Lemma consumer_used_directly :
  let g := counting "g" (PDict [(PStr "y", PInt 2)]) in
  let direct := base.consume_message "q1" (PStr "q2") "" false g [] world_with_message in
  let piped := base.message_pipeline "q1" "q2" "" false g [PDict [(PStr "x", PInt 1)]]
                 world_with_message in
  fst direct = Ret PNone
  /\ calls_of "g" (w_trace (snd direct)) = [[PDict [(PStr "x", PInt 1)]]]
  /\ messages (snd direct) "q2" = [json_body (PDict [(PStr "y", PInt 2)])]
  /\ fst piped = Raise TypeError
  /\ calls_of "g" (w_trace (snd piped)) = []
  /\ messages (snd piped) "q1" = [json_body (PDict [(PStr "x", PInt 1)])].
Proof. cbv zeta. repeat split; vm_compute; reflexivity. Qed.

(* ================================================================== *)
(** * Part 5: further properties of the two modules *)
(* ================================================================== *)

(** ** The retry policy, whatever the operation does *)

Lemma retry_counted_bounds {St} (pause : St -> St) (op : M St PyValue) tries :
  forall c s,
    let run := retry_internal (counted_pause pause) (S tries) (counted op) (c, s) in
    (c < fst (snd run) <= c + S tries)%nat.
Proof.
  induction tries as [|tries IH]; intros c s; cbv zeta.
  - rewrite retry_internal_S.
    change (counted op (c, s)) with (let (r, s') := op s in (r, (S c, s'))).
    destruct (op s) as [[a|e|] s1]; cbn [snd fst]; try lia.
    destruct (is_AMQPConnectionError e); cbn [snd fst]; lia.
  - rewrite retry_internal_S.
    change (counted op (c, s)) with (let (r, s') := op s in (r, (S c, s'))).
    destruct (op s) as [[a|e|] s1]; cbn [snd fst]; try lia.
    destruct (is_AMQPConnectionError e); cbn [snd fst]; try lia.
    change (counted_pause pause (S c, s1)) with (S c, pause s1).
    specialize (IH (S c) (pause s1)). cbv zeta in IH. lia.
Qed.

(** X1.  An operation under the retry decorator with its five tries,
    whatever the operation does: it runs at least once and at most five
    times; the call ends as the loop over the bare operation ends (counting
    the runs changes nothing); and a connection error reaches the caller
    only when the operation has run five times. *)
Theorem retry_runs_one_to_five {St} (pause : St -> St) (op : M St PyValue) (s : St) :
  let run := retry_internal (counted_pause pause) 5 (counted op) (0%nat, s) in
  (1 <= fst (snd run) <= 5)%nat
  /\ fst run = fst (retry_internal pause 5 op s)
  /\ snd (snd run) = snd (retry_internal pause 5 op s)
  /\ match fst run with
     | Raise e => if is_AMQPConnectionError e then fst (snd run) = 5%nat else True
     | _ => True
     end.
Proof.
  cbv zeta. split; [|split; [|split]].
  - pose proof (retry_counted_bounds pause op 4 0%nat s) as H. cbv zeta in H. lia.
  - destruct (retry_counted_result pause op 5 0%nat s) as (n & ->). reflexivity.
  - destruct (retry_counted_result pause op 5 0%nat s) as (n & ->). reflexivity.
  - destruct (retry_internal (counted_pause pause) 5 (counted op) (0%nat, s))
      as [[a|e|] [n s']] eqn:Hrun; cbn [fst snd]; trivial.
    destruct (is_AMQPConnectionError e) eqn:He; trivial.
    apply (retry_counted_exhausted pause op 5 0%nat s e n s' Hrun He).
Qed.

(** ** The publisher of [blocking] when the broker stays out of reach *)
Section PublisherExhausted.
Context {U : Type}.
Implicit Types (w : World U) (func : pyfun U) (self : blocking.PublishMessage).

Lemma down_S k net :
  down (S k) net = true -> reaches net = false /\ down k (tl net) = true.
Proof. simpl. destruct net as [|[] net]; intros H; try discriminate H. now split. Qed.

Lemma conn_fails_down self func args k :
  forall w u,
    down k (w_net w) = true ->
    returns_n func args k (w_user w) = Some u ->
    conn_fails sleep (blocking.PublishMessage_wrapper self func args) k w
               (failed_attempts k func args w)
    /\ w_user (failed_attempts k func args w) = u
    /\ w_net (failed_attempts k func args w) = skipn k (w_net w).
Proof.
  induction k as [|k IH]; intros w u Hnet Hret.
  - simpl in *. injection Hret as <-. repeat split. constructor.
  - apply down_S in Hnet as [Hdown Hnet].
    cbn [returns_n] in Hret.
    destruct (fn_call func args (w_user w)) as [[v| |] u1] eqn:Hcall; try discriminate Hret.
    assert (Hw : failed_attempt func args w
                 = sleep (log (EvConnect false)
                              (set_net (tl (w_net w))
                                       (set_user u1 (log (EvCall (fn_name func) args) w))))).
    { unfold failed_attempt. now rewrite Hcall. }
    destruct (IH (failed_attempt func args w) u) as (Hf & Hu & Hr).
    + rewrite Hw. exact Hnet.
    + rewrite Hw. exact Hret.
    + cbn [failed_attempts]. repeat split; [| exact Hu |].
      * eapply conn_fails_S.
        -- now apply (wrapper_unreached self func args w v u1).
        -- reflexivity.
        -- rewrite <- Hw. exact Hf.
      * rewrite Hr, Hw. cbn. destruct (w_net w); [discriminate Hdown | reflexivity].
Qed.

Lemma down_skipn k net : down (S k) net = true -> reaches (skipn k net) = false.
Proof.
  revert net. induction k as [|k IH]; intros net H.
  - now apply down_S in H.
  - apply down_S in H as [Hr H]. destruct net as [|b net]; [discriminate Hr|].
    cbn [skipn]. apply IH. exact H.
Qed.

Lemma down_weaken k net : down (S k) net = true -> down k net = true.
Proof.
  revert net. induction k as [|k IH]; intros net H; [reflexivity|].
  apply down_S in H as [Hr H]. destruct net as [|[] net]; try discriminate Hr.
  cbn [down]. apply IH. exact H.
Qed.

(** Five attempts that all find the broker out of reach: the call raises
    the connection error of the fifth. *)
Lemma PublishMessage_call_exhausted self func args w u v u' :
  down 5 (w_net w) = true ->
  returns_n func args 4 (w_user w) = Some u ->
  fn_call func args u = (Ret v, u') ->
  let w4 := failed_attempts 4 func args w in
  blocking.PublishMessage_call self func args w
  = (Raise AMQPConnectionError,
     log (EvConnect false)
         (set_net (tl (w_net w4)) (set_user u' (log (EvCall (fn_name func) args) w4)))).
Proof.
  intros Hnet Hret Hcall w4.
  destruct (conn_fails_down self func args 4 w u (down_weaken 4 _ Hnet) Hret)
    as (Hf & Hu & Hn).
  unfold blocking.PublishMessage_call.
  change 5%nat with (4 + 1)%nat.
  rewrite (retry_skips_failures sleep _ 4 _ _ _ Hf).
  apply retry_last_failure; [|reflexivity].
  apply (wrapper_unreached self func args w4 v u').
  - fold w4 in Hu. rewrite Hu. exact Hcall.
  - fold w4 in Hn. rewrite Hn. apply down_skipn. exact Hnet.
Qed.
End PublisherExhausted.

(** X2.  The publisher of [blocking] when the broker is out of reach on
    five attempts in a row, the function returning each time: the call
    raises the connection error; the function has run five times and the
    loop has slept four times; nothing was declared, encoded or published,
    and queues, exchanges and bindings are as they were. *)
Theorem publisher_gives_up {U} (self : blocking.PublishMessage) (func : pyfun U)
        (args : list PyValue) (w : World U) (u : U) (v : PyValue) (u' : U) :
  down 5 (w_net w) = true ->
  returns_n func args 4 (w_user w) = Some u ->
  fn_call func args u = (Ret v, u') ->
  exists w',
    blocking.PublishMessage_call self func args w = (Raise AMQPConnectionError, w')
    /\ w_trace w' = w_trace w ++ concat (repeat (failed_trace (fn_name func) args) 4)
                              ++ last_failed_trace (fn_name func) args
    /\ w_user w' = u'
    /\ w_queues w' = w_queues w
    /\ w_exchanges w' = w_exchanges w
    /\ w_bindings w' = w_bindings w.
Proof.
  intros Hnet Hret Hcall.
  pose proof (PublishMessage_call_exhausted self func args w u v u' Hnet Hret Hcall) as Hrun.
  cbv zeta in Hrun.
  destruct (failed_attempts_broker 4 func args w) as (Hq & Hx & Hb & _).
  pose proof (failed_attempts_trace 4 func args w) as Ht.
  set (w4 := failed_attempts 4 func args w) in *.
  exists (log (EvConnect false)
              (set_net (tl (w_net w4)) (set_user u' (log (EvCall (fn_name func) args) w4)))).
  split; [exact Hrun|].
  unfold log, set_net, set_user; cbn [w_trace w_user w_queues w_exchanges w_bindings].
  rewrite Ht, Hq, Hx, Hb.
  unfold last_failed_trace. rewrite <- !app_assoc.
  repeat split; reflexivity.
Qed.
(** The publisher of [q1] when five attempts find the broker out of reach. *)
Lemma publisher_gives_up_witness :
  exists w',
    blocking.PublishMessage_call (blocking.PublishMessage_default "q1")
      (counting "f" (PInt 1)) [] (set_net [false; false; false; false; false] empty_world)
    = (Raise AMQPConnectionError, w')
    /\ w_trace w' = concat (repeat (failed_trace "f" []) 4) ++ last_failed_trace "f" []
    /\ w_user w' = 5%nat
    /\ w_queues w' = ∅
    /\ w_exchanges w' = ∅
    /\ w_bindings w' = [].
Proof.
  apply (publisher_gives_up (blocking.PublishMessage_default "q1") (counting "f" (PInt 1)) []
           (set_net [false; false; false; false; false] empty_world) 4%nat (PInt 1) 5%nat).
  - reflexivity.
  - reflexivity.
  - reflexivity.
Defined.

(** ** How often a publisher publishes *)
Section PublishCount.
Context {U : Type}.
Implicit Types (w : World U) (func : pyfun U) (self : blocking.PublishMessage).

Lemma wrapper_publishes_on_return self func args :
  publishes_on_return (blocking.PublishMessage_wrapper self func args).
Proof.
  intros w.
  destruct (fn_call func args (w_user w)) as [[v|e|] u] eqn:Hcall.
  - destruct (reaches (w_net w)) eqn:Hnet.
    + destruct (string_dec (blocking.pm_exchange self) EmptyString) as [Hex|Hex].
      * destruct (json_dumps v) as [text|] eqn:Hdumps.
        -- rewrite (wrapper_default_exchange self func args w v u text Hex Hcall Hnet Hdumps).
           cbn [fst snd returned].
           destruct (publish_world_facts (blocking.pm_queue self) func args v u text w)
             as (Ht & _).
           cbv zeta in Ht. rewrite Ht, count_publishes_app. reflexivity.
        -- unfold blocking.PublishMessage_wrapper, bind, call,
             blocking._create_connection_and_channel.
           cbn [log w_user]. rewrite Hcall.
           rewrite connect_reached by exact Hnet.
           rewrite Hex. cbn [String.eqb negb].
           match goal with
           | |- context [queue_declare ?q ?w0] =>
               rewrite (surjective_pairing (queue_declare q w0)), queue_declare_result;
               destruct (queue_declare_world q w0) as (Ht & _)
           end.
           unfold ret, dumps. rewrite Hdumps.
           cbn [fst snd returned log w_trace]. rewrite Ht.
           cbn [log set_net set_user w_trace].
           rewrite !count_publishes_app. cbn. lia.
      * rewrite (wrapper_with_exchange self func args w v u Hex Hcall Hnet).
        cbn [fst snd returned].
        destruct (exchange_world_facts self func args u w) as (name & Ht & _).
        cbv zeta in Ht. rewrite Ht, count_publishes_app. cbn. lia.
    + rewrite (wrapper_unreached self func args w v u Hcall Hnet).
      cbn [fst snd returned log set_net set_user w_trace].
      rewrite !count_publishes_app. cbn. lia.
  - unfold blocking.PublishMessage_wrapper, bind, call. cbn [log w_user]. rewrite Hcall.
    cbn [fst snd returned log set_net set_user w_trace].
    rewrite count_publishes_app. cbn. lia.
  - unfold blocking.PublishMessage_wrapper, bind, call. cbn [log w_user]. rewrite Hcall.
    cbn [fst snd returned log set_net set_user w_trace].
    rewrite count_publishes_app. cbn. lia.
Qed.

Lemma retry_publishes_on_return tries (op : M (World U) PyValue) :
  publishes_on_return op -> publishes_on_return (retry_internal sleep (S tries) op).
Proof.
  intros Hop. induction tries as [|tries IH]; intros w; rewrite retry_internal_S;
    specialize (Hop w); destruct (op w) as [[a|e|] w1]; cbn [fst snd returned] in *;
    try exact Hop; destruct (is_AMQPConnectionError e); cbn [fst snd returned];
    try exact Hop.
  rewrite IH. unfold sleep. cbn [log w_trace].
  rewrite count_publishes_app, Hop. cbn. lia.
Qed.
End PublishCount.

(** X3.  One call of the publisher of [blocking], whatever the
    function, the arguments and the world: [basic_publish] is called
    exactly once when the call returns, and not at all when it raises or
    does not return.  The retries never publish a second time. *)
Theorem publisher_publishes_on_return {U} (self : blocking.PublishMessage)
        (func : pyfun U) (args : list PyValue) (w : World U) :
  let run := blocking.PublishMessage_call self func args w in
  count_publishes (w_trace (snd run))
  = (count_publishes (w_trace w) + if returned (fst run) then 1 else 0)%nat.
Proof.
  apply (retry_publishes_on_return 4), wrapper_publishes_on_return.
Qed.

(** X4.  Both publishers call the wrapped function before they turn to
    the broker.  When the function raises, the publisher of [base] passes
    the error on, and so does the publisher of [blocking] unless the error
    is a connection error (which it retries).  The only call made is the
    call of the function: no connection, no declaration, no publication. *)
Theorem function_error_before_broker {U} (func : pyfun U) (args : list PyValue)
        (w : World U) (e : exn) (u : U) :
  fn_call func args (w_user w) = (Raise e, u) ->
  (forall queue exchange,
      base.publish_message queue exchange func args w
      = (Raise e, set_user u (log (EvCall (fn_name func) args) w)))
  /\ (is_AMQPConnectionError e = false ->
      forall self,
        blocking.PublishMessage_call self func args w
        = (Raise e, set_user u (log (EvCall (fn_name func) args) w))).
Proof.
  intros Hcall. split.
  - intros queue exchange. unfold base.publish_message, bind, call.
    cbn [log w_user]. now rewrite Hcall.
  - intros He self. apply retry_other_error; [|exact He].
    unfold blocking.PublishMessage_wrapper, bind, call. cbn [log w_user]. now rewrite Hcall.
Qed.

(** A function that raises a [ValueError], in an empty world. *)
Lemma function_error_before_broker_witness :
  (forall queue exchange,
      base.publish_message queue exchange (failing "f" (UserError "ValueError")) []
                           empty_world
      = (Raise (UserError "ValueError"),
         set_user 1%nat (log (EvCall "f" []) empty_world)))
  /\ (is_AMQPConnectionError (UserError "ValueError") = false ->
      forall self,
        blocking.PublishMessage_call self (failing "f" (UserError "ValueError")) []
                                     empty_world
        = (Raise (UserError "ValueError"),
           set_user 1%nat (log (EvCall "f" []) empty_world))).
Proof.
  apply (function_error_before_broker (failing "f" (UserError "ValueError")) [] empty_world
           (UserError "ValueError") 1%nat).
  reflexivity.
Defined.

(** ** The connection of [base] *)
Section BaseConnection.
Context {U : Type}.
Implicit Types (w : World U) (func : pyfun U).

Lemma count_connects_app a b :
  count_connects (a ++ b) = (count_connects a + count_connects b)%nat.
Proof. unfold count_connects. now rewrite List.filter_app, length_app. Qed.

Lemma create_global_connection_reached w :
  reaches (w_net w) = true ->
  base._create_global_connection w
  = (Ret tt, set_connection (Some true) (log (EvConnect true) (set_net (tl (w_net w)) w))).
Proof.
  intros H. unfold base._create_global_connection, bind.
  now rewrite connect_reached by exact H.
Qed.

Lemma create_global_connection_unreached w :
  reaches (w_net w) = false ->
  base._create_global_connection w
  = (Raise AMQPConnectionError, log (EvConnect false) (set_net (tl (w_net w)) w)).
Proof.
  intros H. unfold base._create_global_connection, bind.
  now rewrite connect_unreached by exact H.
Qed.

(** The check without an open connection is one connection attempt. *)
Lemma check_connection_not_open w :
  w_connection w <> Some true ->
  base._check_connection w = base._create_global_connection w.
Proof.
  intros Hc. unfold base._check_connection, bind.
  destruct (w_connection w) as [[]|] eqn:Hconn; [contradiction| |].
  - cbn. rewrite Hconn. reflexivity.
  - destruct (reaches (w_net w)) eqn:Hnet.
    + rewrite create_global_connection_reached by exact Hnet. reflexivity.
    + rewrite create_global_connection_unreached by exact Hnet. reflexivity.
Qed.
End BaseConnection.

(** X5.  [_check_connection] of [base] makes no connection attempt
    when the connection is open, and exactly one when there is none or it
    is closed: its two tests never both connect.  When it returns, the
    connection is open; when it raises, it raises the connection error and
    leaves the connection of the module as it was. *)
Theorem check_connection_connects_once {U} (w : World U) :
  let run := base._check_connection w in
  count_connects (w_trace (snd run))
  = (count_connects (w_trace w)
     + match w_connection w with Some true => 0 | _ => 1 end)%nat
  /\ match fst run with
     | Ret _ => w_connection (snd run) = Some true
     | Raise e => e = AMQPConnectionError /\ w_connection (snd run) = w_connection w
     | Block => False
     end.
Proof.
  cbv zeta.
  destruct (w_connection w) as [[]|] eqn:Hconn.
  - rewrite check_connection_open by exact Hconn. cbn [fst snd]. split; [lia | exact Hconn].
  - rewrite check_connection_not_open by (rewrite Hconn; discriminate).
    destruct (reaches (w_net w)) eqn:Hnet.
    + rewrite create_global_connection_reached by exact Hnet.
      cbn [fst snd log set_net set_connection w_trace w_connection].
      rewrite count_connects_app. cbn. split; [lia | reflexivity].
    + rewrite create_global_connection_unreached by exact Hnet.
      cbn [fst snd log set_net set_connection w_trace w_connection].
      rewrite count_connects_app. cbn. split; [lia | split; [reflexivity | exact Hconn]].
  - rewrite check_connection_not_open by (rewrite Hconn; discriminate).
    destruct (reaches (w_net w)) eqn:Hnet.
    + rewrite create_global_connection_reached by exact Hnet.
      cbn [fst snd log set_net set_connection w_trace w_connection].
      rewrite count_connects_app. cbn. split; [lia | reflexivity].
    + rewrite create_global_connection_unreached by exact Hnet.
      cbn [fst snd log set_net set_connection w_trace w_connection].
      rewrite count_connects_app. cbn. split; [lia | split; [reflexivity | exact Hconn]].
Qed.

(** X6.  The publisher of [base] does not retry.  Without an open
    connection and with the broker out of reach, the call raises the
    connection error after one call of the function and one connection
    attempt; there is no sleep, no declaration and no publication. *)
Theorem base_publish_does_not_retry {U} (queue : PyValue) (exchange : string)
        (func : pyfun U) (args : list PyValue) (w : World U) (v : PyValue) (u : U) :
  fn_call func args (w_user w) = (Ret v, u) ->
  w_connection w <> Some true ->
  reaches (w_net w) = false ->
  base.publish_message queue exchange func args w
  = (Raise AMQPConnectionError,
     log (EvConnect false)
         (set_net (tl (w_net w)) (set_user u (log (EvCall (fn_name func) args) w)))).
Proof.
  intros Hcall Hconn Hnet.
  unfold base.publish_message, bind, call. cbn [log w_user]. rewrite Hcall.
  rewrite check_connection_not_open by exact Hconn.
  rewrite create_global_connection_unreached by exact Hnet.
  reflexivity.
Qed.

(** The broker is out of reach once, and would be reached on a second attempt. *)
Lemma base_publish_does_not_retry_witness :
  base.publish_message (PStr "q1") "" (counting "f" (PInt 1)) []
                       (set_net [false; true] empty_world)
  = (Raise AMQPConnectionError,
     log (EvConnect false)
         (set_net [true] (set_user 1%nat (log (EvCall "f" []) (set_net [false; true] empty_world))))).
Proof.
  apply (base_publish_does_not_retry (PStr "q1") "" (counting "f" (PInt 1)) []
           (set_net [false; true] empty_world) (PInt 1) 1%nat).
  - reflexivity.
  - discriminate.
  - reflexivity.
Defined.

(** ** What an operation leaves as it was *)
Section Evolves.
Context {U : Type} (ok : event -> bool) (keep : string -> bool).
Implicit Types (w : World U).

Lemma evolves_refl w : evolves ok keep w w.
Proof.
  split; [apply grows_by_refl|]. intros q _. exists []. now rewrite app_nil_r.
Qed.

Lemma evolves_trans w1 w2 w3 :
  evolves ok keep w1 w2 -> evolves ok keep w2 w3 -> evolves ok keep w1 w3.
Proof.
  intros [Ht1 Hq1] [Ht2 Hq2]. split; [eapply grows_by_trans; eassumption|].
  intros q Hk. destruct (Hq1 q Hk) as (m1 & E1). destruct (Hq2 q Hk) as (m2 & E2).
  exists (m1 ++ m2). now rewrite E2, E1, app_assoc.
Qed.

(** A step that leaves the trace and the queues alone. *)
Lemma evolves_silent w w' :
  w_trace w' = w_trace w -> w_queues w' = w_queues w -> evolves ok keep w w'.
Proof.
  intros Ht Hq. split.
  - exists []. split; [now rewrite app_nil_r | reflexivity].
  - intros q _. exists []. unfold messages. now rewrite Hq, app_nil_r.
Qed.

(** A step that makes one call and leaves the queues alone. *)
Lemma evolves_event e w w' :
  ok e = true -> w_trace w' = w_trace w ++ [e] -> w_queues w' = w_queues w ->
  evolves ok keep w w'.
Proof.
  intros He Ht Hq. split.
  - exists [e]. split; [exact Ht | cbn; now rewrite He].
  - intros q _. exists []. unfold messages. now rewrite Hq, app_nil_r.
Qed.

Lemma respects_ret {A} (a : A) : respects (U := U) ok keep (ret a).
Proof. intros w. apply evolves_refl. Qed.

Lemma respects_raise {A} e : respects (U := U) (A := A) ok keep (raise e).
Proof. intros w. apply evolves_refl. Qed.

(** In [c ;; k] the continuation only runs on what [c] can return. *)
Lemma respects_bind {A B} (c : M (World U) A) (k : A -> M (World U) B) (Q : A -> Prop) :
  respects ok keep c ->
  (forall w a w', c w = (Ret a, w') -> Q a) ->
  (forall a, Q a -> respects ok keep (k a)) ->
  respects ok keep (bind c k).
Proof.
  intros Hc HQ Hk w. unfold bind. specialize (Hc w).
  destruct (c w) as [[a|e|] w1] eqn:Hcw; cbn [snd] in *; try exact Hc.
  eapply evolves_trans; [exact Hc|]. apply Hk. eapply HQ. exact Hcw.
Qed.

Lemma respects_seq {A B} (c : M (World U) A) (k : A -> M (World U) B) :
  respects ok keep c -> (forall a, respects ok keep (k a)) -> respects ok keep (bind c k).
Proof.
  intros Hc Hk. apply (respects_bind c k (fun _ => True)); auto.
Qed.

Lemma respects_try_except {A} (c : M (World U) A) handler :
  respects ok keep c ->
  (forall e h, handler e = Some h -> respects ok keep h) ->
  respects ok keep (try_except c handler).
Proof.
  intros Hc Hh w. unfold try_except. specialize (Hc w).
  destruct (c w) as [[a|e|] w1]; cbn [snd] in *; try exact Hc.
  destruct (handler e) as [h|] eqn:He; cbn [snd]; [|exact Hc].
  eapply evolves_trans; [exact Hc | apply (Hh e h He)].
Qed.

Lemma respects_retry tries (op : M (World U) PyValue) :
  ok EvSleep = true -> respects ok keep op ->
  respects ok keep (retry_internal sleep tries op).
Proof.
  intros Hs Hop. induction tries as [|tries IH]; intros w; [apply evolves_refl|].
  rewrite retry_internal_S. specialize (Hop w).
  destruct (op w) as [[a|e|] w1]; cbn [snd] in *; try exact Hop.
  destruct (is_AMQPConnectionError e); [|exact Hop].
  destruct tries as [|tries]; [exact Hop|].
  eapply evolves_trans; [exact Hop|].
  eapply evolves_trans; [|apply IH].
  now apply (evolves_event EvSleep).
Qed.

Lemma respects_call (f : pyfun U) args :
  ok (EvCall (fn_name f) args) = true -> respects ok keep (call f args).
Proof.
  intros He w. unfold call. cbn [log w_user].
  destruct (fn_call f args (w_user w)) as [r u]. cbn [snd].
  now apply (evolves_event (EvCall (fn_name f) args)).
Qed.

Lemma respects_dumps v : ok (EvDumps v) = true -> respects (U := U) ok keep (dumps v).
Proof.
  intros He w. unfold dumps.
  destruct (json_dumps v); cbn [snd]; now apply (evolves_event (EvDumps v)).
Qed.

Lemma respects_loads_decoded body : respects (U := U) ok keep (loads_decoded body).
Proof.
  intros w. unfold loads_decoded.
  destruct (decode_utf8 body) as [text|]; [|apply evolves_refl].
  destruct (json_loads text); apply evolves_refl.
Qed.

Lemma respects_loads_bytes body : respects (U := U) ok keep (loads_bytes body).
Proof.
  unfold loads_bytes.
  destruct body as [|b0 [|b1 [|b2 body]]]; try apply respects_loads_decoded.
  destruct (Byte.eqb b0 xef && Byte.eqb b1 xbb && Byte.eqb b2 xbf);
    apply respects_loads_decoded.
Qed.

Lemma respects_connect :
  (forall b, ok (EvConnect b) = true) -> respects (U := U) ok keep connect.
Proof.
  intros He w.
  destruct (reaches (w_net w)) eqn:Hn;
    [rewrite connect_reached by exact Hn | rewrite connect_unreached by exact Hn];
    cbn [snd]; now eapply evolves_event.
Qed.

Lemma respects_check_connection :
  (forall b, ok (EvConnect b) = true) -> respects (U := U) ok keep base._check_connection.
Proof.
  intros He.
  assert (Hcreate : respects (U := U) ok keep base._create_global_connection).
  { unfold base._create_global_connection. apply respects_seq; [now apply respects_connect|].
    intros _ w. now apply evolves_silent. }
  unfold base._check_connection. apply respects_seq.
  - intros w. destruct (w_connection w); [apply evolves_refl | apply Hcreate].
  - intros _ w. destruct (w_connection w) as [[]|]; try apply evolves_refl. apply Hcreate.
Qed.

Lemma respects_exchange_declare exchange exchange_type :
  ok (EvExchangeDeclare exchange exchange_type) = true ->
  respects (U := U) ok keep (exchange_declare exchange exchange_type).
Proof.
  intros He w.
  destruct (exchange_declare_world exchange exchange_type w) as (_ & Ht & _ & _ & _ & _ & Hq & _).
  now apply (evolves_event (EvExchangeDeclare exchange exchange_type)).
Qed.

Lemma respects_queue_bind exchange queue :
  ok (EvQueueBind exchange queue) = true ->
  respects (U := U) ok keep (queue_bind exchange queue).
Proof.
  intros He w.
  destruct (queue_bind_world exchange queue w) as (_ & Ht & _ & _ & _ & _ & Hq).
  now apply (evolves_event (EvQueueBind exchange queue)).
Qed.

Lemma respects_queue_declare queue :
  ok (EvQueueDeclare queue) = true -> respects (U := U) ok keep (queue_declare queue).
Proof.
  intros He w. destruct (queue_declare_world queue w) as (Ht & _). split.
  - exists [EvQueueDeclare queue]. split; [exact Ht | cbn; now rewrite He].
  - intros q _. exists []. now rewrite queue_declare_messages, app_nil_r.
Qed.

Lemma respects_queue_declare_obj queue :
  (forall q, ok (EvQueueDeclare q) = true) ->
  respects (U := U) ok keep (queue_declare_obj queue).
Proof.
  intros He. destruct queue; try apply respects_raise. now apply respects_queue_declare.
Qed.

(** The broker puts a message behind those that wait. *)
Lemma enqueue_all_messages body (targets : list string) :
  forall (queues : gmap string (list (list byte))) q,
  exists more,
    match fold_left (enqueue body) targets queues !! q with
    | Some msgs => msgs
    | None => []
    end
    = match queues !! q with Some msgs => msgs | None => [] end ++ more.
Proof.
  induction targets as [|t targets IH]; intros queues q; cbn [fold_left].
  - exists []. now rewrite app_nil_r.
  - destruct (IH (enqueue body queues t) q) as (more & ->).
    unfold enqueue. destruct (queues !! t) as [msgs|] eqn:Ht; [|now exists more].
    destruct (decide (t = q)) as [->|Hne].
    + rewrite lookup_insert_eq, Ht. exists ([body] ++ more). now rewrite app_assoc.
    + rewrite lookup_insert_ne by exact Hne. now exists more.
Qed.

Lemma respects_basic_publish exchange routing_key text :
  ok (EvPublish exchange routing_key (encode_utf8 text)) = true ->
  respects (U := U) ok keep (basic_publish exchange routing_key text).
Proof.
  intros He w. split.
  - exists [EvPublish exchange routing_key (encode_utf8 text)].
    split; [reflexivity | cbn; now rewrite He].
  - intros q _. unfold basic_publish, messages. cbn.
    apply enqueue_all_messages.
Qed.

Lemma respects_basic_consume queue :
  ok (EvConsume queue) = true -> respects (U := U) ok keep (basic_consume queue).
Proof. intros He w. now apply (evolves_event (EvConsume queue)). Qed.

Lemma respects_stop_consuming :
  ok EvStopConsuming = true -> respects (U := U) ok keep stop_consuming.
Proof. intros He w. now apply (evolves_event EvStopConsuming). Qed.

(** Taking a message only touches the queue it is taken from. *)
Lemma evolves_take queue w body w1 :
  keep queue = false -> take queue w = Some (body, w1) -> evolves ok keep w w1.
Proof.
  intros Hk. rewrite take_messages.
  destruct (messages w queue) as [|b msgs]; [discriminate|].
  intros [= <- <-]. split.
  - exists []. split; [cbn; now rewrite app_nil_r | reflexivity].
  - intros q Hq. exists []. rewrite app_nil_r. unfold messages. cbn.
    rewrite lookup_insert_ne; [reflexivity|]. intros ->. congruence.
Qed.

Lemma respects_basic_get queue :
  ok (EvGet queue) = true -> keep queue = false ->
  respects (U := U) ok keep (basic_get queue).
Proof.
  intros He Hk w. unfold basic_get.
  destruct (take queue (log (EvGet queue) w)) as [[body w2]|] eqn:Htake; cbn [snd].
  - eapply evolves_trans; [|exact (evolves_take queue _ body w2 Hk Htake)].
    now apply (evolves_event (EvGet queue)).
  - now apply (evolves_event (EvGet queue)).
Qed.

Lemma respects_consume_loop closed queue (callback : on_message) sched :
  (forall w, w_trace (closed w) = w_trace w /\ w_queues (closed w) = w_queues w) ->
  keep queue = false ->
  (forall channel method properties body,
      respects ok keep (callback channel method properties body)) ->
  respects ok keep (consume_loop closed queue callback sched).
Proof.
  intros Hclosed Hk Hcb. induction sched as [|ev rest IH]; intros w; cbn [consume_loop].
  - apply evolves_refl.
  - assert (H0 : evolves ok keep w (set_sched rest w)) by now apply evolves_silent.
    destruct ev as [channel method properties| |]; cbn [snd].
    + destruct (take queue (set_sched rest w)) as [[body w1]|] eqn:Htake.
      * pose proof (evolves_take queue _ body w1 Hk Htake) as H1.
        pose proof (Hcb channel method properties body w1) as H2.
        destruct (callback channel method properties body w1) as [[a|e|] w2];
          cbn [snd] in *.
        -- eapply evolves_trans; [exact H0|]. eapply evolves_trans; [exact H1|].
           eapply evolves_trans; [exact H2 | apply IH].
        -- eapply evolves_trans; [exact H0|]. eapply evolves_trans; eassumption.
        -- eapply evolves_trans; [exact H0|]. eapply evolves_trans; eassumption.
      * eapply evolves_trans; [exact H0 | apply IH].
    + eapply evolves_trans; [exact H0|]. apply evolves_silent; apply Hclosed.
    + exact H0.
Qed.

Lemma respects_start_consuming closed queue (callback : on_message) :
  (forall w, w_trace (closed w) = w_trace w /\ w_queues (closed w) = w_queues w) ->
  keep queue = false ->
  (forall channel method properties body,
      respects ok keep (callback channel method properties body)) ->
  respects ok keep (start_consuming closed queue callback).
Proof.
  intros Hclosed Hk Hcb w. unfold start_consuming.
  now apply respects_consume_loop.
Qed.
End Evolves.

(** ** The wrappers, call by call *)
Section WrappersRespect.
Context {U : Type} (ok : event -> bool) (keep : string -> bool).
Hypothesis ok_quiet : forall e, quiet e = true -> ok e = true.
Implicit Types (w : World U) (func : pyfun U).

Lemma dumps_ret_inv v w text w' :
  dumps v w = (Ret text, w') -> json_dumps v = Some text.
Proof. unfold dumps. destruct (json_dumps v); now intros [= <- _]. Qed.

(** One attempt of the publisher of [blocking], then all of them. *)
Lemma respects_PublishMessage_call (self : blocking.PublishMessage) func args :
  ok (EvCall (fn_name func) args) = true ->
  (forall v, ok (EvDumps v) = true) ->
  (forall v text,
      json_dumps v = Some text ->
      ok (EvPublish (blocking.pm_exchange self) (blocking.pm_queue self) (encode_utf8 text))
      = true) ->
  respects ok keep (blocking.PublishMessage_call self func args).
Proof.
  intros Hcall Hdumps Hpub.
  apply respects_retry; [now apply ok_quiet|].
  unfold blocking.PublishMessage_wrapper, blocking._create_connection_and_channel.
  apply respects_seq; [now apply respects_call|]. intros result.
  apply respects_seq; [apply respects_connect; intros b; now apply ok_quiet|]. intros _.
  apply respects_seq.
  - destruct (negb (String.eqb (blocking.pm_exchange self) "")).
    + apply respects_seq; [apply respects_exchange_declare; now apply ok_quiet|]. intros _.
      apply respects_seq; [apply respects_queue_declare; now apply ok_quiet|]. intros name.
      apply respects_seq; [apply respects_queue_bind; now apply ok_quiet|]. intros _.
      apply respects_ret.
    + apply respects_seq; [apply respects_queue_declare; now apply ok_quiet|]. intros _.
      apply respects_ret.
  - intros result'.
    apply (respects_bind ok keep _ _ (fun text => json_dumps result' = Some text)).
    + now apply respects_dumps.
    + intros w text w'. apply dumps_ret_inv.
    + intros text Htext.
      apply respects_seq; [apply respects_basic_publish; now apply (Hpub result')|].
      intros _. apply respects_ret.
Qed.

(** The handler of the consumer of [blocking]. *)
Lemma respects_blocking_handler (self : blocking.ConsumeMessage) func
      channel method properties body :
  (forall fn args, ok (EvCall fn args) = true) ->
  (forall v, ok (EvDumps v) = true) ->
  (blocking.cm_logging self = true ->
   forall v text,
     json_dumps v = Some text ->
     ok (EvPublish "" (blocking.cm_logging_queue self) (encode_utf8 text)) = true) ->
  respects ok keep (consumer_callback self func channel method properties body).
Proof.
  intros Hcall Hdumps Hpub.
  unfold consumer_callback, blocking.message_handler.
  apply respects_seq; [apply respects_loads_decoded|]. intros decoded_body.
  apply respects_seq.
  - destruct (blocking.cm_logging self); [|apply respects_ret].
    apply respects_PublishMessage_call; [apply Hcall | exact Hdumps |].
    intros v text Htext. exact (Hpub eq_refl v text Htext).
  - intros _. apply respects_seq; [now apply respects_call|]. intros _. apply respects_ret.
Qed.

(** The registration of a consumer of [blocking], given what its handler
    respects. *)
Lemma respects_ConsumeMessage_call (self : blocking.ConsumeMessage) func args :
  keep (blocking.cm_consume_queue self) = false ->
  (forall channel method properties body,
      respects ok keep (consumer_callback self func channel method properties body)) ->
  respects ok keep (blocking.ConsumeMessage_call self func args).
Proof.
  intros Hk Hcb.
  apply respects_retry; [now apply ok_quiet|].
  unfold blocking.ConsumeMessage_prepare_channel, blocking._create_connection_and_channel.
  apply respects_seq; [apply respects_connect; intros b; now apply ok_quiet|]. intros _.
  apply respects_seq.
  - destruct (negb (String.eqb (blocking.cm_exchange self) "")).
    + apply respects_seq; [apply respects_exchange_declare; now apply ok_quiet|]. intros _.
      apply respects_seq; [apply respects_queue_declare; now apply ok_quiet|]. intros name.
      apply respects_queue_bind; now apply ok_quiet.
    + apply respects_seq; [apply respects_queue_declare; now apply ok_quiet|]. intros _.
      apply respects_ret.
  - intros _.
    apply respects_seq; [apply respects_basic_consume; now apply ok_quiet|]. intros _.
    apply respects_try_except.
    + apply respects_start_consuming; [now split | exact Hk | exact Hcb].
    + intros e h He. destruct e; try discriminate He; injection He as <-.
      * apply respects_ret.
      * apply respects_stop_consuming. now apply ok_quiet.
Qed.

(** The publisher of [base]. *)
Lemma respects_base_publish_message (queue : PyValue) exchange func args :
  ok (EvCall (fn_name func) args) = true ->
  (forall v, ok (EvDumps v) = true) ->
  (forall q v text,
      queue = PStr q -> json_dumps v = Some text ->
      ok (EvPublish exchange q (encode_utf8 text)) = true) ->
  respects ok keep (base.publish_message queue exchange func args).
Proof.
  intros Hcall Hdumps Hpub. unfold base.publish_message.
  apply respects_seq; [now apply respects_call|]. intros result.
  apply respects_seq; [apply respects_check_connection; intros b; now apply ok_quiet|].
  intros _.
  assert (Hraise : forall k : string -> M (World U) PyValue,
             respects ok keep (bind (raise TypeError) k)).
  { intros k w. apply evolves_refl. }
  destruct queue as [| | |q| | | |]; cbn [queue_declare_obj]; try apply Hraise.
  apply respects_seq; [apply respects_queue_declare; now apply ok_quiet|]. intros name.
  apply (respects_bind ok keep _ _ (fun text => json_dumps result = Some text)).
  - now apply respects_dumps.
  - intros w text w'. apply dumps_ret_inv.
  - intros text Htext.
    apply respects_seq; [apply respects_basic_publish; now apply (Hpub q result)|].
    intros _. apply respects_ret.
Qed.

(** The handler of the consumer of [base]. *)
Lemma respects_base_handler (publish_queues : PyValue) exchange func
      channel method properties body :
  (py_truthy publish_queues = true ->
   (forall args, ok (EvCall (fn_name func) args) = true)
   /\ (forall v, ok (EvDumps v) = true)
   /\ (forall q v text,
          publish_queues = PStr q -> json_dumps v = Some text ->
          ok (EvPublish exchange q (encode_utf8 text)) = true)) ->
  respects ok keep
    (base.message_handler publish_queues exchange func channel method properties body).
Proof.
  intros H. unfold base.message_handler.
  destruct (py_truthy publish_queues); [|apply respects_ret].
  destruct (H eq_refl) as (Hcall & Hdumps & Hpub).
  apply respects_seq; [apply respects_loads_bytes|]. intros message.
  now apply respects_base_publish_message.
Qed.

(** The registration of a consumer of [base], given what its handler
    respects. *)
Lemma respects_base_consume_message consume_queue (publish_queues : PyValue) exchange
      production_ready func args :
  keep consume_queue = false ->
  (forall channel method properties body,
      respects ok keep
        (base.message_handler publish_queues exchange func channel method properties body)) ->
  respects ok keep
    (base.consume_message consume_queue publish_queues exchange production_ready func args).
Proof.
  intros Hk Hcb. unfold base.consume_message.
  destruct args; [|apply respects_raise].
  apply respects_seq; [apply respects_check_connection; intros b; now apply ok_quiet|].
  intros _.
  apply respects_seq; [apply respects_queue_declare; now apply ok_quiet|]. intros _.
  destruct production_ready.
  - apply respects_seq; [apply respects_basic_consume; now apply ok_quiet|]. intros _.
    apply respects_try_except.
    + apply respects_start_consuming; [now split | exact Hk | exact Hcb].
    + intros e h He. destruct e; try discriminate He; injection He as <-.
      apply respects_stop_consuming. now apply ok_quiet.
  - apply respects_seq; [apply respects_basic_get; [now apply ok_quiet | exact Hk]|].
    intros [[|b bs]|]; try apply respects_ret.
    apply respects_seq; [apply Hcb|]. intros _. apply respects_ret.
Qed.
End WrappersRespect.

(** ** What is published is ASCII *)

Lemma uint_text_ascii d : forallb is_ascii (uint_text d) = true.
Proof. induction d; cbn; auto. Qed.

Lemma int_text_ascii z : forallb is_ascii (int_text z) = true.
Proof.
  unfold int_text. destruct (Z.to_int z); cbn; apply uint_text_ascii.
Qed.

Lemma join_items_ascii texts :
  Forall (fun t => forallb is_ascii t = true) texts ->
  forallb is_ascii (join_items texts) = true.
Proof.
  induction 1 as [|t ts Ht Hts IH]; [reflexivity|].
  destruct ts as [|t' ts]; [exact Ht|].
  change (join_items (t :: t' :: ts)) with (t ++ [","; " "]%char ++ join_items (t' :: ts)).
  rewrite !forallb_app, Ht, IH. reflexivity.
Qed.

Lemma quoted_ascii s : forallb is_ascii (quoted s) = true.
Proof.
  unfold quoted. cbn [forallb]. rewrite forallb_app, escape_chars_ascii. reflexivity.
Qed.

(** The encoder writes ASCII only ([ensure_ascii]). *)
Lemma json_text_ascii v : forallb is_ascii (json_text v) = true.
Proof.
  induction v as [|[]|z|s|l IH|l IH|items IH|r] using PyValue_nested_ind;
    try reflexivity.
  - apply int_text_ascii.
  - apply quoted_ascii.
  - cbn [json_text forallb]. rewrite forallb_app, join_items_ascii; [reflexivity|].
    apply Forall_map. exact IH.
  - cbn [json_text forallb]. rewrite forallb_app, join_items_ascii; [reflexivity|].
    apply Forall_map. exact IH.
  - cbn [json_text forallb]. rewrite forallb_app, join_items_ascii; [reflexivity|].
    apply Forall_map. eapply List.Forall_impl; [|exact IH].
    intros [k x] [_ Hx]. unfold member_text. cbn [fst snd] in *.
    rewrite !forallb_app, quoted_ascii, Hx. reflexivity.
Qed.

Lemma encode_char_ascii c :
  is_ascii c = true ->
  encode_char c = [byte_of_ascii c] /\ is_ascii_byte (byte_of_ascii c) = true.
Proof.
  destruct c as [[] [] [] [] [] [] [] []]; intros H; try discriminate H; split; reflexivity.
Qed.

Lemma encode_chars_ascii cs :
  forallb is_ascii cs = true ->
  flat_map encode_char cs = map byte_of_ascii cs
  /\ forallb is_ascii_byte (flat_map encode_char cs) = true.
Proof.
  induction cs as [|c cs IH]; [now split|].
  cbn [forallb]. intros [Hc Hcs]%andb_prop.
  destruct (encode_char_ascii c Hc) as [E Hb]. destruct (IH Hcs) as [E' Hbs].
  cbn [flat_map map]. rewrite E. cbn [app forallb]. rewrite <- E', Hb, Hbs. now split.
Qed.

(** The body of a message is the text byte for byte. *)
Lemma json_dumps_ascii v text :
  json_dumps v = Some text ->
  forallb is_ascii_byte (encode_utf8 text) = true
  /\ encode_utf8 text = map byte_of_ascii (json_text v).
Proof.
  unfold json_dumps. destruct (json_serializable v); [|discriminate].
  intros [= <-]. unfold encode_utf8. rewrite list_ascii_of_string_of_list_ascii.
  destruct (encode_chars_ascii (json_text v) (json_text_ascii v)) as [E H].
  now split.
Qed.

Lemma respects_keeps {U A} ok keep (c : M (World U) A) : respects ok keep c -> keeps ok c.
Proof. intros H w. exact (proj1 (H w)). Qed.

Lemma quiet_ascii_body e : quiet e = true -> ascii_body e = true.
Proof. destruct e; intros H; try discriminate H; reflexivity. Qed.

Lemma quiet_any_event e : quiet e = true -> any_event e = true.
Proof. reflexivity. Qed.

(** X7.  Every body that a wrapper of either module hands to
    [basic_publish] is made of bytes below 128, since [json.dumps] escapes
    what is not ASCII.  This holds of both publishers and of both consumers
    (log envelopes, forwarded results), for every function, argument list
    and world. *)
Theorem published_bodies_are_ascii {U} (func : pyfun U) (args : list PyValue) :
  (forall self, keeps ascii_body (blocking.PublishMessage_call self func args))
  /\ (forall self, keeps ascii_body (blocking.ConsumeMessage_call self func args))
  /\ (forall queue exchange,
         keeps ascii_body (base.publish_message queue exchange func args))
  /\ (forall consume_queue publish_queues exchange production_ready,
         keeps ascii_body
               (base.consume_message consume_queue publish_queues exchange
                                     production_ready func args)).
Proof.
  assert (Hpub : forall x rk v text,
             json_dumps v = Some text -> ascii_body (EvPublish x rk (encode_utf8 text)) = true).
  { intros x rk v text H. exact (proj1 (json_dumps_ascii v text H)). }
  repeat split.
  - intros self. apply (respects_keeps _ no_queue).
    apply respects_PublishMessage_call;
      [exact quiet_ascii_body | reflexivity | reflexivity | intros v text; apply Hpub].
  - intros self. apply (respects_keeps _ no_queue).
    apply respects_ConsumeMessage_call; [exact quiet_ascii_body | reflexivity |].
    intros channel method properties body.
    apply respects_blocking_handler;
      [exact quiet_ascii_body | reflexivity | reflexivity | intros _ v text; apply Hpub].
  - intros queue exchange. apply (respects_keeps _ no_queue).
    apply respects_base_publish_message;
      [exact quiet_ascii_body | reflexivity | reflexivity | intros q v text _; apply Hpub].
  - intros consume_queue publish_queues exchange production_ready.
    apply (respects_keeps _ no_queue).
    apply respects_base_consume_message; [exact quiet_ascii_body | reflexivity |].
    intros channel method properties body.
    apply respects_base_handler; [exact quiet_ascii_body|].
    intros _. repeat split. intros q v text _. apply Hpub.
Qed.

(** X8.  A publisher of either module removes and reorders nothing:
    after the call, however it ends, every queue holds the messages it
    held, in their order, with at most new ones behind them. *)
Theorem publishers_remove_nothing {U} (func : pyfun U) (args : list PyValue)
        (w : World U) (q : string) :
  (forall self,
      exists more,
        messages (snd (blocking.PublishMessage_call self func args w)) q
        = messages w q ++ more)
  /\ (forall queue exchange,
         exists more,
           messages (snd (base.publish_message queue exchange func args w)) q
           = messages w q ++ more).
Proof.
  split.
  - intros self.
    assert (H : respects any_event any_queue (blocking.PublishMessage_call self func args)).
    { apply respects_PublishMessage_call; reflexivity. }
    exact (proj2 (H w) q eq_refl).
  - intros queue exchange.
    assert (H : respects any_event any_queue
                         (base.publish_message queue exchange func args)).
    { apply respects_base_publish_message; reflexivity. }
    exact (proj2 (H w) q eq_refl).
Qed.

Lemma quiet_logs_only self e : quiet e = true -> logs_only self e = true.
Proof. destruct e; intros H; try discriminate H; reflexivity. Qed.

Lemma other_than_self queue : other_than queue queue = false.
Proof. unfold other_than. now rewrite String.eqb_refl. Qed.

(** X9.  A consume registration of [blocking], however it ends.  What
    it publishes goes through the default exchange to its logging queue,
    and only with logging on.  Every queue but the one it consumes keeps
    the messages it held, in their order. *)
Theorem consumer_takes_own_queue_logs_only {U} (self : blocking.ConsumeMessage)
        (func : pyfun U) (args : list PyValue) :
  respects (logs_only self) (other_than (blocking.cm_consume_queue self))
           (blocking.ConsumeMessage_call self func args).
Proof.
  apply respects_ConsumeMessage_call;
    [exact (quiet_logs_only self) | apply other_than_self |].
  intros channel method properties body.
  apply respects_blocking_handler;
    [exact (quiet_logs_only self) | reflexivity | reflexivity |].
  intros Hlog v text _. cbn. now rewrite Hlog, String.eqb_refl.
Qed.

Lemma quiet_forwards_only publish_queues exchange e :
  quiet e = true -> forwards_only publish_queues exchange e = true.
Proof. destruct e; intros H; try discriminate H; reflexivity. Qed.

(** X10.  A consume registration of [base], in either mode and however
    it ends.  What it publishes goes through its exchange with its publish
    queue as routing key, and only when the publish queue is a name that is
    not empty.  Every queue but the one it consumes keeps the messages it
    held, in their order. *)
Theorem base_consumer_takes_and_forwards {U} (consume_queue : string)
        (publish_queues : PyValue) (exchange : string) (production_ready : bool)
        (func : pyfun U) (args : list PyValue) :
  respects (forwards_only publish_queues exchange) (other_than consume_queue)
           (base.consume_message consume_queue publish_queues exchange production_ready
                                 func args).
Proof.
  apply respects_base_consume_message;
    [exact (quiet_forwards_only publish_queues exchange) | apply other_than_self |].
  intros channel method properties body.
  apply respects_base_handler; [exact (quiet_forwards_only publish_queues exchange)|].
  intros Htruthy. repeat split.
  intros q v text -> _. cbn in *.
  now rewrite Htruthy, !String.eqb_refl.
Qed.

(** ** The wrappers of [base], on the default exchange *)

(** The publisher of [base] on a named queue, through the default
    exchange, with the connection open: the text is the last message of
    the queue. *)
Lemma base_publish_message_default {U} queue (func : pyfun U) args v u text (w : World U) :
  queue <> EmptyString ->
  fn_call func args (w_user w) = (Ret v, u) ->
  w_connection w = Some true ->
  json_dumps v = Some text ->
  exists w',
    base.publish_message (PStr queue) "" func args w = (Ret PNone, w')
    /\ w_trace w' = w_trace w ++ [EvCall (fn_name func) args; EvQueueDeclare queue;
                                  EvDumps v; EvPublish "" queue (encode_utf8 text)]
    /\ w_user w' = u
    /\ forall q, messages w' q
                 = if String.eqb q queue then messages w q ++ [encode_utf8 text]
                   else messages w q.
Proof.
  intros Hq Hcall Hconn Hdumps.
  set (w0 := set_user u (log (EvCall (fn_name func) args) w)).
  set (w1 := snd (queue_declare queue w0)).
  set (w2 := log (EvDumps v) w1).
  exists (snd (basic_publish "" queue text w2)).
  destruct (queue_declare_world queue w0) as (Ht & Hu & _). fold w1 in Ht, Hu.
  split; [|split; [|split]].
  - unfold base.publish_message.
    unfold bind at 1, call. cbn [log w_user]. rewrite Hcall.
    unfold bind at 1. rewrite check_connection_open by exact Hconn.
    unfold bind at 1, queue_declare_obj.
    fold w0. rewrite (surjective_pairing (queue_declare queue w0)), queue_declare_result.
    fold w1. unfold bind at 1, dumps. rewrite Hdumps. fold w2.
    reflexivity.
  - cbn [basic_publish snd log set_queues w_trace]. unfold w2. cbn [log w_trace].
    rewrite Ht. unfold w0. cbn [log set_user w_trace]. now rewrite <- !app_assoc.
  - cbn [basic_publish snd log set_queues w_user]. unfold w2. cbn [log w_user].
    rewrite Hu. reflexivity.
  - intros q.
    assert (Hex : is_Some (w_queues w2 !! queue)).
    { pose proof (queue_declare_exists queue w0) as H. unfold declared_name in H.
      destruct (String.eqb_spec queue EmptyString) as [?|_]; [contradiction|]. exact H. }
    rewrite (basic_publish_default_messages queue text w2 q Hex).
    assert (Hm : forall q', messages w2 q' = messages w q').
    { intros q'. change (messages w2 q') with (messages w1 q').
      unfold w1. rewrite queue_declare_messages. reflexivity. }
    now rewrite Hm.
Qed.

Lemma ascii_byte_not_bom b : is_ascii_byte b = true -> Byte.eqb b xef = false.
Proof. destruct b; intros H; try discriminate H; reflexivity. Qed.

Lemma json_body_text v :
  json_native v = true -> json_body v = map byte_of_ascii (json_text v).
Proof.
  intros Hnat. unfold json_body.
  exact (proj2 (json_dumps_ascii v _ (json_dumps_native v Hnat))).
Qed.

Lemma json_body_head v :
  json_native v = true ->
  exists b bs, json_body v = b :: bs /\ is_ascii_byte b = true.
Proof.
  intros Hnat.
  pose proof (proj1 (json_dumps_ascii v _ (json_dumps_native v Hnat))) as Hascii.
  fold (json_body v) in Hascii.
  rewrite json_body_text in * by exact Hnat.
  destruct (json_text_head v Hnat) as (c & t & E & _). rewrite E in *.
  cbn [map forallb] in *. apply andb_prop in Hascii as [Hb _]. eauto.
Qed.

(** [json.loads] on the bytes of a body that a publisher wrote. *)
Lemma loads_bytes_json_body {U} v (w : World U) :
  json_native v = true -> loads_bytes (json_body v) w = (Ret v, w).
Proof.
  intros Hnat. destruct (json_body_head v Hnat) as (b & bs & E & Hb).
  pose proof (json_body_decodes v w Hnat) as Hdec. rewrite E in Hdec.
  unfold loads_bytes. rewrite E.
  destruct bs as [|b1 [|b2 bs]]; try exact Hdec.
  rewrite (ascii_byte_not_bom b Hb). exact Hdec.
Qed.

(** The world in which the one-shot consumer handles the message it took,
    when the connection was open. *)
Lemma fetch_world_open {U} consume_queue (w : World U) body msgs :
  w_connection w = Some true ->
  messages w consume_queue = body :: msgs ->
  let fw := fetch_world consume_queue w in
  w_user fw = w_user w
  /\ w_connection fw = Some true
  /\ w_trace fw = w_trace w ++ [EvQueueDeclare consume_queue; EvGet consume_queue]
  /\ forall q, messages fw q = if String.eqb q consume_queue then msgs else messages w q.
Proof.
  intros Hconn Hmsgs fw. unfold fw, fetch_world.
  rewrite check_connection_open by exact Hconn. cbn [snd].
  destruct (queue_declare_world consume_queue w) as (Ht & Hu & _ & _ & Hc & _).
  pose proof (queue_declare_messages consume_queue w) as Hm.
  set (w1 := snd (queue_declare consume_queue w)) in *.
  unfold basic_get. rewrite take_messages.
  change (messages (log (EvGet consume_queue) w1) consume_queue)
    with (messages w1 consume_queue).
  rewrite Hm, Hmsgs. cbn [snd log set_queues w_user w_connection w_trace].
  rewrite Hu, Hc, Ht, <- app_assoc. repeat split; try assumption.
  intros q. unfold messages at 1. cbn [w_queues set_queues log].
  destruct (String.eqb_spec q consume_queue) as [->|Hne].
  - now rewrite lookup_insert_eq.
  - rewrite lookup_insert_ne by congruence. apply Hm.
Qed.

(** X11.  The one-shot consumer of [base] with a publish queue, named
    queues, the default exchange and the connection open.  When the oldest
    message of the consume queue is the JSON text of [v], the call takes
    it, calls the function once, with [v], and puts the JSON text of what
    the function returned last in the publish queue; the call returns. *)
Theorem base_one_shot_forwards {U} (consume_queue publish_queue : string)
        (func : pyfun U) (w : World U) (v : PyValue) (msgs : list (list byte))
        (r : PyValue) (u : U) (text : string) :
  consume_queue <> EmptyString ->
  publish_queue <> EmptyString ->
  w_connection w = Some true ->
  json_native v = true ->
  messages w consume_queue = json_body v :: msgs ->
  fn_call func [v] (w_user w) = (Ret r, u) ->
  json_dumps r = Some text ->
  exists w',
    base.consume_message consume_queue (PStr publish_queue) "" false func [] w
    = (Ret PNone, w')
    /\ w_user w' = u
    /\ calls_of (fn_name func) (w_trace w') = calls_of (fn_name func) (w_trace w) ++ [[v]]
    /\ messages w' publish_queue
       = (if String.eqb publish_queue consume_queue then msgs
          else messages w publish_queue) ++ [encode_utf8 text]
    /\ (publish_queue <> consume_queue -> messages w' consume_queue = msgs).
Proof.
  intros Hcq Hpq Hconn Hnat Hmsgs Hcall Hdumps.
  destruct (fetch_world_open consume_queue w _ msgs Hconn Hmsgs) as (Hu & Hc & Ht & Hm).
  set (fw := fetch_world consume_queue w) in *.
  rewrite <- Hu in Hcall.
  destruct (base_publish_message_default publish_queue func [v] r u text fw
              Hpq Hcall Hc Hdumps) as (w' & Hrun & Ht' & Hu' & Hm').
  exists w'. split; [|split; [exact Hu'|split; [|split]]].
  - rewrite one_shot_run by (now rewrite check_connection_open).
    rewrite Hmsgs. destruct (json_body_head v Hnat) as (b & bs & E & _).
    rewrite E. rewrite <- E. fold fw.
    unfold bind at 1, base.message_handler. cbn [py_truthy].
    destruct (String.eqb_spec publish_queue EmptyString) as [?|_]; [contradiction|].
    cbn [negb]. unfold bind at 1. rewrite loads_bytes_json_body by exact Hnat.
    rewrite Hrun. reflexivity.
  - rewrite Ht', Ht, !calls_of_app. cbn. rewrite String.eqb_refl, app_nil_r. reflexivity.
  - rewrite Hm', String.eqb_refl, Hm. reflexivity.
  - intros Hne. rewrite Hm'.
    destruct (String.eqb_spec consume_queue publish_queue) as [E|_]; [congruence|].
    now rewrite Hm, String.eqb_refl.
Qed.

(** The message [{x: 1}] waits in [q1]; the function returns [{y: 2}], which goes to [q2]. *)
Lemma base_one_shot_forwards_witness :
  exists w',
    base.consume_message "q1" (PStr "q2") "" false
      (counting "g" (PDict [(PStr "y", PInt 2)])) [] world_with_message
    = (Ret PNone, w')
    /\ w_user w' = 2%nat
    /\ calls_of "g" (w_trace w')
       = calls_of "g" (w_trace world_with_message) ++ [[PDict [(PStr "x", PInt 1)]]]
    /\ messages w' "q2"
       = (if String.eqb "q2" "q1" then [] else messages world_with_message "q2")
           ++ [json_body (PDict [(PStr "y", PInt 2)])]
    /\ ("q2" <> "q1" -> messages w' "q1" = []).
Proof.
  apply (base_one_shot_forwards "q1" "q2" (counting "g" (PDict [(PStr "y", PInt 2)]))
           world_with_message (PDict [(PStr "x", PInt 1)]) []
           (PDict [(PStr "y", PInt 2)]) 2%nat
           (string_of_list_ascii (json_text (PDict [(PStr "y", PInt 2)])))).
  - discriminate.
  - discriminate.
  - vm_compute; reflexivity.
  - reflexivity.
  - vm_compute; reflexivity.
  - vm_compute; reflexivity.
  - vm_compute; reflexivity.
Defined.

(** X12.  A consumer of [base] whose publish queues are [None] (the
    default), empty, or false in another way never calls the wrapped
    function and never encodes or publishes, in either mode.  In the
    one-shot mode, once the connection check has passed, the call returns
    and the oldest message of the consume queue is gone. *)
Theorem base_consumer_without_publish_queue {U} (consume_queue : string)
        (publish_queues : PyValue) (exchange : string) (func : pyfun U) (w : World U) :
  py_truthy publish_queues = false ->
  (forall production_ready args,
      respects quiet (other_than consume_queue)
               (base.consume_message consume_queue publish_queues exchange
                                     production_ready func args))
  /\ (fst (base._check_connection w) = Ret tt ->
      base.consume_message consume_queue publish_queues exchange false func [] w
      = (Ret PNone, fetch_world consume_queue w)
      /\ messages (fetch_world consume_queue w) consume_queue
         = tl (messages w consume_queue)
      /\ w_user (fetch_world consume_queue w) = w_user w).
Proof.
  intros Hfalsy. split.
  - intros production_ready args.
    apply respects_base_consume_message; [auto | apply other_than_self |].
    intros channel method properties body.
    unfold base.message_handler. rewrite Hfalsy. apply respects_ret.
  - intros Hcheck.
    destruct (fetch_world_facts consume_queue w) as (_ & Hu & Hm).
    split; [|split; assumption].
    rewrite one_shot_run by exact Hcheck.
    unfold base.message_handler. rewrite Hfalsy.
    destruct (messages w consume_queue) as [|[|b bs] msgs]; reflexivity.
Qed.

(** The consumer of [q1] without publish queues, a message waiting in [q1]. *)
Lemma base_consumer_without_publish_queue_witness :
  (forall production_ready args,
      respects quiet (other_than "q1")
               (base.consume_message "q1" PNone "" production_ready
                                     (counting "g" PNone) args))
  /\ (fst (base._check_connection world_with_message) = Ret tt ->
      base.consume_message "q1" PNone "" false (counting "g" PNone) [] world_with_message
      = (Ret PNone, fetch_world "q1" world_with_message)
      /\ messages (fetch_world "q1" world_with_message) "q1"
         = tl (messages world_with_message "q1")
      /\ w_user (fetch_world "q1" world_with_message) = w_user world_with_message).
Proof.
  apply (base_consumer_without_publish_queue "q1" PNone "" (counting "g" PNone)
           world_with_message).
  reflexivity.
Defined.

(** X13.  The listening consumer of [base], with the connection open.
    A close by the broker is not caught: the call raises
    [ConnectionClosedByBroker] and the connection of the module is left
    closed.  An interrupt is caught: [stop_consuming] is called and the
    call returns. *)
Theorem base_listening_events {U} (consume_queue : string) (publish_queues : PyValue)
        (exchange : string) (func : pyfun U) (w : World U) (rest : list listen_event) :
  w_connection w = Some true ->
  let ws := log (EvConsume consume_queue) (snd (queue_declare consume_queue w)) in
  (w_sched w = BrokerClose :: rest ->
   base.consume_message consume_queue publish_queues exchange true func [] w
   = (Raise ConnectionClosedByBroker, set_connection (Some false) (set_sched rest ws)))
  /\ (w_sched w = Interrupt :: rest ->
      base.consume_message consume_queue publish_queues exchange true func [] w
      = (Ret PNone, log EvStopConsuming (set_sched rest ws))).
Proof.
  intros Hconn ws.
  destruct (queue_declare_world consume_queue w) as (_ & _ & _ & Hs & _).
  assert (Hrun : base.consume_message consume_queue publish_queues exchange true func [] w
                 = try_except
                     (start_consuming (set_connection (Some false)) consume_queue
                        (base.message_handler publish_queues exchange func))
                     (fun e => match e with
                               | KeyboardInterrupt => Some stop_consuming
                               | _ => None
                               end) ws).
  { unfold base.consume_message.
    unfold bind at 1. rewrite check_connection_open by exact Hconn.
    unfold bind at 1.
    rewrite (surjective_pairing (queue_declare consume_queue w)), queue_declare_result.
    reflexivity. }
  assert (Hsched : w_sched ws = w_sched w) by exact Hs.
  split; intros Hev; rewrite Hrun; unfold try_except, start_consuming;
    rewrite Hsched, Hev; reflexivity.
Qed.

(** The broker closes the connection of the consumer of [q1]. *)
Lemma base_listening_events_witness :
  let w := set_sched [BrokerClose] world_with_message in
  let ws := log (EvConsume "q1") (snd (queue_declare "q1" w)) in
  (w_sched w = BrokerClose :: [] ->
   base.consume_message "q1" (PStr "q2") "" true (counting "g" PNone) [] w
   = (Raise ConnectionClosedByBroker, set_connection (Some false) (set_sched [] ws)))
  /\ (w_sched w = Interrupt :: [] ->
      base.consume_message "q1" (PStr "q2") "" true (counting "g" PNone) [] w
      = (Ret PNone, log EvStopConsuming (set_sched [] ws))).
Proof.
  apply (base_listening_events "q1" (PStr "q2") "" (counting "g" PNone)
           (set_sched [BrokerClose] world_with_message) []).
  vm_compute; reflexivity.
Defined.

(** ** The consumer of [blocking], message by message *)
Section ConsumerRuns.
Context {U : Type}.
Implicit Types (w : World U) (func : pyfun U) (self : blocking.ConsumeMessage).

Lemma messages_same_queues w w' q : w_queues w' = w_queues w -> messages w' q = messages w q.
Proof. unfold messages. now intros ->. Qed.

(** With the broker within reach the setup succeeds; it calls no function,
    publishes nothing and leaves the messages, the user state and the
    schedule as they were. *)
Lemma consumer_setup_world self w :
  reaches (w_net w) = true ->
  exists ws,
    consumer_setup self w = (Ret tt, ws)
    /\ w_sched ws = w_sched w
    /\ w_user ws = w_user w
    /\ (forall q, messages ws q = messages w q)
    /\ grows_by quiet w ws.
Proof.
  intros Hnet.
  assert (Hquiet : respects (U := U) quiet no_queue (consumer_setup self)).
  { unfold consumer_setup, blocking._create_connection_and_channel.
    apply respects_seq; [now apply respects_connect|]. intros _.
    apply respects_seq; [|intros _; now apply respects_basic_consume].
    destruct (negb (String.eqb (blocking.cm_exchange self) "")).
    - apply respects_seq; [now apply respects_exchange_declare|]. intros _.
      apply respects_seq; [now apply respects_queue_declare|]. intros name.
      now apply respects_queue_bind.
    - apply respects_seq; [now apply respects_queue_declare|]. intros _.
      apply respects_ret. }
  specialize (Hquiet w). destruct Hquiet as [Hgrows _].
  revert Hgrows.
  unfold consumer_setup, bind, blocking._create_connection_and_channel.
  rewrite connect_reached by exact Hnet.
  set (w1 := log (EvConnect true) (set_net (tl (w_net w)) w)).
  destruct (negb (String.eqb (blocking.cm_exchange self) "")).
  - destruct (exchange_declare_world (blocking.cm_exchange self)
                (blocking.cm_exchange_type self) w1) as (Hr2 & _ & Hu2 & _ & Hs2 & _ & Hq2 & _).
    rewrite (surjective_pairing (exchange_declare _ _ w1)), Hr2.
    set (w2 := snd (exchange_declare _ _ w1)) in *.
    destruct (queue_declare_world (blocking.cm_consume_queue self) w2)
      as (_ & Hu3 & _ & Hs3 & _).
    pose proof (queue_declare_messages (blocking.cm_consume_queue self) w2) as Hm3.
    rewrite (surjective_pairing (queue_declare _ w2)), queue_declare_result.
    set (w3 := snd (queue_declare _ w2)) in *.
    destruct (queue_bind_world (blocking.cm_exchange self)
                (declared_name (blocking.cm_consume_queue self) w2) w3)
      as (Hr4 & _ & Hu4 & _ & Hs4 & _ & Hq4).
    rewrite (surjective_pairing (queue_bind _ _ w3)), Hr4.
    set (w4 := snd (queue_bind _ _ w3)) in *.
    cbn [snd basic_consume]. intros Hgrows.
    exists (log (EvConsume (blocking.cm_consume_queue self)) w4).
    split; [reflexivity|]. cbn [log w_sched w_user].
    rewrite Hs4, Hs3, Hs2, Hu4, Hu3, Hu2. repeat split; try exact Hgrows.
    intros q. change (messages (log (EvConsume (blocking.cm_consume_queue self)) w4) q)
      with (messages w4 q).
    rewrite (messages_same_queues w3 w4 q Hq4), Hm3.
    now rewrite (messages_same_queues w1 w2 q Hq2).
  - destruct (queue_declare_world (blocking.cm_consume_queue self) w1)
      as (_ & Hu3 & _ & Hs3 & _).
    pose proof (queue_declare_messages (blocking.cm_consume_queue self) w1) as Hm3.
    rewrite (surjective_pairing (queue_declare _ w1)), queue_declare_result.
    set (w3 := snd (queue_declare _ w1)) in *.
    cbn [snd basic_consume ret]. intros Hgrows.
    exists (log (EvConsume (blocking.cm_consume_queue self)) w3).
    split; [reflexivity|]. cbn [log w_sched w_user].
    rewrite Hs3, Hu3. repeat split; try exact Hgrows.
    intros q. change (messages (log (EvConsume (blocking.cm_consume_queue self)) w3) q)
      with (messages w3 q).
    now rewrite Hm3.
Qed.

(** The consumer's call, once the setup has succeeded, is what the
    listening does. *)
Lemma ConsumeMessage_call_listening self func args w ws :
  consumer_setup self w = (Ret tt, ws) ->
  blocking.ConsumeMessage_call self func args w
  = match consumer_listening self func ws with
    | (Raise e, w') =>
        if is_AMQPConnectionError e
        then retry_internal sleep 4 (blocking.ConsumeMessage_prepare_channel self func args)
                            (sleep w')
        else (Raise e, w')
    | r => r
    end.
Proof.
  intros Hsetup. unfold blocking.ConsumeMessage_call.
  rewrite retry_internal_S, prepare_channel_split. unfold bind at 1. rewrite Hsetup.
  reflexivity.
Qed.
End ConsumerRuns.

Lemma calls_of_quiet fn tail : forallb quiet tail = true -> calls_of fn tail = [].
Proof.
  induction tail as [|e tail IH]; [reflexivity|].
  cbn [forallb]. intros [He Ht]%andb_prop.
  destruct e; try discriminate He; cbn; now apply IH.
Qed.


(** X14.  The handler of the consumer of [blocking] with logging on,
    when the log publisher finds the broker out of reach on its five
    attempts: the handler raises the connection error, [send_log] has run
    five times, and the wrapped function is not called for this message
    (the user state and the queues are as they were). *)
Theorem handler_without_log_skips_function {U} (self : blocking.ConsumeMessage)
        (func : pyfun U) (channel method properties : PyValue) (body : list byte)
        (text : string) (v : PyValue) (w : World U) :
  decode_utf8 body = Some text ->
  json_loads text = Some v ->
  blocking.cm_logging self = true ->
  down 5 (w_net w) = true ->
  let args := [channel; method; properties; v] in
  exists w',
    consumer_callback self func channel method properties body w
    = (Raise AMQPConnectionError, w')
    /\ w_trace w' = w_trace w ++ concat (repeat (failed_trace "send_log" args) 4)
                              ++ last_failed_trace "send_log" args
    /\ w_user w' = w_user w
    /\ w_queues w' = w_queues w.
Proof.
  intros Hdec Hloads Hlog Hnet args.
  pose proof (PublishMessage_call_exhausted
                (blocking.PublishMessage_default (blocking.cm_logging_queue self))
                blocking.send_log args w (w_user w)
                (log_envelope channel method properties v) (w_user w) Hnet
                (send_log_returns_n args 4 (w_user w)) eq_refl) as Hrun.
  cbv zeta in Hrun.
  destruct (failed_attempts_broker 4 (@blocking.send_log U) args w) as (Hq & _).
  pose proof (failed_attempts_trace 4 (@blocking.send_log U) args w) as Ht.
  destruct (conn_fails_down
              (blocking.PublishMessage_default (blocking.cm_logging_queue self))
              blocking.send_log args 4 w (w_user w) (down_weaken 4 _ Hnet)
              (send_log_returns_n args 4 (w_user w))) as (_ & Hu & _).
  set (w4 := failed_attempts 4 blocking.send_log args w) in *.
  exists (log (EvConnect false)
              (set_net (tl (w_net w4))
                       (set_user (w_user w) (log (EvCall "send_log" args) w4)))).
  split.
  - unfold consumer_callback, blocking.message_handler.
    unfold bind at 1. rewrite (loads_decoded_ok body text v w Hdec Hloads).
    rewrite Hlog. unfold bind at 1. fold args. rewrite Hrun. reflexivity.
  - unfold log, set_net, set_user; cbn [w_trace w_user w_queues].
    rewrite Ht, Hq. unfold last_failed_trace. cbn [fn_name blocking.send_log].
    rewrite <- !app_assoc. repeat split; reflexivity.
Qed.

(** The default consumer of [q1], the broker out of reach five times. *)
Lemma handler_without_log_skips_function_witness :
  let v := PDict [(PStr "x", PInt 1)] in
  let w := set_net [false; false; false; false; false] empty_world in
  let args := [a_channel; a_method; some_properties; v] in
  exists w',
    consumer_callback (blocking.ConsumeMessage_default "q1") (counting "g" PNone)
                      a_channel a_method some_properties (json_body v) w
    = (Raise AMQPConnectionError, w')
    /\ w_trace w' = w_trace w ++ concat (repeat (failed_trace "send_log" args) 4)
                              ++ last_failed_trace "send_log" args
    /\ w_user w' = w_user w
    /\ w_queues w' = w_queues w.
Proof.
  apply (handler_without_log_skips_function (blocking.ConsumeMessage_default "q1")
           (counting "g" PNone) a_channel a_method some_properties
           (json_body (PDict [(PStr "x", PInt 1)]))
           (string_of_list_ascii (json_text (PDict [(PStr "x", PInt 1)])))
           (PDict [(PStr "x", PInt 1)])
           (set_net [false; false; false; false; false] empty_world)).
  - vm_compute; reflexivity.
  - vm_compute; reflexivity.
  - reflexivity.
  - reflexivity.
Defined.



(** ** Messages are handled in the order of the queue *)
Section InOrder.
Context {U : Type}.
Implicit Types (w : World U) (func : pyfun U) (self : blocking.ConsumeMessage).

(** With logging off the handler decodes and calls. *)
Lemma callback_without_logging self func channel method properties v w :
  blocking.cm_logging self = false ->
  json_native v = true ->
  consumer_callback self func channel method properties (json_body v) w
  = (handler_outcome (fst (fn_call func [v] (w_user w))),
     set_user (snd (fn_call func [v] (w_user w))) (log (EvCall (fn_name func) [v]) w)).
Proof.
  intros Hlog Hnat. unfold consumer_callback, blocking.message_handler.
  unfold bind at 1. rewrite json_body_decodes by exact Hnat.
  rewrite Hlog. unfold bind at 1, ret at 1.
  apply call_then_return.
Qed.

(** The loop over as many deliveries as messages decoded to [vs] wait,
    followed by the event [stop]. *)
Lemma consume_loop_in_order self func channel method properties stop rest more :
  blocking.cm_logging self = false ->
  (forall a u, exists r u', fn_call func a u = (Ret r, u')) ->
  forall vs w,
    Forall (fun v => json_native v = true) vs ->
    messages w (blocking.cm_consume_queue self) = map json_body vs ++ more ->
    exists w',
      consume_loop (fun w => w) (blocking.cm_consume_queue self)
                   (consumer_callback self func)
                   (repeat (Deliver channel method properties) (List.length vs)
                      ++ stop :: rest) w
      = consume_loop (fun w => w) (blocking.cm_consume_queue self)
                     (consumer_callback self func) (stop :: rest) w'
      /\ calls_of (fn_name func) (w_trace w')
         = calls_of (fn_name func) (w_trace w) ++ map (fun v => [v]) vs
      /\ w_user w' = run_calls func vs (w_user w)
      /\ messages w' (blocking.cm_consume_queue self) = more.
Proof.
  intros Hlog Htotal. set (queue := blocking.cm_consume_queue self).
  induction vs as [|v vs IH]; intros w Hnat Hmsgs.
  - exists w. cbn [List.length repeat app map]. rewrite app_nil_r.
    repeat split. exact Hmsgs.
  - apply Forall_cons in Hnat as [Hv Hvs].
    cbn [List.length repeat app map] in *.
    set (sched := repeat (Deliver channel method properties) (List.length vs)
                    ++ stop :: rest).
    set (w1 := set_queues (<[queue := map json_body vs ++ more]>
                             (w_queues (set_sched sched w))) (set_sched sched w)).
    assert (Htake : take queue (set_sched sched w) = Some (json_body v, w1)).
    { rewrite take_messages.
      change (messages (set_sched sched w) queue) with (messages w queue).
      now rewrite Hmsgs. }
    rewrite (delivery_runs_callback _ _ _ channel method properties sched w
               (json_body v) w1 Htake).
    rewrite (callback_without_logging self func channel method properties v w1 Hlog Hv).
    destruct (Htotal [v] (w_user w1)) as (r & u' & Hcall). rewrite Hcall.
    cbn [fst snd handler_outcome].
    set (w2 := set_user u' (log (EvCall (fn_name func) [v]) w1)).
    destruct (IH w2 Hvs) as (w' & Hloop & Hcalls & Huser & Hmore).
    { change (messages w2 queue) with (messages w1 queue).
      unfold messages, w1. cbn [set_queues w_queues]. now rewrite lookup_insert_eq. }
    exists w'. split; [exact Hloop|]. split; [|split; [|exact Hmore]].
    + rewrite Hcalls. unfold w2, w1.
      cbn [set_user log set_queues set_sched w_trace].
      rewrite calls_of_app. cbn. rewrite String.eqb_refl, <- app_assoc. reflexivity.
    + rewrite Huser. unfold w2. cbn [set_user w_user].
      change (w_user w1) with (w_user w) in Hcall. cbn [run_calls]. now rewrite Hcall.
Qed.
End InOrder.

(** X16.  A consume registration of [blocking] with logging off and a
    function that always returns.  When the first messages of the queue are
    the JSON texts of [vs], and there is one delivery for each of them and
    then a close by the broker or an interrupt, the function is called once
    with each of [vs], in the order of the queue; the messages handled are
    gone, those behind them remain, and the call returns. *)
Theorem consumer_handles_in_order {U} (self : blocking.ConsumeMessage) (func : pyfun U)
        (args : list PyValue) (w : World U) (channel method properties : PyValue)
        (vs : list PyValue) (more : list (list byte)) (stop : listen_event)
        (rest : list listen_event) :
  blocking.cm_logging self = false ->
  reaches (w_net w) = true ->
  (forall a u, exists r u', fn_call func a u = (Ret r, u')) ->
  Forall (fun v => json_native v = true) vs ->
  messages w (blocking.cm_consume_queue self) = map json_body vs ++ more ->
  w_sched w = repeat (Deliver channel method properties) (List.length vs) ++ stop :: rest ->
  stop = BrokerClose \/ stop = Interrupt ->
  exists w',
    blocking.ConsumeMessage_call self func args w = (Ret PNone, w')
    /\ calls_of (fn_name func) (w_trace w')
       = calls_of (fn_name func) (w_trace w) ++ map (fun v => [v]) vs
    /\ w_user w' = run_calls func vs (w_user w)
    /\ messages w' (blocking.cm_consume_queue self) = more
    /\ w_sched w' = rest.
Proof.
  intros Hlog Hnet Htotal Hnat Hmsgs Hsched Hstop.
  destruct (consumer_setup_world self w Hnet) as (ws & Hsetup & Hs & Hu & Hm & Hgrows).
  destruct (consume_loop_in_order self func channel method properties stop rest more
              Hlog Htotal vs ws Hnat) as (w1 & Hloop & Hcalls & Huser & Hmore).
  { now rewrite Hm. }
  assert (Hcalls0 : calls_of (fn_name func) (w_trace ws)
                    = calls_of (fn_name func) (w_trace w)).
  { destruct Hgrows as (tail & -> & Hok).
    now rewrite calls_of_app, (calls_of_quiet _ tail Hok), app_nil_r. }
  rewrite (ConsumeMessage_call_listening self func args w ws Hsetup).
  unfold consumer_listening, try_except, start_consuming.
  rewrite Hs, Hsched, Hloop.
  destruct Hstop as [-> | ->]; cbn [consume_loop is_AMQPConnectionError].
  - exists (set_sched rest w1). split; [reflexivity|].
    cbn [set_sched w_trace w_user w_sched].
    change (messages (set_sched rest w1) (blocking.cm_consume_queue self))
      with (messages w1 (blocking.cm_consume_queue self)).
    rewrite Hcalls, Hcalls0, Huser, Hu. now repeat split.
  - exists (log EvStopConsuming (set_sched rest w1)). split; [reflexivity|].
    cbn [log set_sched w_trace w_user w_sched].
    change (messages (log EvStopConsuming (set_sched rest w1)) (blocking.cm_consume_queue self))
      with (messages w1 (blocking.cm_consume_queue self)).
    rewrite calls_of_app, Hcalls, Hcalls0, Huser, Hu. cbn. rewrite app_nil_r.
    now repeat split.
Qed.

(** The consumer of [q1] with logging off: the messages [1] and [2], then an interrupt. *)
Lemma consumer_handles_in_order_witness :
  let self := blocking.mkConsumeMessage "q1" "" "" false "logging" in
  let g := counting "g" PNone in
  let vs := [PInt 1; PInt 2] in
  exists w',
    blocking.ConsumeMessage_call self g [] world_with_two_messages = (Ret PNone, w')
    /\ calls_of (fn_name g) (w_trace w')
       = calls_of (fn_name g) (w_trace world_with_two_messages) ++ map (fun v => [v]) vs
    /\ w_user w' = run_calls g vs (w_user world_with_two_messages)
    /\ messages w' (blocking.cm_consume_queue self) = []
    /\ w_sched w' = [].
Proof.
  apply (consumer_handles_in_order (blocking.mkConsumeMessage "q1" "" "" false "logging")
           (counting "g" PNone) [] world_with_two_messages
           a_channel a_method some_properties [PInt 1; PInt 2] [] Interrupt []).
  - reflexivity.
  - vm_compute; reflexivity.
  - intros a u. exists PNone, (S u). reflexivity.
  - repeat constructor.
  - vm_compute; reflexivity.
  - reflexivity.
  - right. reflexivity.
Defined.

(** ** The log envelope *)

(** X17.  [send_log] returns the envelope with the [str()] of the
    channel, the method and the properties, and with the body as it is.
    The envelope can be encoded whenever the body can, whatever the three
    objects are; and for a body that [json.loads] can give back, the text
    of the envelope decodes to the very same envelope. *)
Theorem send_log_envelope_roundtrip {U} (channel method properties body : PyValue) (u : U) :
  json_serializable body = true ->
  exists text,
    fn_call blocking.send_log [channel; method; properties; body] u
    = (Ret (log_envelope channel method properties body), u)
    /\ json_dumps (log_envelope channel method properties body) = Some text
    /\ (json_native body = true ->
        json_loads text = Some (log_envelope channel method properties body)).
Proof.
  intros Hser.
  exists (string_of_list_ascii (json_text (log_envelope channel method properties body))).
  split; [reflexivity|]. split; [now apply log_envelope_dumps|].
  intros Hnat. apply json_loads_dumps; [|now apply log_envelope_dumps].
  unfold log_envelope. cbn [json_native forallb fst snd map item_key distinct existsb].
  rewrite Hnat. reflexivity.
Qed.

(** The envelope of a delivery whose body is [[1, null]]. *)
Lemma send_log_envelope_roundtrip_witness :
  exists text,
    fn_call blocking.send_log [a_channel; a_method; some_properties; PList [PInt 1; PNone]]
            0%nat
    = (Ret (log_envelope a_channel a_method some_properties (PList [PInt 1; PNone])), 0%nat)
    /\ json_dumps (log_envelope a_channel a_method some_properties (PList [PInt 1; PNone]))
       = Some text
    /\ (json_native (PList [PInt 1; PNone]) = true ->
        json_loads text
        = Some (log_envelope a_channel a_method some_properties (PList [PInt 1; PNone]))).
Proof.
  apply (send_log_envelope_roundtrip a_channel a_method some_properties
           (PList [PInt 1; PNone]) 0%nat).
  reflexivity.
Defined.

(** ** What the decoder returns *)
Section ScannerInvariant.
Variable P : PyValue -> bool.
Hypothesis P_none : P PNone = true.
Hypothesis P_bool : forall b, P (PBool b) = true.
Hypothesis P_int : forall z, P (PInt z) = true.
Hypothesis P_str : forall s, P (PStr s) = true.
Hypothesis P_list : forall vs, forallb P vs = true -> P (PList vs) = true.
Hypothesis P_dict :
  forall ps, forallb (fun kv : string * PyValue => P (snd kv)) ps = true ->
             P (PDict (dict_of_pairs ps)) = true.

(** A property that holds of the atoms, and of lists and decoded dicts
    when it holds inside them, holds of whatever the scanner returns. *)
Lemma scan_invariant fuel :
  (forall s v r, scan_once fuel s = Some (v, r) -> P v = true)
  /\ (forall s vs r, scan_elements fuel s = Some (vs, r) -> forallb P vs = true)
  /\ (forall s ps r, scan_members fuel s = Some (ps, r) ->
                     forallb (fun kv : string * PyValue => P (snd kv)) ps = true).
Proof.
  induction fuel as [|fuel (IHv & IHe & IHm)];
    [repeat split; intros; discriminate|].
  split; [|split].
  - intros s v r H.
    destruct s as [|c s]; [discriminate H|].
    destruct (dispatch c) eqn:Hd.
    + apply dispatch_cases in Hd.
      destruct Hd as [-> | [-> | [-> | [-> | [-> | ->]]]]]; cbn [scan_once] in H.
      * unfold quote_char in H.
        destruct (scanstring s) as [[cs rest]|]; [|discriminate H].
        injection H as <- _. apply P_str.
      * destruct (skip_ws s) as [|c' s'] eqn:Hs.
        -- destruct (scan_members fuel []) as [[ps rest]|] eqn:Hm; [|discriminate H].
           injection H as <- _. apply P_dict. eauto.
        -- destruct (Ascii.eqb c' "}"%char) eqn:Hc.
           ++ apply Ascii.eqb_eq in Hc; subst c'. injection H as <- _.
              now apply (P_dict []).
           ++ assert (H' : match scan_members fuel (c' :: s') with
                           | Some (pairs, rest) => Some (PDict (dict_of_pairs pairs), rest)
                           | None => None
                           end = Some (v, r)).
              { revert H Hc. destruct c' as [[] [] [] [] [] [] [] []]; intros H Hc;
                  try discriminate Hc; exact H. }
              destruct (scan_members fuel (c' :: s')) as [[ps rest]|] eqn:Hm;
                [|discriminate H'].
              injection H' as <- _. apply P_dict. eauto.
      * destruct (skip_ws s) as [|c' s'] eqn:Hs.
        -- destruct (scan_elements fuel []) as [[vs rest]|] eqn:He; [|discriminate H].
           injection H as <- _. apply P_list. eauto.
        -- destruct (Ascii.eqb c' "]"%char) eqn:Hc.
           ++ apply Ascii.eqb_eq in Hc; subst c'. injection H as <- _.
              now apply (P_list []).
           ++ assert (H' : match scan_elements fuel (c' :: s') with
                           | Some (vs, rest) => Some (PList vs, rest)
                           | None => None
                           end = Some (v, r)).
              { revert H Hc. destruct c' as [[] [] [] [] [] [] [] []]; intros H Hc;
                  try discriminate Hc; exact H. }
              destruct (scan_elements fuel (c' :: s')) as [[vs rest]|] eqn:He;
                [|discriminate H'].
              injection H' as <- _. apply P_list. eauto.
      * do 3 (destruct s as [|[[] [] [] [] [] [] [] []] s]; try discriminate H).
        injection H as <- _. apply P_none.
      * do 3 (destruct s as [|[[] [] [] [] [] [] [] []] s]; try discriminate H).
        injection H as <- _. apply P_bool.
      * do 4 (destruct s as [|[[] [] [] [] [] [] [] []] s]; try discriminate H).
        injection H as <- _. apply P_bool.
    + rewrite scan_once_other in H by exact Hd.
      apply scan_number_int in H as [z ->]. apply P_int.
  - intros s vs r H. cbn [scan_elements] in H.
    destruct (scan_once fuel s) as [[v r1]|] eqn:Hv; [|discriminate H].
    apply IHv in Hv.
    destruct (skip_ws r1) as [|c r2]; [discriminate H|].
    destruct (Ascii.eqb c ","%char) eqn:Hcomma.
    + apply Ascii.eqb_eq in Hcomma; subst c.
      destruct (scan_elements fuel (skip_ws r2)) as [[vs' rest]|] eqn:He; [|discriminate H].
      injection H as <- _. cbn [forallb]. rewrite Hv. eauto.
    + destruct (Ascii.eqb c "]"%char) eqn:Hclose.
      * apply Ascii.eqb_eq in Hclose; subst c.
        injection H as <- _. cbn [forallb]. now rewrite Hv.
      * exfalso. revert H Hcomma Hclose.
        destruct c as [[] [] [] [] [] [] [] []]; intros H Hcomma Hclose;
          discriminate.
  - intros s ps r H. cbn [scan_members] in H.
    destruct s as [|c s]; [discriminate H|].
    destruct (Ascii.eqb c quote_char) eqn:Hq.
    2:{ exfalso. revert H Hq.
        destruct c as [[] [] [] [] [] [] [] []]; intros H Hq; discriminate. }
    apply Ascii.eqb_eq in Hq; subst c. unfold quote_char in H.
    destruct (scanstring s) as [[k r1]|]; [|discriminate H].
    destruct (skip_ws r1) as [|c r2]; [discriminate H|].
    destruct (Ascii.eqb c ":"%char) eqn:Hcolon.
    2:{ exfalso. revert H Hcolon.
        destruct c as [[] [] [] [] [] [] [] []]; intros H Hcolon; discriminate. }
    apply Ascii.eqb_eq in Hcolon; subst c.
    destruct (scan_once fuel (skip_ws r2)) as [[v r3]|] eqn:Hv; [|discriminate H].
    apply IHv in Hv.
    destruct (skip_ws r3) as [|c r4]; [discriminate H|].
    destruct (Ascii.eqb c ","%char) eqn:Hcomma.
    + apply Ascii.eqb_eq in Hcomma; subst c.
      destruct (scan_members fuel (skip_ws r4)) as [[ps' rest]|] eqn:Hm; [|discriminate H].
      injection H as <- _. cbn [forallb snd]. rewrite Hv. eauto.
    + destruct (Ascii.eqb c "}"%char) eqn:Hclose.
      * apply Ascii.eqb_eq in Hclose; subst c.
        injection H as <- _. cbn [forallb snd]. now rewrite Hv.
      * exfalso. revert H Hcomma Hclose.
        destruct c as [[] [] [] [] [] [] [] []]; intros H Hcomma Hclose;
          discriminate.
Qed.
End ScannerInvariant.

Lemma dict_set_native_items k x items :
  native_items items = true -> json_native x = true ->
  native_items (dict_set k x items) = true.
Proof.
  intros Hitems Hx. induction items as [|[k' x'] items IH]; simpl.
  - now rewrite Hx.
  - unfold native_items in Hitems. cbn [forallb fst snd] in Hitems.
    apply andb_true_iff in Hitems as [Hhead Htail].
    destruct k'; try discriminate Hhead.
    destruct (String.eqb s k); unfold native_items; cbn [forallb fst snd].
    + now rewrite Hx.
    + rewrite Hhead. now apply IH.
Qed.

(** Storing under a key keeps the keys when the key is among them, and
    puts it last when it is not. *)
Lemma dict_set_keys k x items :
  native_items items = true ->
  map item_key (dict_set k x items)
  = if existsb (String.eqb k) (map item_key items) then map item_key items
    else map item_key items ++ [k].
Proof.
  intros Hitems. induction items as [|[k' x'] items IH]; [reflexivity|].
  unfold native_items in Hitems. cbn [forallb fst snd] in Hitems.
  apply andb_true_iff in Hitems as [Hhead Htail].
  destruct k' as [| | |s| | | |]; try discriminate Hhead.
  cbn [dict_set map existsb]. unfold item_key at 2 4 5. cbn [fst].
  rewrite (String.eqb_sym k s).
  destruct (String.eqb s k); cbn [orb map].
  - reflexivity.
  - unfold item_key at 1. cbn [fst]. rewrite (IH Htail).
    now destruct (existsb (String.eqb k) (map item_key items)).
Qed.

Lemma distinct_snoc keys k :
  distinct keys = true -> existsb (String.eqb k) keys = false ->
  distinct (keys ++ [k]) = true.
Proof.
  induction keys as [|a keys IH]; [reflexivity|].
  cbn [distinct existsb app]. intros [Ha Hd]%andb_prop [Hka Hk]%orb_false_elim.
  rewrite existsb_app. cbn [existsb]. rewrite (String.eqb_sym a k), Hka.
  apply negb_true_iff in Ha. rewrite Ha. cbn. now apply IH.
Qed.

Lemma dict_set_native k x items :
  json_native (PDict items) = true -> json_native x = true ->
  json_native (PDict (dict_set k x items)) = true.
Proof.
  cbn [json_native]. fold (native_items items). fold (native_items (dict_set k x items)).
  intros [Hitems Hd]%andb_prop Hx.
  rewrite (dict_set_native_items k x items Hitems Hx), (dict_set_keys k x items Hitems).
  cbn [andb].
  destruct (existsb (String.eqb k) (map item_key items)) eqn:Hk; [exact Hd|].
  now apply distinct_snoc.
Qed.

Lemma dict_of_pairs_native pairs :
  forallb (fun kv : string * PyValue => json_native (snd kv)) pairs = true ->
  json_native (PDict (dict_of_pairs pairs)) = true.
Proof.
  unfold dict_of_pairs.
  assert (H : forall acc,
             json_native (PDict acc) = true ->
             forallb (fun kv : string * PyValue => json_native (snd kv)) pairs = true ->
             json_native (PDict (fold_left (fun items kv => dict_set (fst kv) (snd kv) items)
                                           pairs acc)) = true).
  { induction pairs as [|[k x] pairs IH]; intros acc Hacc Hall; [exact Hacc|].
    cbn [forallb snd] in Hall. apply andb_true_iff in Hall as [Hx Hall].
    cbn [fold_left fst snd]. apply IH; [now apply dict_set_native | exact Hall]. }
  now apply H.
Qed.

(** What the decoder of this embedding returns (floats being outside it)
    is made of [None], booleans, ints, strings, lists and dicts with
    distinct string keys. *)
Lemma json_loads_native text v : json_loads text = Some v -> json_native v = true.
Proof.
  unfold json_loads. intros H.
  destruct (scan_once _ _) as [[v' rest]|] eqn:Hscan; [|discriminate H].
  destruct (skip_ws rest); [|discriminate H].
  injection H as <-.
  eapply (proj1 (scan_invariant json_native _ _ _ _ _ _ _)); eauto.
  Unshelve.
  all: try reflexivity.
  - intros vs Hvs. exact Hvs.
  - exact dict_of_pairs_native.
Qed.

(** ** What a consumer reads from what a publisher wrote *)

Lemma json_text_head_serializable v :
  json_serializable v = true ->
  exists c t, json_text v = c :: t /\ value_head c = true.
Proof.
  destruct v as [|[]|z|s|l|l|items|r]; simpl; intros H; try discriminate H;
    try (do 2 eexists; split; reflexivity).
  destruct (int_text_head z) as (c & t & -> & Hc).
  exists c, t. split; [reflexivity | now apply number_head_value].
Qed.

Lemma join_items_head_serializable x l :
  json_serializable x = true ->
  exists c t, join_items (map json_text (x :: l)) = c :: t /\ value_head c = true.
Proof.
  intros Hx. destruct (json_text_head_serializable x Hx) as (c & t & Hc & Hv).
  simpl. rewrite Hc. destruct (map json_text l); simpl; eauto.
Qed.

Lemma scan_elements_normal l :
  l <> [] ->
  Forall (fun x => json_serializable x = true /\ scans_to x (json_normal x)) l ->
  forall fuel rest,
    (List.length (join_items (map json_text l)) < fuel)%nat ->
    scan_elements fuel (join_items (map json_text l) ++ "]"%char :: rest)
    = Some (map json_normal l, rest).
Proof.
  induction l as [|x l IH]; [congruence|].
  intros _ Hall fuel rest Hfuel.
  inversion Hall as [|x' l' [Hx Hback] Hall']; subst.
  destruct fuel as [|fuel]; [lia|].
  destruct l as [|y l].
  - simpl in *. rewrite Hback; [reflexivity | lia | reflexivity].
  - rewrite join_items_cons in Hfuel |- *.
    rewrite !length_app in Hfuel. cbn [List.length] in Hfuel.
    rewrite <- !app_assoc. cbn [app scan_elements].
    rewrite Hback; [| lia | reflexivity].
    cbn [skip_ws is_ws].
    inversion Hall' as [|y' l'' [Hy _] _]; subst.
    destruct (join_items_head_serializable y l Hy) as (c & t & Hc & Hv).
    assert (Hskip : skip_ws (join_items (map json_text (y :: l)) ++ "]"%char :: rest)
                    = join_items (map json_text (y :: l)) ++ "]"%char :: rest).
    { rewrite Hc. simpl app. now apply skip_ws_value_head. }
    rewrite Hskip, IH; [reflexivity | congruence | exact Hall' | lia].
Qed.

Lemma member_text_key k t : member_text k t = member_text (PStr (key_text k)) t.
Proof. reflexivity. Qed.

Lemma scan_members_normal items :
  items <> [] ->
  Forall (fun kv => json_serializable (snd kv) = true
                    /\ scans_to (snd kv) (json_normal (snd kv))) items ->
  forall fuel rest,
    (List.length (join_items (map (fun kv => member_text (fst kv) (json_text (snd kv)))
                                  items)) < fuel)%nat ->
    scan_members fuel
      (join_items (map (fun kv => member_text (fst kv) (json_text (snd kv))) items)
         ++ "}"%char :: rest)
    = Some (map (fun kv => (key_text (fst kv), json_normal (snd kv))) items, rest).
Proof.
  induction items as [|[k v] items IH]; [congruence|].
  intros _ Hall fuel rest Hfuel.
  inversion Hall as [|kv' l' [Hv Hback] Hall']; subst.
  cbn [fst snd] in Hv, Hback.
  destruct fuel as [|fuel]; [lia|].
  destruct (json_text_head_serializable v Hv) as (c & t & Hc & Hhead).
  assert (Hskipv : forall tail, skip_ws (json_text v ++ tail) = json_text v ++ tail).
  { intros tail. rewrite Hc. simpl app. now apply skip_ws_value_head. }
  destruct items as [|kv2 items].
  - cbn [map join_items fst snd] in *.
    rewrite member_text_key, member_text_str in Hfuel |- *.
    cbn [List.length] in Hfuel. rewrite !length_app in Hfuel. cbn [List.length] in Hfuel.
    cbn [app scan_members].
    rewrite <- ?app_assoc. cbn [app].
    rewrite scanstring_text. cbn [skip_ws is_ws].
    rewrite Hskipv, Hback; [| lia | reflexivity].
    cbn [skip_ws is_ws].
    now rewrite string_of_list_ascii_of_string.
  - rewrite join_items_cons in Hfuel |- *. cbn [fst snd] in *.
    rewrite member_text_key, member_text_str in Hfuel |- *.
    rewrite !length_app in Hfuel.
    cbn [List.length] in Hfuel. rewrite !length_app in Hfuel. cbn [List.length] in Hfuel.
    cbn [app scan_members].
    rewrite <- ?app_assoc. cbn [app].
    rewrite scanstring_text. cbn [skip_ws is_ws].
    rewrite <- ?app_assoc. cbn [app].
    rewrite Hskipv, Hback; [| lia | reflexivity].
    cbn [skip_ws is_ws].
    destruct (join_members_head
                (fun kv => member_text (fst kv) (json_text (snd kv))) kv2 items
                (member_text_head _ _)) as [t' Ht'].
    assert (Hskip : forall tail,
               skip_ws (join_items (map (fun kv => member_text (fst kv) (json_text (snd kv)))
                                        (kv2 :: items)) ++ tail)
               = join_items (map (fun kv => member_text (fst kv) (json_text (snd kv)))
                                 (kv2 :: items)) ++ tail).
    { intros tail. rewrite Ht'. reflexivity. }
    rewrite Hskip, IH; [| congruence | exact Hall' | lia].
    cbn [fst snd map].
    now rewrite string_of_list_ascii_of_string.
Qed.

(** The scanner reads every text the encoder writes. *)
Lemma scan_once_serializable v : json_serializable v = true -> scans_to v (json_normal v).
Proof.
  induction v as [| b | z | s | l IH | l IH | items IH | r] using PyValue_nested_ind;
    intros Hser; try discriminate Hser; intros fuel rest Hfuel Hrest.
  - destruct fuel; [cbn in Hfuel; lia | reflexivity].
  - destruct fuel; [destruct b; cbn in Hfuel; lia | destruct b; reflexivity].
  - destruct (int_text_head z) as (c & t & Hc & Hhead).
    destruct fuel; [cbn in Hfuel; rewrite Hc in Hfuel; cbn in Hfuel; lia|].
    cbn [json_text json_normal]. rewrite Hc. cbn [app].
    rewrite scan_once_number by exact Hhead.
    change (c :: t ++ rest) with ((c :: t) ++ rest). rewrite <- Hc.
    now apply scan_number_text.
  - destruct fuel; [cbn in Hfuel; lia|].
    cbn [json_text json_normal]. unfold quoted. cbn [app]. rewrite <- app_assoc.
    cbn [app scan_once].
    rewrite scanstring_text. now rewrite string_of_list_ascii_of_string.
  - cbn [json_serializable] in Hser.
    assert (Hall : Forall (fun x => json_serializable x = true
                                    /\ scans_to x (json_normal x)) l).
    { rewrite forallb_forall in Hser. rewrite List.Forall_forall in IH |- *.
      intros x Hx. split; [now apply Hser | apply IH; [exact Hx | now apply Hser]]. }
    destruct fuel; [cbn in Hfuel; lia|].
    cbn [json_text json_normal] in *. cbn [app]. rewrite <- app_assoc. cbn [app].
    destruct l as [|x l]; [reflexivity|].
    inversion Hall as [|x' l' [Hx _] _]; subst.
    destruct (join_items_head_serializable x l Hx) as (c & t & Hc & Hhead).
    rewrite Hc. cbn [app]. rewrite scan_once_array by exact Hhead.
    change (c :: t ++ "]"%char :: rest) with ((c :: t) ++ "]"%char :: rest).
    rewrite <- Hc, scan_elements_normal; [reflexivity | congruence | exact Hall |].
    cbn [List.length] in Hfuel. rewrite length_app in Hfuel.
    cbn [List.length] in Hfuel. lia.
  - cbn [json_serializable] in Hser.
    assert (Hall : Forall (fun x => json_serializable x = true
                                    /\ scans_to x (json_normal x)) l).
    { rewrite forallb_forall in Hser. rewrite List.Forall_forall in IH |- *.
      intros x Hx. split; [now apply Hser | apply IH; [exact Hx | now apply Hser]]. }
    destruct fuel; [cbn in Hfuel; lia|].
    cbn [json_text json_normal] in *. cbn [app]. rewrite <- app_assoc. cbn [app].
    destruct l as [|x l]; [reflexivity|].
    inversion Hall as [|x' l' [Hx _] _]; subst.
    destruct (join_items_head_serializable x l Hx) as (c & t & Hc & Hhead).
    rewrite Hc. cbn [app]. rewrite scan_once_array by exact Hhead.
    change (c :: t ++ "]"%char :: rest) with ((c :: t) ++ "]"%char :: rest).
    rewrite <- Hc, scan_elements_normal; [reflexivity | congruence | exact Hall |].
    cbn [List.length] in Hfuel. rewrite length_app in Hfuel.
    cbn [List.length] in Hfuel. lia.
  - cbn [json_serializable] in Hser.
    assert (Hall : Forall (fun kv => json_serializable (snd kv) = true
                                     /\ scans_to (snd kv) (json_normal (snd kv))) items).
    { rewrite forallb_forall in Hser. rewrite List.Forall_forall in IH |- *.
      intros kv Hkv. specialize (Hser kv Hkv).
      destruct (key_str (fst kv)); [|discriminate Hser].
      split; [exact Hser | now apply (IH kv Hkv)]. }
    destruct fuel; [cbn in Hfuel; lia|].
    cbn [json_text json_normal] in *. cbn [app]. rewrite <- app_assoc. cbn [app].
    destruct items as [|kv items]; [reflexivity|].
    destruct (join_members_head
                (fun kv => member_text (fst kv) (json_text (snd kv))) kv items
                (member_text_head _ _)) as [t Ht].
    rewrite Ht. cbn [app]. rewrite scan_once_object.
    change (quote_char :: t ++ "}"%char :: rest)
      with ((quote_char :: t) ++ "}"%char :: rest).
    rewrite <- Ht, scan_members_normal; [reflexivity | congruence | exact Hall |].
    cbn [List.length] in Hfuel. rewrite length_app in Hfuel.
    cbn [List.length] in Hfuel. lia.
Qed.

(** [json.loads(json.dumps(v))] for every value that [json.dumps]
    accepts. *)
Lemma json_loads_dumps_normal v text :
  json_dumps v = Some text -> json_loads text = Some (json_normal v).
Proof.
  unfold json_dumps. destruct (json_serializable v) eqn:Hser; [|discriminate].
  intros [= <-].
  unfold json_loads. rewrite list_ascii_of_string_of_list_ascii.
  destruct (json_text_head_serializable v Hser) as (c & t & Hc & Hhead).
  assert (Hskip : skip_ws (json_text v) = json_text v).
  { rewrite Hc. now apply skip_ws_value_head. }
  rewrite Hskip.
  pose proof (scan_once_serializable v Hser (S (List.length (json_text v))) []) as Hscan.
  rewrite app_nil_r in Hscan. rewrite Hscan; [reflexivity | lia | exact I].
Qed.

Lemma loads_bytes_ascii {U} body (w : World U) :
  forallb is_ascii_byte body = true -> loads_bytes body w = loads_decoded body w.
Proof.
  intros H. unfold loads_bytes.
  destruct body as [|b0 [|b1 [|b2 body]]]; try reflexivity.
  cbn [forallb] in H. apply andb_prop in H as [Hb _].
  now rewrite (ascii_byte_not_bom b0 Hb).
Qed.

(** X18.  Every body that a publisher writes is decoded by the handlers of
    both modules, whatever value of [None], booleans, ints, strings, lists,
    tuples and dicts (with keys that [json.dumps] accepts) it was written
    from.  The handler gets the value with its tuples as lists and its
    dict keys as the strings the encoder wrote, a key met again keeping
    its place and taking the later value.  What it gets is made of [None],
    booleans, ints, strings, lists and dicts with distinct string keys, it
    decodes from its own body to itself, and it is the value that was
    published when that was already of this kind. *)
Theorem published_body_decodes {U} (v : PyValue) (text : string) (w : World U) :
  json_dumps v = Some text ->
  loads_decoded (encode_utf8 text) w = (Ret (json_normal v), w)
  /\ loads_bytes (encode_utf8 text) w = (Ret (json_normal v), w)
  /\ json_native (json_normal v) = true
  /\ loads_decoded (json_body (json_normal v)) w = (Ret (json_normal v), w)
  /\ (json_native v = true -> json_normal v = v).
Proof.
  intros Hdumps.
  pose proof (json_loads_dumps_normal v text Hdumps) as Hloads.
  pose proof (json_loads_native text (json_normal v) Hloads) as Hnat.
  assert (Hdec : loads_decoded (encode_utf8 text) w = (Ret (json_normal v), w)).
  { apply (loads_decoded_ok _ text); [apply decode_utf8_encode | exact Hloads]. }
  split; [exact Hdec|]. split; [|split; [exact Hnat|split]].
  - rewrite loads_bytes_ascii; [exact Hdec|].
    exact (proj1 (json_dumps_ascii v text Hdumps)).
  - now apply json_body_decodes.
  - intros Hv. pose proof (json_loads_dumps v text Hv Hdumps) as Hback. congruence.
Qed.

(** A tuple with a dict in which the keys [2] and ["2"] meet. *)
Lemma published_body_decodes_witness :
  let v := PTuple [PInt 1; PDict [(PInt 2, PNone); (PStr "2", PBool true)]] in
  let v' := PList [PInt 1; PDict [(PStr "2", PBool true)]] in
  loads_decoded (json_body v) empty_world = (Ret v', empty_world)
  /\ loads_bytes (json_body v) empty_world = (Ret v', empty_world)
  /\ json_native v' = true
  /\ loads_decoded (json_body v') empty_world = (Ret v', empty_world)
  /\ (json_native v = true -> v' = v).
Proof.
  apply (published_body_decodes
           (PTuple [PInt 1; PDict [(PInt 2, PNone); (PStr "2", PBool true)]])
           (string_of_list_ascii
              (json_text (PTuple [PInt 1; PDict [(PInt 2, PNone); (PStr "2", PBool true)]])))
           empty_world).
  reflexivity.
Defined.

Lemma count_publishes_quiet tail : forallb quiet tail = true -> count_publishes tail = 0%nat.
Proof.
  induction tail as [|e tail IH]; [reflexivity|].
  cbn [forallb]. intros [He Ht]%andb_prop.
  destruct e; try discriminate He; cbn; now apply IH.
Qed.

(** X19.  One call of the publisher of [base], whatever the queue
    object, the function and the world: [basic_publish] is called exactly
    once when the call returns, and not at all when it raises or does not
    return. *)
Theorem base_publisher_publishes_on_return {U} (queue : PyValue) (exchange : string)
        (func : pyfun U) (args : list PyValue) (w : World U) :
  let run := base.publish_message queue exchange func args w in
  count_publishes (w_trace (snd run))
  = (count_publishes (w_trace w) + if returned (fst run) then 1 else 0)%nat.
Proof.
  cbv zeta.
  destruct (base.publish_message queue exchange func args w) as [r w'] eqn:Hrun.
  cbn [fst snd]. revert Hrun. unfold base.publish_message.
  unfold bind at 1, call. cbn [log w_user].
  destruct (fn_call func args (w_user w)) as [[v|e|] u].
  2,3: intros [= <- <-]; cbn [returned log set_user w_trace];
       rewrite count_publishes_app;
       change (count_publishes [EvCall (fn_name func) args]) with 0%nat; lia.
  set (w0 := set_user u _).
  assert (Hw0 : count_publishes (w_trace w0) = count_publishes (w_trace w)).
  { unfold w0. cbn [set_user log w_trace]. rewrite count_publishes_app.
    change (count_publishes [EvCall (fn_name func) args]) with 0%nat. lia. }
  unfold bind at 1.
  assert (Hcheck : respects (U := U) quiet no_queue base._check_connection)
    by now apply respects_check_connection.
  destruct (Hcheck w0) as [(tail & Ht & Hok) _].
  destruct (base._check_connection w0) as [[[]|e|] w1]; cbn [snd] in Ht.
  2,3: intros [= <- <-]; cbn [returned];
       rewrite Ht, count_publishes_app, (count_publishes_quiet tail Hok); lia.
  assert (Hw1 : count_publishes (w_trace w1) = count_publishes (w_trace w)).
  { rewrite Ht, count_publishes_app, (count_publishes_quiet tail Hok). lia. }
  unfold bind at 1.
  destruct queue as [| | |q| | | |]; cbn [queue_declare_obj raise];
    try (intros [= <- <-]; cbn [returned]; lia).
  rewrite (surjective_pairing (queue_declare q w1)), queue_declare_result.
  destruct (queue_declare_world q w1) as (Ht2 & _).
  set (w2 := snd (queue_declare q w1)) in *.
  unfold bind at 1, dumps.
  destruct (json_dumps v) as [text|]; intros [= <- <-];
    cbn [returned log w_trace set_queues];
    rewrite Ht2, !count_publishes_app;
    change (count_publishes [EvQueueDeclare q]) with 0%nat;
    change (count_publishes [EvDumps v]) with 0%nat;
    try change (count_publishes [EvPublish exchange q (encode_utf8 text)]) with 1%nat;
    lia.
Qed.

(** ** The consumer of [blocking] when the broker stays out of reach *)
Section ConsumerExhausted.
Context {U : Type}.
Implicit Types (w : World U) (func : pyfun U) (self : blocking.ConsumeMessage).

Lemma prepare_channel_unreached self func args w :
  reaches (w_net w) = false ->
  blocking.ConsumeMessage_prepare_channel self func args w
  = (Raise AMQPConnectionError, log (EvConnect false) (set_net (tl (w_net w)) w)).
Proof.
  intros Hnet. unfold blocking.ConsumeMessage_prepare_channel, bind,
    blocking._create_connection_and_channel.
  now rewrite connect_unreached by exact Hnet.
Qed.

Lemma conn_fails_unreached self func args k :
  forall w,
    down k (w_net w) = true ->
    conn_fails sleep (blocking.ConsumeMessage_prepare_channel self func args) k w
               (unreached_attempts k w)
    /\ w_net (unreached_attempts k w) = skipn k (w_net w).
Proof.
  induction k as [|k IH]; intros w Hnet; [split; [constructor | reflexivity]|].
  apply down_S in Hnet as [Hdown Hnet].
  destruct (IH (sleep (log (EvConnect false) (set_net (tl (w_net w)) w))) Hnet) as [Hf Hn].
  cbn [unreached_attempts]. split.
  - eapply conn_fails_S; [now apply prepare_channel_unreached | reflexivity | exact Hf].
  - rewrite Hn. cbn. destruct (w_net w); [discriminate Hdown | reflexivity].
Qed.

Lemma unreached_attempts_world k :
  forall w,
    w_trace (unreached_attempts k w)
    = w_trace w ++ concat (repeat unreached_trace k)
    /\ w_user (unreached_attempts k w) = w_user w
    /\ w_queues (unreached_attempts k w) = w_queues w
    /\ w_sched (unreached_attempts k w) = w_sched w.
Proof.
  induction k as [|k IH]; intros w.
  { cbn [unreached_attempts repeat concat]. rewrite app_nil_r. repeat split; reflexivity. }
  cbn [unreached_attempts repeat concat].
  destruct (IH (sleep (log (EvConnect false) (set_net (tl (w_net w)) w))))
    as (Ht & Hu & Hq & Hs).
  rewrite Ht, Hu, Hq, Hs. unfold sleep.
  cbn [log set_net w_trace w_user w_queues w_sched].
  unfold unreached_trace at 2. rewrite <- !app_assoc. repeat split; reflexivity.
Qed.
End ConsumerExhausted.

(** X20.  A consume registration of [blocking] when the broker is out
    of reach on five attempts in a row: the call raises the connection
    error after five connection attempts and four sleeps; it has declared
    nothing and has not listened (the schedule is as it was), and the
    queues and the user state are untouched. *)
Theorem consumer_gives_up {U} (self : blocking.ConsumeMessage) (func : pyfun U)
        (args : list PyValue) (w : World U) :
  down 5 (w_net w) = true ->
  exists w',
    blocking.ConsumeMessage_call self func args w = (Raise AMQPConnectionError, w')
    /\ w_trace w' = w_trace w ++ concat (repeat unreached_trace 4)
                              ++ [EvConnect false]
    /\ w_user w' = w_user w
    /\ w_queues w' = w_queues w
    /\ w_sched w' = w_sched w.
Proof.
  intros Hnet.
  destruct (conn_fails_unreached self func args 4 w (down_weaken 4 _ Hnet)) as [Hf Hn].
  destruct (unreached_attempts_world 4 w) as (Ht & Hu & Hq & Hs).
  revert Hf Hn Ht Hu Hq Hs. generalize (unreached_attempts 4 w). intros w4 Hf Hn Ht Hu Hq Hs.
  exists (log (EvConnect false) (set_net (tl (w_net w4)) w4)).
  split.
  - unfold blocking.ConsumeMessage_call. change 5%nat with (4 + 1)%nat.
    rewrite (retry_skips_failures sleep _ 4 _ _ _ Hf).
    apply retry_last_failure; [|reflexivity].
    apply prepare_channel_unreached. rewrite Hn. now apply down_skipn.
  - unfold log, set_net; cbn [w_trace w_user w_queues w_sched].
    rewrite Ht, Hu, Hq, Hs, <- app_assoc. repeat split; reflexivity.
Qed.

(** The default consumer of [q1], the broker out of reach five times. *)
Lemma consumer_gives_up_witness :
  let w := set_net [false; false; false; false; false] world_with_two_messages in
  exists w',
    blocking.ConsumeMessage_call (blocking.ConsumeMessage_default "q1")
                                 (counting "g" PNone) [] w
    = (Raise AMQPConnectionError, w')
    /\ w_trace w' = w_trace w ++ concat (repeat unreached_trace 4)
                              ++ [EvConnect false]
    /\ w_user w' = w_user w
    /\ w_queues w' = w_queues w
    /\ w_sched w' = w_sched w.
Proof.
  apply (consumer_gives_up (blocking.ConsumeMessage_default "q1") (counting "g" PNone) []
           (set_net [false; false; false; false; false] world_with_two_messages)).
  reflexivity.
Defined.
